(** * Verification of the AITRIOS vision-sensing tutorial notebooks

    The development embeds the Python code of two notebooks,

    - [tutorials/2_prepare_dataset/annotate_images/image_classification/export_api.ipynb]
    - [tutorials/3_prepare_model/develop_on_sdk/2_quantize_model/image_classification/quantize_image_classification_keras_model_with_mct.ipynb]

    and proves properties of their symlink guard and configuration cells,
    the natural-sort key, the dataset-export polling loop and the storing
    of the downloaded file, the calibration preprocessing, the enumeration
    of the test images and the top-1 accuracy computation.

    Conventions of the embedding.
    - A Python exception is a value of [Py.exn]; code that may raise returns
      a [Py.result].
    - A Python [str] is a [string] whose characters are the code points
      0..255 (the Latin-1 block of Unicode).  On that block the regular
      expression class [\d] matches exactly '0'..'9', while [str.isdigit]
      additionally holds for the superscripts U+00B2, U+00B3 and U+00B9.
    - Python [int] is [Z]; NumPy/Python floating point is [Q], every
      operation that rounds being wrapped in a rounding operator [fl].
    - The file system is a finite map from path text to nodes.
    - A notebook is its code cells run top to bottom in a fresh kernel; the
      first exception that escapes a cell stops the run. *)

From Stdlib Require Import ZArith QArith Qround Qabs Lqa Lia Bool Ascii String List.
From stdpp Require Import base option list sorting gmap strings.

Local Open Scope Z_scope.

(** ** Python exceptions and results *)

Module Py.

Inductive exn : Type :=
| OSError (errno : Z) (strerror : string) (filename : string)
| FileNotFoundError (filename : string)
| FileExistsError (msg : string)
| ShutilError (msg : string)
| JSONDecodeError
| ValidationError
| KeyError (key : string)
| AttributeError
| ValueError
| TypeError
| IndexError
| ZeroDivisionError
| NameError (name : string)
| IsADirectoryError (filename : string)
| Cv2Error
| NotADirectoryError (filename : string)
| OverflowError.

Inductive result (A : Type) : Type :=
| Ok (a : A)
| Raise (e : exn).

Arguments Ok {A} a.
Arguments Raise {A} e.

Definition bind {A B : Type} (m : result A) (k : A -> result B) : result B :=
  match m with
  | Ok a => k a
  | Raise e => Raise e
  end.

#[export] Instance result_ret : MRet result := fun A a => Ok a.
#[export] Instance result_bind : MBind result := fun A B k m => bind m k.

(** A list comprehension [[f(c) for c in l]]: evaluated left to right, the
    first exception aborts the whole comprehension. *)
Fixpoint comprehension {A B : Type} (f : A -> result B) (l : list A)
  : result (list B) :=
  match l with
  | [] => Ok []
  | c :: l' =>
      match f c with
      | Raise e => Raise e
      | Ok b =>
          match comprehension f l' with
          | Raise e => Raise e
          | Ok bs => Ok (b :: bs)
          end
      end
  end.

Definition is_type_error {A : Type} (r : result A) : bool :=
  match r with
  | Raise TypeError => true
  | _ => false
  end.

End Py.

Import Py.

(** ** Natural sort of file names (quantization notebook, "Enumerate JPEG images") *)

Module Natsort.

(** Characters matched by [\d], and accepted by [int], below code point 256. *)
Definition is_decimal (a : ascii) : bool :=
  (48 <=? nat_of_ascii a)%nat && (nat_of_ascii a <=? 57)%nat.

(** Characters with the Unicode property Numeric_Type=Digit that are not
    decimal digits: superscript two, three and one. *)
Definition is_superscript (a : ascii) : bool :=
  (nat_of_ascii a =? 178)%nat || (nat_of_ascii a =? 179)%nat
  || (nat_of_ascii a =? 185)%nat.

Definition char_isdigit (a : ascii) : bool := is_decimal a || is_superscript a.

Fixpoint all_chars (p : ascii -> bool) (s : string) : bool :=
  match s with
  | EmptyString => true
  | String a s' => p a && all_chars p s'
  end.

(** [str.isdigit]: at least one character, and all of them digits. *)
Definition isdigit (text : string) : bool :=
  match text with
  | EmptyString => false
  | _ => all_chars char_isdigit text
  end.

Definition digit_value (a : ascii) : Z := Z.of_nat (nat_of_ascii a) - 48.

Fixpoint int_digits (acc : Z) (s : string) : result Z :=
  match s with
  | EmptyString => Ok acc
  | String a s' =>
      if is_decimal a then int_digits (10 * acc + digit_value a) s'
      else Raise ValueError
  end.

(** [int(text)] on a text made of digit characters: base-10 value of a
    non-empty run of decimal digits, [ValueError] otherwise (signs, blanks
    and underscores never reach [int] here, [atoi] calls it under
    [isdigit] only). *)
Definition int (text : string) : result Z :=
  match text with
  | EmptyString => Raise ValueError
  | _ => int_digits 0 text
  end.

(** An element of a sort key: Python [str] or Python [int]. *)
Inductive key : Type :=
| KStr (s : string)
| KInt (n : Z).

(** [def atoi(text): return int(text) if text.isdigit() else text] *)
Definition atoi (text : string) : result key :=
  if isdigit text then
    match int text with
    | Ok n => Ok (KInt n)
    | Raise e => Raise e
    end
  else Ok (KStr text).

(** [re.split(r"(\d+)", text)]: the text is cut at every maximal run of
    decimal digits; the runs themselves are kept (captured group), so the
    result is [t0; d1; t1; ...; dn; tn] with [t0 ++ d1 ++ ... ++ tn = text].
    [push a chunks] is the split of [a] followed by a text whose split is
    [chunks]: a digit joins the run that starts the text or opens a new
    run, any other character joins the leading chunk. *)
Definition push (a : ascii) (chunks : list string) : list string :=
  match chunks with
  | [] => [String a EmptyString]
  | c :: tl =>
      if is_decimal a then
        match c, tl with
        | EmptyString, d :: tl' => EmptyString :: String a d :: tl'
        | _, _ => EmptyString :: String a EmptyString :: c :: tl
        end
      else String a c :: tl
  end.

Fixpoint re_split (text : string) : list string :=
  match text with
  | EmptyString => [EmptyString]
  | String a rest => push a (re_split rest)
  end.

(** [def natural_keys(text): return [atoi(c) for c in re.split(r"(\d+)", text)]] *)
Definition natural_keys (text : string) : result (list key) :=
  comprehension atoi (re_split text).

(** Python's [==] and [<] on key elements.  [str == int] is [False];
    [str < int] raises [TypeError]. *)
Definition key_eqb (x y : key) : bool :=
  match x, y with
  | KStr s, KStr t => String.eqb s t
  | KInt n, KInt m => Z.eqb n m
  | _, _ => false
  end.

Definition key_lt (x y : key) : result bool :=
  match x, y with
  | KStr s, KStr t => Ok (String.ltb s t)
  | KInt n, KInt m => Ok (Z.ltb n m)
  | _, _ => Raise TypeError
  end.

(** Python's [<] on lists: the first pair of unequal elements decides;
    without one the shorter list is the smaller. *)
Fixpoint keys_lt (a b : list key) : result bool :=
  match a, b with
  | [], [] => Ok false
  | [], _ :: _ => Ok true
  | _ :: _, [] => Ok false
  | x :: a', y :: b' => if key_eqb x y then keys_lt a' b' else key_lt x y
  end.

(** [sorted(files, key=natural_keys)]: all keys are computed first, then the
    (file, key) pairs are sorted stably with [<] on the keys.  The sort is
    modelled as a stable insertion sort. *)
Fixpoint insert (x : string * list key) (l : list (string * list key))
  : result (list (string * list key)) :=
  match l with
  | [] => Ok [x]
  | y :: l' =>
      match keys_lt (snd y) (snd x) with
      | Raise e => Raise e
      | Ok true =>
          match insert x l' with
          | Raise e => Raise e
          | Ok r => Ok (y :: r)
          end
      | Ok false => Ok (x :: y :: l')
      end
  end.

Fixpoint sort_pairs (l : list (string * list key))
  : result (list (string * list key)) :=
  match l with
  | [] => Ok []
  | x :: l' =>
      match sort_pairs l' with
      | Raise e => Raise e
      | Ok r => insert x r
      end
  end.

Definition decorate (text : string) : result (string * list key) :=
  match natural_keys text with
  | Ok ks => Ok (text, ks)
  | Raise e => Raise e
  end.

Definition sorted (files : list string) : result (list string) :=
  match comprehension decorate files with
  | Raise e => Raise e
  | Ok pairs =>
      match sort_pairs pairs with
      | Raise e => Raise e
      | Ok r => Ok (map fst r)
      end
  end.

(** Vocabulary of the statements about the sort key. *)

Definition no_decimal (s : string) : bool :=
  all_chars (fun a => negb (is_decimal a)) s.

Definition decimal_run (s : string) : bool :=
  match s with
  | EmptyString => false
  | _ => all_chars is_decimal s
  end.

(** No character that [isdigit] accepts and [int] rejects. *)
Definition plain (s : string) : bool :=
  all_chars (fun a => negb (is_superscript a)) s.

Fixpoint ends_with_decimal (s : string) : bool :=
  match s with
  | EmptyString => false
  | String a EmptyString => is_decimal a
  | String _ r => ends_with_decimal r
  end.

Definition starts_with_decimal (s : string) : bool :=
  match s with
  | EmptyString => false
  | String a _ => is_decimal a
  end.

(** Chunks at even positions hold no decimal digit, chunks at odd positions
    are runs of decimal digits. *)
Fixpoint split_shape (even_position : bool) (chunks : list string) : bool :=
  match chunks with
  | [] => true
  | c :: chunks' =>
      (if even_position then no_decimal c else decimal_run c)
      && split_shape (negb even_position) chunks'
  end.

Definition is_str (k : key) : bool :=
  match k with
  | KStr _ => true
  | KInt _ => false
  end.

(** Strings at even positions, integers at odd positions. *)
Fixpoint key_shape (even_position : bool) (ks : list key) : bool :=
  match ks with
  | [] => true
  | k :: ks' => Bool.eqb (is_str k) even_position && key_shape (negb even_position) ks'
  end.

(** Two file names that differ only in one maximal run of digits. *)
Definition differ_in_run (s1 s2 d1 d2 : string) : Prop :=
  exists p q,
    s1 = p +:+ d1 +:+ q /\ s2 = p +:+ d2 +:+ q /\
    decimal_run d1 = true /\ decimal_run d2 = true /\
    ends_with_decimal p = false /\ starts_with_decimal q = false.

Definition superscript_two : string := String (ascii_of_nat 178) EmptyString.

(** A decorated file name whose key has the shape of a [natural_keys] result. *)
Definition shaped (x : string * list key) : Prop := key_shape true (snd x) = true.

(** The order behind [<] on keys, as a three-way comparison: strings by
    code points, integers by value (a string and an integer are never
    compared on keys of the same shape; strings are put first). *)
Definition key_compare (x y : key) : comparison :=
  match x, y with
  | KStr s, KStr t => String.compare s t
  | KInt n, KInt m => Z.compare n m
  | KStr _, KInt _ => Lt
  | KInt _, KStr _ => Gt
  end.

Fixpoint keys_compare (a b : list key) : comparison :=
  match a, b with
  | [], [] => Eq
  | [], _ :: _ => Lt
  | _ :: _, [] => Gt
  | x :: a', y :: b' =>
      match key_compare x y with
      | Eq => keys_compare a' b'
      | c => c
      end
  end.

(** [x] may stand before [y] in a sorted list: [key(y) < key(x)] is false. *)
Definition not_after (x y : string * list key) : Prop :=
  keys_lt (snd y) (snd x) = Ok false.

(** The same on file names, through their keys. *)
Definition natural_le (f g : string) : Prop :=
  exists kf kg,
    natural_keys f = Ok kf /\ natural_keys g = Ok kg /\ keys_lt kg kf = Ok false.

End Natsort.

(** ** The file system seen by the notebooks *)

Module Fs.

(** What the file system has under a path text.  [Unreadable errno strerror]
    is a path that the process cannot examine: [lstat] and [stat] on it fail
    with [OSError(errno, strerror)] (for instance [EACCES] below a directory
    without search permission). *)
Inductive node : Type :=
| File (content : string)
| Dir
| Symlink (target : string)
| Unreadable (errno : Z) (strerror : string).

Definition ENOENT : Z := 2.
Definition EBADF : Z := 9.
Definition EACCES : Z := 13.
Definition ENOTDIR : Z := 20.
Definition ENAMETOOLONG : Z := 36.
Definition ELOOP : Z := 40.

(** Limits of Linux: a path of [PATH_MAX] bytes or more, or with a
    component of more than [NAME_MAX] bytes, is refused with
    [ENAMETOOLONG].  A character below code point 128 is one byte of the
    encoded path, any other character is two. *)
Definition NAME_MAX : nat := 255.
Definition PATH_MAX : nat := 4096.

Definition char_bytes (a : ascii) : nat :=
  if (nat_of_ascii a <? 128)%nat then 1%nat else 2%nat.

Fixpoint byte_length (s : string) : nat :=
  match s with
  | EmptyString => O
  | String a r => (char_bytes a + byte_length r)%nat
  end.

(** Some component, the one being read ([run] bytes so far) or a later
    one, is longer than [NAME_MAX]. *)
Fixpoint component_too_long (s : string) (run : nat) : bool :=
  match s with
  | EmptyString => (NAME_MAX <? run)%nat
  | String a r =>
      if Ascii.eqb a (ascii_of_nat 47)
      then (NAME_MAX <? run)%nat || component_too_long r O
      else component_too_long r (run + char_bytes a)
  end.

Definition too_long (p : string) : bool :=
  (PATH_MAX <=? byte_length p)%nat || component_too_long p O.

(** A path with a NUL character: refused with [ValueError] before any
    system call is made. *)
Fixpoint has_nul (s : string) : bool :=
  match s with
  | EmptyString => false
  | String a r => (nat_of_ascii a =? 0)%nat || has_nul r
  end.

Definition slash : ascii := ascii_of_nat 47.

Fixpoint all_slashes (s : string) : bool :=
  match s with
  | EmptyString => true
  | String a r => Ascii.eqb a slash && all_slashes r
  end.

(** Paths that every file system has, whether the map lists them or not:
    the current directory, its parent and the root. *)
Definition always_there (p : string) : bool :=
  String.eqb p "." || String.eqb p ".."
  || (negb (String.eqb p "") && all_slashes p).

(** [os.stat]: follows symbolic links (at most 40 of them, as Linux does);
    link targets are looked up as written.  [None] stands for any failure. *)
Fixpoint stat_fuel (fuel : nat) (fs : gmap string node) (p : string)
  : option node :=
  match fs !! p with
  | None => if always_there p then Some Dir else None
  | Some (Symlink target) =>
      match fuel with
      | O => None
      | S fuel' => stat_fuel fuel' fs target
      end
  | Some (Unreadable _ _) => None
  | Some n => Some n
  end.

Definition stat (fs : gmap string node) (p : string) : option node :=
  stat_fuel 40 fs p.

(** [os.lstat]: looks at the path itself, following no link. *)
Definition lstat (fs : gmap string node) (p : string) : result node :=
  if has_nul p then Raise ValueError
  else if too_long p then Raise (OSError ENAMETOOLONG "File name too long" p)
  else
    match fs !! p with
    | None => if always_there p then Ok Dir else Raise (FileNotFoundError p)
    | Some (Unreadable errno strerror) => Raise (OSError errno strerror p)
    | Some n => Ok n
    end.

(** The errors [pathlib] takes as "the path does not exist". *)
Definition ignore_error (errno : Z) : bool :=
  (errno =? ENOENT)%Z || (errno =? ENOTDIR)%Z || (errno =? EBADF)%Z
  || (errno =? ELOOP)%Z.

(** [pathlib.Path.is_symlink]:
[[
        try:
            return S_ISLNK(self.lstat().st_mode)
        except OSError as e:
            if not _ignore_error(e):
                raise
            return False
        except ValueError:
            return False
]] *)
Definition is_symlink (fs : gmap string node) (p : string) : result bool :=
  match lstat fs p with
  | Ok (Symlink _) => Ok true
  | Ok _ => Ok false
  | Raise (OSError errno strerror filename) =>
      if ignore_error errno then Ok false
      else Raise (OSError errno strerror filename)
  | Raise _ => Ok false
  end.

(** [os.path.exists] and [os.path.isdir] follow links. *)
Definition exists_ (fs : gmap string node) (p : string) : bool :=
  match stat fs p with
  | Some _ => true
  | None => false
  end.

Definition isdir (fs : gmap string node) (p : string) : bool :=
  match stat fs p with
  | Some Dir => true
  | _ => false
  end.

(** [open(p, "r").read()] *)
Definition read_text (fs : gmap string node) (p : string) : result string :=
  match stat fs p with
  | Some (File c) => Ok c
  | Some _ => Raise (IsADirectoryError p)
  | None =>
      match fs !! p with
      | Some (Unreadable errno strerror) => Raise (OSError errno strerror p)
      | _ => Raise (FileNotFoundError p)
      end
  end.

Fixpoint has_slash (s : string) : bool :=
  match s with
  | EmptyString => false
  | String a r => Ascii.eqb a slash || has_slash r
  end.

Fixpoint rstrip_slash (s : string) : string :=
  match s with
  | EmptyString => EmptyString
  | String a r =>
      match rstrip_slash r with
      | EmptyString => if Ascii.eqb a slash then EmptyString else String a EmptyString
      | r' => String a r'
      end
  end.

(** [os.path.basename]: the text after the last slash. *)
Fixpoint basename (s : string) : string :=
  match s with
  | EmptyString => EmptyString
  | String a r =>
      if has_slash r then basename r
      else if Ascii.eqb a slash then r else String a r
  end.

(** The text up to and including the last slash. *)
Fixpoint up_to_last_slash (s : string) : string :=
  match s with
  | EmptyString => EmptyString
  | String a r =>
      if has_slash r then String a (up_to_last_slash r)
      else if Ascii.eqb a slash then String a EmptyString else EmptyString
  end.

(** [os.path.dirname] *)
Definition dirname (s : string) : string :=
  let head := up_to_last_slash s in
  if all_slashes head then head else rstrip_slash head.

Fixpoint ends_with_slash (s : string) : bool :=
  match s with
  | EmptyString => false
  | String a EmptyString => Ascii.eqb a slash
  | String _ r => ends_with_slash r
  end.

(** [os.path.join(a, b)] *)
Definition join (a b : string) : string :=
  match b with
  | String c _ =>
      if Ascii.eqb c slash then b
      else if ends_with_slash a then a +:+ b
      else match a with
           | EmptyString => b
           | _ => a +:+ String slash b
           end
  | EmptyString =>
      if ends_with_slash a then a
      else match a with
           | EmptyString => EmptyString
           | _ => a +:+ String slash EmptyString
           end
  end.

(** The directory a new entry is to be made in, as the system call finds
    it: it has to be there and to be a directory. *)
Definition parent_directory (fs : gmap string node) (parent name : string)
  : result unit :=
  if String.eqb parent "" then Ok tt
  else
    match fs !! parent with
    | Some (Unreadable errno strerror) => Raise (OSError errno strerror name)
    | _ =>
        match stat fs parent with
        | Some Dir => Ok tt
        | Some _ => Raise (NotADirectoryError name)
        | None => Raise (FileNotFoundError name)
        end
    end.

(** [os.mkdir(name)]: one directory, in a parent that exists. *)
Definition mkdir (fs : gmap string node) (name : string)
  : result (gmap string node) :=
  if has_nul name then Raise ValueError
  else if too_long name then Raise (OSError ENAMETOOLONG "File name too long" name)
  else if String.eqb name "" then Raise (FileNotFoundError name)
  else
    let stem := rstrip_slash name in
    match parent_directory fs (dirname stem) name with
    | Raise e => Raise e
    | Ok _ =>
        if String.eqb (basename stem) "." || String.eqb (basename stem) ".."
        then Raise (FileExistsError name)
        else
          match fs !! name with
          | Some (Unreadable errno strerror) => Raise (OSError errno strerror name)
          | Some _ => Raise (FileExistsError name)
          | None =>
              if always_there name then Raise (FileExistsError name)
              else Ok (<[name := Dir]> fs)
          end
    end.

(** [os.makedirs(name)] with [exist_ok=False]:
[[
    head, tail = path.split(name)
    if not tail:
        head, tail = path.split(head)
    if head and tail and not path.exists(head):
        try:
            makedirs(head, exist_ok=exist_ok)
        except FileExistsError:
            pass
        if tail == cdir:
            return
    mkdir(name, mode)
]]
    The call can fail after it has made some of the directories, so the
    result is the file system it leaves and the exception, if there is one.
    [head] is shorter than [name] whenever the recursive call is made, so
    the length of [name] is fuel enough. *)
Definition try_mkdir (fs : gmap string node) (name : string)
  : gmap string node * option exn :=
  match mkdir fs name with
  | Ok fs' => (fs', None)
  | Raise e => (fs, Some e)
  end.

Definition split_head (name : string) : string :=
  if String.eqb (basename name) "" then dirname (dirname name) else dirname name.

Definition split_tail (name : string) : string :=
  if String.eqb (basename name) "" then basename (dirname name) else basename name.

Fixpoint makedirs_fuel (fuel : nat) (fs : gmap string node) (name : string)
  : gmap string node * option exn :=
  let head := split_head name in
  let tail := split_tail name in
  if negb (String.eqb head "") && negb (String.eqb tail "") && negb (exists_ fs head)
  then
    match fuel with
    | O => try_mkdir fs name
    | S fuel' =>
        match makedirs_fuel fuel' fs head with
        | (fs', None) | (fs', Some (FileExistsError _)) =>
            if String.eqb tail "." then (fs', None) else try_mkdir fs' name
        | (fs', Some e) => (fs', Some e)
        end
    end
  else try_mkdir fs name.

Definition makedirs (fs : gmap string node) (d : string)
  : gmap string node * option exn :=
  makedirs_fuel (String.length d) fs d.

(** [shutil.move(src, dst)]: into [dst] when [dst] is a directory (refused
    when the name is taken there), onto [dst] otherwise. *)
Definition move (fs : gmap string node) (src dst : string)
  : result (gmap string node) :=
  let real_dst :=
    if isdir fs dst then join dst (basename (rstrip_slash src)) else dst in
  if isdir fs dst && String.eqb src dst then Ok fs
  else if isdir fs dst && exists_ fs real_dst then Raise (ShutilError real_dst)
  else
    match fs !! src with
    | None => Raise (FileNotFoundError src)
    | Some (Unreadable errno strerror) => Raise (OSError errno strerror src)
    | Some n => Ok (<[real_dst := n]> (delete src fs))
    end.

End Fs.

(** ** Decoded JSON documents *)

Module Json.

#[local] Set Warnings "-register-all".

Inductive json : Type :=
| JNull
| JBool (b : bool)
| JNum (z : Z)
| JStr (s : string)
| JArr (l : list json)
| JObj (members : list (string * json)).

Fixpoint assoc (k : string) (members : list (string * json)) : option json :=
  match members with
  | [] => None
  | (k', v) :: rest => if String.eqb k k' then Some v else assoc k rest
  end.

(** [d[k]] *)
Definition getitem (d : json) (k : string) : result json :=
  match d with
  | JObj members =>
      match assoc k members with
      | Some v => Ok v
      | None => Raise (KeyError k)
      end
  | _ => Raise TypeError
  end.

(** [text in s] for two strings: [text] is a piece of [s]. *)
Fixpoint occurs (text s : string) : bool :=
  String.prefix text s
  || match s with
     | EmptyString => false
     | String _ r => occurs text r
     end.

(** [k in d] for a string [k]: a key of a dict, an element of a list, a
    piece of a string; a number, a boolean and [None] are no containers. *)
Definition contains (d : json) (k : string) : result bool :=
  match d with
  | JObj members =>
      Ok (match assoc k members with Some _ => true | None => false end)
  | JArr l =>
      Ok (existsb (fun v => match v with JStr s => String.eqb s k | _ => false end) l)
  | JStr s => Ok (occurs k s)
  | _ => Raise TypeError
  end.

(** [d.get(k, default)] *)
Definition get (d : json) (k : string) (default : json) : result json :=
  match d with
  | JObj members =>
      match assoc k members with
      | Some v => Ok v
      | None => Ok default
      end
  | _ => Raise AttributeError
  end.

(** [v.replace(os.path.sep, "/")]: on POSIX the separator is already "/",
    so a string is returned as it is; other values have no [replace]. *)
Definition replace_sep (v : json) : result string :=
  match v with
  | JStr s => Ok s
  | _ => Raise AttributeError
  end.

(** ["*." + v] *)
Definition concat_str (prefix : string) (v : json) : result string :=
  match v with
  | JStr s => Ok (prefix +:+ s)
  | _ => Raise TypeError
  end.

End Json.

Import Json.

(** Behaviour of the imported libraries that the notebooks rely on and the
    repository does not define. *)
Class Libraries : Type := {
  (** [json.loads] on the text of a file *)
  json_loads : string -> result json;
  (** [jsonschema.validate(instance, schema)] returns or raises *)
  jsonschema_conforms : json -> json -> bool;
  (** [str(v)] and [int(v)] on a decoded JSON value *)
  py_str : json -> string;
  py_int : json -> result Z
}.

(** ** Notebook cells: a kernel state and a monad of steps that may raise *)

Module Kernel.

(** The server side of [projects_api.retrieve_dataset]: what one call
    answers, [(data, response)] reduced to [response.status] and
    [data.name].  Every call is taken to return such a pair. *)
Record reply : Type := {
  response_status : Z;
  data_name : string
}.

(** Calls into the outside world, in the order they are made. *)
Inductive event : Type :=
| EPrint (text : string) (end_ : string)
| ESleep (seconds : Z)
| EListProjects
| ERetrieveDataset (id : json) (filename : string) (format : json) (status : Z)
| EMakedirs (d : string)
| EMove (src dst : string)
| ELoadModel (path : string)
| EImageLoader (dir : string) (batch_size : Z)
| EQuantize (n_iter : Z)
| EConvert (quantized : bool) (output_dir : string)
| ELoadLabels (path : string)
| EEnumerate (dir : string) (pattern : string)
| ELoadInterpreter (quantized : bool)
| EEvaluateTflite (quantized : bool)
| EEvaluateKeras (quantized : bool)
| ESaveResults (dir : string).

Record kernel : Type := {
  k_fs : gmap string Fs.node;      (* the file system *)
  k_vars : gmap string json;       (* global variables of the notebook *)
  k_server : list reply;           (* answers the export server will give *)
  k_log : list event               (* calls made so far, oldest first *)
}.

(** How far a run got: it completed, an exception escaped, or it is still
    inside the polling loop when the known answers of the server end. *)
Inductive outcome (A : Type) : Type :=
| Done (a : A)
| Raised (e : exn)
| Polling.

Arguments Done {A} a.
Arguments Raised {A} e.
Arguments Polling {A}.

Definition cell (A : Type) : Type := kernel -> outcome A * kernel.

Definition ret {A : Type} (a : A) : cell A := fun k => (Done a, k).

Definition bind {A B : Type} (m : cell A) (f : A -> cell B) : cell B :=
  fun k =>
    match m k with
    | (Done a, k') => f a k'
    | (Raised e, k') => (Raised e, k')
    | (Polling, k') => (Polling, k')
    end.

Definition raise {A : Type} (e : exn) : cell A := fun k => (Raised e, k).

Definition lift {A : Type} (r : result A) : cell A :=
  fun k =>
    match r with
    | Ok a => (Done a, k)
    | Raise e => (Raised e, k)
    end.

Definition assign (name : string) (v : json) : cell unit :=
  fun k =>
    (Done tt,
     {| k_fs := k_fs k; k_vars := <[name := v]> (k_vars k);
        k_server := k_server k; k_log := k_log k |}).

Definition getvar (name : string) : cell json :=
  fun k =>
    match k_vars k !! name with
    | Some v => (Done v, k)
    | None => (Raised (NameError name), k)
    end.

Definition emit (evs : list event) : cell unit :=
  fun k =>
    (Done tt,
     {| k_fs := k_fs k; k_vars := k_vars k;
        k_server := k_server k; k_log := k_log k ++ evs |}).

Definition get_fs : cell (gmap string Fs.node) := fun k => (Done (k_fs k), k).

Definition set_fs (fs : gmap string Fs.node) : cell unit :=
  fun k =>
    (Done tt,
     {| k_fs := fs; k_vars := k_vars k;
        k_server := k_server k; k_log := k_log k |}).

Definition as_str (v : json) : cell string :=
  match v with
  | JStr s => ret s
  | _ => raise TypeError
  end.

Definition as_int (v : json) : cell Z :=
  match v with
  | JNum z => ret z
  | _ => raise TypeError
  end.

End Kernel.

Import Kernel.

Declare Scope cell_scope.
Delimit Scope cell_scope with cell.
Notation "x <- m ;; f" := (Kernel.bind m (fun x => f))
  (at level 100, m at next level, right associativity) : cell_scope.
Notation "m ;;; f" := (Kernel.bind m (fun _ => f))
  (at level 100, right associativity) : cell_scope.
Local Open Scope cell_scope.

(** ** The symlink guard (both notebooks, first code cell) *)

Module Guard.

Definition ELOOP : Z := 40.

Definition symlink_msg : string :=
  "Symbolic link is not supported. Please use real folder or file".

(** [pathlib.Path(text)], identified with [str(Path(text))]: the text with
    empty and ["."] components dropped, one leading slash kept (two when
    there are exactly two), and ["."] for an empty path.  The guard and
    [open] consult the file system under that text. *)
Fixpoint components (text : string) : list string :=
  match text with
  | EmptyString => [EmptyString]
  | String a r =>
      if Ascii.eqb a Fs.slash then EmptyString :: components r
      else match components r with
           | [] => [String a EmptyString]
           | c :: tl => String a c :: tl
           end
  end.

Fixpoint leading_slashes (text : string) : nat :=
  match text with
  | EmptyString => O
  | String a r => if Ascii.eqb a Fs.slash then S (leading_slashes r) else O
  end.

Definition root_of (text : string) : string :=
  match leading_slashes text with
  | 0%nat => ""
  | 2%nat => "//"
  | _ => "/"
  end.

Definition is_part (c : string) : bool :=
  negb (String.eqb c "") && negb (String.eqb c ".").

Fixpoint join_parts (parts : list string) : string :=
  match parts with
  | [] => ""
  | [c] => c
  | c :: tl => c +:+ "/" +:+ join_parts tl
  end.

Definition Path (text : string) : string :=
  match root_of text +:+ join_parts (List.filter is_part (components text)) with
  | EmptyString => "."
  | p => p
  end.

(** [configuration_path = Path("./configuration.json")], in both notebooks. *)
Definition configuration_path : string := Path "./configuration.json".

(** [[
def validate_symlink(path: Path):
    if path.is_symlink():
        msg = "Symbolic link is not supported. Please use real folder or file"
        raise OSError(errno.ELOOP, f"{msg}", f"{path}")
]] *)
Definition validate_symlink (path : string) : cell unit :=
  fun k =>
    match Fs.is_symlink (k_fs k) path with
    | Ok true => (Raised (OSError ELOOP symlink_msg path), k)
    | Ok false => (Done tt, k)
    | Raise e => (Raised e, k)
    end.

(** [with open(path, "r") as f: v = json.load(f)] *)
Definition load_json `{Libraries} (path : string) : cell json :=
  fs <- get_fs ;;
  text <- lift (Fs.read_text fs path) ;;
  lift (json_loads text).

(** [jsonschema.validate(instance, schema)] *)
Definition jsonschema_validate `{Libraries} (instance schema : json) : cell unit :=
  if jsonschema_conforms instance schema then ret tt else raise ValidationError.

End Guard.

Import Guard.

(** ** The dataset export notebook [export_api.ipynb] *)

Module ExportApi.

Definition CR : string := String (ascii_of_nat 13) EmptyString.
Definition LF : string := String (ascii_of_nat 10) EmptyString.

(** Variables of the polling loop. *)
Record loop_vars : Type := {
  status : Z;
  temp_filepath : string;
  wt_count : nat
}.

Definition wt_list : list string := ["."; ".."; "..."; "...."].
Definition wt_len : nat := length wt_list.

(** [status != 200 and status != 201] *)
Definition not_ready (status : Z) : bool :=
  negb (status =? 200)%Z && negb (status =? 201)%Z.

(** One pass through the body of the [while] loop, given what the server
    answers to this pass's [retrieve_dataset] call:
[[
        (data, response) = api_client.projects_api.retrieve_dataset(
            id, action=action, filename=filename, format=format)
        status = response.status
        if status != 200 and status != 201:
            print("\rDataset is downloading now." + wt_list[wt_count], end="")
        else:
            print("\nDataset is downloaded.")
        time.sleep(1)
        temp_filepath = data.name
        wt_count += 1
        if wt_count == wt_len:
            wt_count = 0
]] *)
Definition loop_body (id : json) (filename : string) (format : json)
    (r : reply) (v : loop_vars) : loop_vars * list event :=
  let status := response_status r in
  let shown :=
    if not_ready status
    then EPrint (CR +:+ "Dataset is downloading now." +:+ nth (wt_count v) wt_list "") ""
    else EPrint (LF +:+ "Dataset is downloaded.") LF in
  let wt_count1 := S (wt_count v) in
  let wt_count2 := if (wt_count1 =? wt_len)%nat then O else wt_count1 in
  ({| status := status; temp_filepath := data_name r; wt_count := wt_count2 |},
   [ERetrieveDataset id filename format status; shown; ESleep 1]).

(** [while status != 200 and status != 201: body].  The loop runs against
    the answers the server is known to give; when they are used up and the
    condition still holds, the loop is still polling ([None]). *)
Fixpoint poll (id : json) (filename : string) (format : json)
    (server : list reply) (v : loop_vars)
  : list event * option loop_vars * list reply :=
  if not_ready (status v) then
    match server with
    | [] => ([], None, [])
    | r :: server' =>
        let '(v', evs) := loop_body id filename format r v in
        let '(evs', end_, rest) := poll id filename format server' v' in
        (evs ++ evs', end_, rest)
    end
  else ([], Some v, server).

Definition initial_vars : loop_vars :=
  {| status := 0; temp_filepath := ""; wt_count := O |}.

Definition download_loop (id : json) (filename : string) (format : json)
  : cell loop_vars :=
  fun k =>
    let '(evs, end_, rest) := poll id filename format (k_server k) initial_vars in
    let k' := {| k_fs := k_fs k; k_vars := k_vars k;
                 k_server := rest; k_log := k_log k ++ evs |} in
    match end_ with
    | Some v => (Done v, k')
    | None => (Polling, k')
    end.

Definition exists_msg (export_dir : string) : string :=
  "Failed to move dataset. A dataset file with the same name exists in the export_dir: "
  +:+ export_dir.

(** The statements after the loop:
[[
    if not os.path.exists(export_dir):
        os.makedirs(export_dir)
    if not os.path.exists(export_dir + filename):
        shutil.move(temp_filepath, export_dir)
        print("Dataset moved. Download process is completed.")
    else:
        raise FileExistsError(...)
]] *)
Definition store_dataset (export_dir filename temp_filepath : string) : cell unit :=
  fs <- get_fs ;;
  (if negb (Fs.exists_ fs export_dir)
   then emit [EMakedirs export_dir] ;;;
        set_fs (fst (Fs.makedirs fs export_dir)) ;;;
        match snd (Fs.makedirs fs export_dir) with
        | Some e => raise e
        | None => ret tt
        end
   else ret tt) ;;;
  fs <- get_fs ;;
  if negb (Fs.exists_ fs (export_dir +:+ filename))
  then emit [EMove temp_filepath export_dir] ;;;
       fs' <- lift (Fs.move fs temp_filepath export_dir) ;;
       set_fs fs' ;;;
       emit [EPrint "Dataset moved. Download process is completed." LF]
  else raise (FileExistsError (exists_msg export_dir)).

(** [configuration_schema_path = Path("./configuration_schema_export.json")] *)
Definition configuration_schema_path : string :=
  Path "./configuration_schema_export.json".

Section Cells.
Context `{Libraries}.

(** Cell "Load Configurations". *)
Definition load_configurations : cell unit :=
  assign "configuration_path" (JStr configuration_path) ;;;
  validate_symlink configuration_path ;;;
  app_configuration <- load_json configuration_path ;;
  assign "app_configuration" app_configuration ;;;
  assign "configuration_schema_path" (JStr configuration_schema_path) ;;;
  validate_symlink configuration_schema_path ;;;
  json_schema <- load_json configuration_schema_path ;;
  assign "json_schema" json_schema ;;;
  jsonschema_validate app_configuration json_schema ;;;
  cvat_username <- lift (getitem app_configuration "cvat_username") ;;
  assign "cvat_username" cvat_username ;;;
  cvat_password <- lift (get app_configuration "cvat_password" (JStr "")) ;;
  assign "cvat_password" cvat_password ;;;
  cvat_project_id <- lift (get app_configuration "cvat_project_id" (JStr "")) ;;
  assign "cvat_project_id" cvat_project_id ;;;
  export_format <- lift (getitem app_configuration "export_format") ;;
  assign "export_format" export_format ;;;
  v <- lift (getitem app_configuration "export_dir") ;;
  export_dir <- lift (replace_sep v) ;;
  assign "export_dir" (JStr export_dir) ;;;
  validate_symlink (Path export_dir).

(** Cell "Set Authentication": [Configuration(host=..., username=..., password=...)]. *)
Definition set_authentication : cell unit :=
  cvat_username <- getvar "cvat_username" ;;
  cvat_password <- getvar "cvat_password" ;;
  assign "configuration"
    (JObj [("host", JStr "http://localhost:8080/");
           ("username", cvat_username); ("password", cvat_password)]).

(** The body of the [with] block of the cell "Download Dataset":
[[
    format = export_format
    status = 0
    temp_filepath = ""
    (projectslist, response) = api_client.projects_api.list()
    id = cvat_project_id
    filename = "project_id_" + str(cvat_project_id) + ".zip"
    ...
    while status != 200 and status != 201:
        ...
    if not os.path.exists(export_dir):
        ...
]] *)
Definition download_dataset : cell unit :=
  format <- getvar "export_format" ;;
  emit [EListProjects] ;;;
  id <- getvar "cvat_project_id" ;;
  let filename := "project_id_" +:+ py_str id +:+ ".zip" in
  v <- download_loop id filename format ;;
  export_dir <- getvar "export_dir" ;;
  export_dir <- as_str export_dir ;;
  store_dataset export_dir filename (temp_filepath v).

(** Cell "Download Dataset": [with ApiClient(configuration) as api_client:]
    reads the variable [configuration] that the cell before it has bound,
    then runs the block. *)
Definition download_cell : cell unit :=
  configuration <- getvar "configuration" ;;
  download_dataset.

(** The notebook, run top to bottom; the first exception stops the run. *)
Definition notebook : cell unit :=
  load_configurations ;;;
  set_authentication ;;;
  download_cell.

End Cells.

(** Variables that hold values taken out of the configuration. *)
Definition configuration_variables : list string :=
  ["cvat_username"; "cvat_password"; "cvat_project_id"; "export_format"; "export_dir"].

End ExportApi.

(** ** The quantization notebook: configuration and sequence of cells *)

Module Quantize.

(** [configuration_schema_path = pathlib.Path("./configuration_schema.json")] *)
Definition configuration_schema_path : string :=
  Path "./configuration_schema.json".

Section Cells.
Context `{Libraries}.

(** [name = app_configuration[name].replace(os.path.sep, "/")]
    followed by [validate_symlink(pathlib.Path(name))]. *)
Definition path_setting (app_configuration : json) (name : string) : cell unit :=
  v <- lift (getitem app_configuration name) ;;
  p <- lift (replace_sep v) ;;
  assign name (JStr p) ;;;
  validate_symlink (Path p).

(** [name = int(app_configuration[name])] *)
Definition int_setting (app_configuration : json) (name : string) : cell unit :=
  v <- lift (getitem app_configuration name) ;;
  n <- lift (py_int v) ;;
  assign name (JNum n).

(** Cell "Load Configurations". *)
Definition load_configurations : cell unit :=
  assign "configuration_path" (JStr configuration_path) ;;;
  validate_symlink configuration_path ;;;
  app_configuration <- load_json configuration_path ;;
  assign "app_configuration" app_configuration ;;;
  assign "configuration_schema_path" (JStr configuration_schema_path) ;;;
  validate_symlink configuration_schema_path ;;;
  json_schema <- load_json configuration_schema_path ;;
  assign "json_schema" json_schema ;;;
  jsonschema_validate app_configuration json_schema ;;;
  path_setting app_configuration "source_keras_model" ;;;
  path_setting app_configuration "dataset_image_dir" ;;;
  int_setting app_configuration "batch_size" ;;;
  int_setting app_configuration "input_tensor_size" ;;;
  int_setting app_configuration "iteration_count" ;;;
  path_setting app_configuration "output_dir" ;;;
  path_setting app_configuration "evaluate_image_dir" ;;;
  v <- lift (getitem app_configuration "evaluate_image_extension") ;;
  evaluate_image_extension <- lift (concat_str "*." v) ;;
  assign "evaluate_image_extension" (JStr evaluate_image_extension) ;;;
  path_setting app_configuration "evaluate_label_file" ;;;
  path_setting app_configuration "evaluate_result_dir".

Definition str_var (name : string) : cell string :=
  v <- getvar name ;; as_str v.

Definition int_var (name : string) : cell Z :=
  v <- getvar name ;; as_int v.

(** The cells after the configuration, each reduced to the library calls it
    makes and the variables it reads. *)
Definition load_keras_model : cell unit :=
  source_keras_model <- str_var "source_keras_model" ;;
  emit [ELoadModel source_keras_model].

Definition define_preprocessing : cell unit :=
  input_tensor_size <- int_var "input_tensor_size" ;;
  (if input_tensor_size =? 0 then raise ZeroDivisionError else ret tt) ;;;
  dataset_image_dir <- str_var "dataset_image_dir" ;;
  batch_size <- int_var "batch_size" ;;
  emit [EImageLoader dataset_image_dir batch_size].

Definition quantize_model : cell unit :=
  iteration_count <- int_var "iteration_count" ;;
  emit [EQuantize iteration_count].

Definition convert_model (quantized : bool) : cell unit :=
  output_dir <- str_var "output_dir" ;;
  emit [EConvert quantized output_dir].

Definition load_labels : cell unit :=
  evaluate_label_file <- str_var "evaluate_label_file" ;;
  emit [ELoadLabels evaluate_label_file].

Definition enumerate_images : cell unit :=
  evaluate_image_dir <- str_var "evaluate_image_dir" ;;
  evaluate_image_extension <- str_var "evaluate_image_extension" ;;
  emit [EEnumerate evaluate_image_dir evaluate_image_extension].

Definition load_interpreter (quantized : bool) : cell unit :=
  output_dir <- str_var "output_dir" ;;
  emit [ELoadInterpreter quantized].

Definition save_results : cell unit :=
  evaluate_result_dir <- str_var "evaluate_result_dir" ;;
  emit [ESaveResults evaluate_result_dir].

(** The notebook, run top to bottom; the first exception stops the run. *)
Definition notebook : cell unit :=
  load_configurations ;;;
  load_keras_model ;;;
  define_preprocessing ;;;
  quantize_model ;;;
  convert_model true ;;;
  convert_model false ;;;
  load_labels ;;;
  enumerate_images ;;;
  load_interpreter false ;;;
  load_interpreter true ;;;
  emit [EEvaluateTflite false] ;;;
  emit [EEvaluateTflite true] ;;;
  emit [EEvaluateKeras false] ;;;
  emit [EEvaluateKeras true] ;;;
  save_results.

End Cells.

(** Variables that hold values taken out of the configuration. *)
Definition configuration_variables : list string :=
  ["source_keras_model"; "dataset_image_dir"; "batch_size"; "input_tensor_size";
   "iteration_count"; "output_dir"; "evaluate_image_dir";
   "evaluate_image_extension"; "evaluate_label_file"; "evaluate_result_dir"].

End Quantize.

(** Variables bound before the schema check, in both notebooks: the two
    paths and the two loaded documents. *)
Definition loader_variables : list string :=
  ["configuration_path"; "app_configuration"; "configuration_schema_path"; "json_schema"].

(** ** Calibration preprocessing (quantization notebook, "Quantize Keras Model") *)

Module Preprocess.

Local Open Scope Q_scope.

(** One channel of a NumPy image: [x.shape[0]], [x.shape[1]] and [x[i, j]]. *)
Record image : Type := {
  height : Z;
  width : Z;
  pix : Z -> Z -> Q
}.

(** [int(np.round(x))]: to the nearest integer, ties to the even one. *)
Definition np_round (x : Q) : Z :=
  let f := Qfloor x in
  match ((x - inject_Z f) ?= (1 # 2))%Q with
  | Lt => f
  | Gt => (f + 1)%Z
  | Eq => if Z.even f then f else (f + 1)%Z
  end.

(** A slice [start:stop] of an axis of length [len]: first index taken and
    number of indices taken (negative bounds count from the end, bounds are
    clipped to the axis). *)
Definition slice_bound (len k : Z) : Z :=
  if (k <? 0)%Z then Z.max 0 (k + len) else Z.min k len.

Definition slice_start (len start : Z) : Z := slice_bound len start.

Definition slice_length (len start stop : Z) : Z :=
  Z.max 0 (slice_bound len stop - slice_bound len start).

(** [x[r0:r1, c0:c1]] *)
Definition crop (x : image) (r0 r1 c0 c1 : Z) : image :=
  {| height := slice_length (height x) r0 r1;
     width := slice_length (width x) c0 c1;
     pix := fun i j =>
              pix x (i + slice_start (height x) r0)%Z (j + slice_start (width x) c0)%Z |}.

(** Python's [max(a, b)]: [b] only when it is strictly larger. *)
Definition py_max (a b : Q) : Q := if Qle_bool b a then a else b.

Definition MEAN : Q := 255 # 2.
Definition STD : Q := 255 # 2.

(** Unit round-off of float64. *)
Definition u64 : Q := 1 # (2 ^ 53).

Section Float.

(** Rounding of an exact result to float64. *)
Variable fl : Q -> Q.

(** Interpolation done by [cv2.resize]: pixel [(i, j)] of [x] resized to
    [height_tag] rows and [width_tag] columns. *)
Variable interpolate : image -> Z -> Z -> Z -> Z -> Q.

(** [float / int] *)
Definition div_int (a : Q) (n : Z) : result Q :=
  if (n =? 0)%Z then Raise ZeroDivisionError else Ok (fl (a / inject_Z n)).

(** [RESIZE_SCALE = 256 / input_tensor_size] *)
Definition RESIZE_SCALE (input_tensor_size : Z) : result Q :=
  if (input_tensor_size =? 0)%Z then Raise ZeroDivisionError
  else Ok (fl (256 / inject_Z input_tensor_size)).

(** [cv2.resize(x, (width_tag, height_tag))] *)
Definition cv2_resize (x : image) (width_tag height_tag : Z) : result image :=
  if (0 <? width_tag)%Z && (0 <? height_tag)%Z
  then Ok {| height := height_tag; width := width_tag;
             pix := interpolate x height_tag width_tag |}
  else Raise Cv2Error.

(** Local variables of [resize], in the order they are computed. *)
Definition resize_side (RESIZE_SCALE : Q) (SIZE : Z) (x : image) : result Q :=
  a ← div_int (fl (RESIZE_SCALE * inject_Z SIZE)) (height x);
  b ← div_int (fl (RESIZE_SCALE * inject_Z SIZE)) (width x);
  Ok (py_max a b).

Definition height_tag (resize_side : Q) (x : image) : Z :=
  np_round (fl (resize_side * inject_Z (height x))).

Definition width_tag (resize_side : Q) (x : image) : Z :=
  np_round (fl (resize_side * inject_Z (width x))).

(** [int((tag - SIZE) / 2)]: the quotient is exact in float64, [int]
    truncates towards zero. *)
Definition offset (tag SIZE : Z) : Z := Z.quot (tag - SIZE) 2.

(** [[
def resize(x):
    resize_side = max(RESIZE_SCALE * SIZE / x.shape[0], RESIZE_SCALE * SIZE / x.shape[1])
    height_tag = int(np.round(resize_side * x.shape[0]))
    width_tag = int(np.round(resize_side * x.shape[1]))
    resized_img = cv2.resize(x, (width_tag, height_tag))
    offset_height = int((height_tag - SIZE) / 2)
    offset_width = int((width_tag - SIZE) / 2)
    cropped_img = resized_img[offset_height : offset_height + SIZE,
                              offset_width : offset_width + SIZE]
    return cropped_img
]] *)
Definition resize (RESIZE_SCALE : Q) (SIZE : Z) (x : image) : result image :=
  side ← resize_side RESIZE_SCALE SIZE x;
  let height_tag := height_tag side x in
  let width_tag := width_tag side x in
  resized_img ← cv2_resize x width_tag height_tag;
  let offset_height := offset height_tag SIZE in
  let offset_width := offset width_tag SIZE in
  Ok (crop resized_img offset_height (offset_height + SIZE)%Z
                       offset_width (offset_width + SIZE)%Z).

(** [def normalization(x): return (x - MEAN) / STD], on one pixel value. *)
Definition normalization (x : Q) : Q := fl (fl (x - MEAN) / STD).

Definition normalize_image (x : image) : image :=
  {| height := height x; width := width x;
     pix := fun i j => normalization (pix x i j) |}.

End Float.

(** Properties of rounding that the proofs rely on.  Exact arithmetic has
    all three.  Rounding to the nearest float64 is monotone and exact on
    the half-integers below 2^53 in size; its relative error is at most
    [u64] wherever it neither underflows nor overflows, and
    [relative_error] asks for that bound everywhere: overflow and underflow
    are left out of the model. *)
Definition monotone (fl : Q -> Q) : Prop :=
  forall x y, x <= y -> fl x <= fl y.

Definition exact_on_halves (fl : Q -> Q) : Prop :=
  forall n : Z, (Z.abs n <= 2 ^ 53)%Z -> fl (n # 2) == n # 2.

Definition relative_error (fl : Q -> Q) : Prop :=
  forall x, Qabs (fl x - x) <= u64 * Qabs x.

(** Exact arithmetic: no rounding at all. *)
Definition exact (x : Q) : Q := x.

(** Nearest-neighbour sampling, one possible [cv2.resize] interpolation. *)
Definition nearest (x : image) (height_tag width_tag i j : Z) : Q :=
  pix x (i * height x / height_tag)%Z (j * width x / width_tag)%Z.

End Preprocess.

(** ** Top-1 accuracy of a TFLite model (quantization notebook, "Define evaluate methods") *)

Module Evaluate.

Local Open Scope Q_scope.

(** An entry of [test_images]. *)
Record test_image : Type := {
  path : string;
  imageID : string
}.

(** An entry of [predictions]; [top] is [prediction["predictions"][0]]. *)
Record prediction : Type := {
  pred_imageID : string;
  top : Z
}.

(** [np.argmax]: index of the first occurrence of the largest entry. *)
Fixpoint argmax_from (best_index : Z) (best : Q) (index : Z) (output : list Q) : Z :=
  match output with
  | [] => best_index
  | y :: output' =>
      if Qle_bool y best
      then argmax_from best_index best (index + 1)%Z output'
      else argmax_from index y (index + 1)%Z output'
  end.

Definition np_argmax (output : list Q) : result Z :=
  match output with
  | [] => Raise ValueError
  | y :: output' => Ok (argmax_from 0 y 1 output')
  end.

(** The second loop: [predictions[index]] against [ground_truth_ids[index]]
    for [index] from [index] on. *)
Fixpoint count_accurate (ground_truth_ids : list Z) (predictions : list prediction)
    (index : nat) (accurate_count : Z) : result Z :=
  match predictions with
  | [] => Ok accurate_count
  | p :: predictions' =>
      match ground_truth_ids !! index with
      | None => Raise IndexError
      | Some id =>
          count_accurate ground_truth_ids predictions' (S index)
            (if (top p =? id)%Z then (accurate_count + 1)%Z else accurate_count)
      end
  end.

Section Model.

(** Rounding of an exact result to float64. *)
Variable fl : Q -> Q.

(** The interpreter: the output tensor [output()[0]] it produces for the
    image stored at a path (decoding, resizing to the input tensor and
    [invoke] included). *)
Variable interpreter : string -> list Q.

(** The global list [ground_truth_ids]. *)
Variable ground_truth_ids : list Z.

Definition predict (image : test_image) : result prediction :=
  t ← np_argmax (interpreter (path image));
  Ok {| pred_imageID := imageID image; top := t |}.

(** [[
def evaluate_tflite_model(interpreter, images):
    predictions = []
    for test_image in tqdm(images):
        ...
        prediction["predictions"] = [np.argmax(output()[0])]
        predictions.append(prediction)
    accurate_count = 0
    for index in range(len(predictions)):
        if predictions[index]["predictions"][0] == ground_truth_ids[index]:
            accurate_count += 1
    top_1_accuracy = accurate_count * 1.0 / len(predictions)
    return top_1_accuracy
]] *)
Definition evaluate_tflite_model (images : list test_image) : result Q :=
  predictions ← comprehension predict images;
  accurate_count ← count_accurate ground_truth_ids predictions 0 0;
  if (Z.of_nat (length predictions) =? 0)%Z then Raise ZeroDivisionError
  else Ok (fl (inject_Z accurate_count * 1 / inject_Z (Z.of_nat (length predictions)))).

(** The indices at which the prediction is the ground truth. *)
Definition hit (images : list test_image) (index : nat) : bool :=
  match images !! index, ground_truth_ids !! index with
  | Some image, Some id =>
      match np_argmax (interpreter (path image)) with
      | Ok t => (t =? id)%Z
      | Raise _ => false
      end
  | _, _ => false
  end.

Definition hits (images : list test_image) : nat :=
  length (filter (fun index => hit images index = true) (seq 0 (length images))).

End Model.

End Evaluate.

(** ** Images and ground truth for the evaluation (quantization notebook, "Enumerate JPEG images") *)

Module Enumerate.

Import Evaluate.

Definition no_image_msg (evaluate_image_dir : string) : string :=
  "Image for evaluation not found in the evaluate_image_dir: " +:+ evaluate_image_dir.

Definition no_folder_msg (evaluate_image_dir : string) : string :=
  "Folder as label for evaluation not found in the evaluate_image_dir: "
  +:+ evaluate_image_dir.

Section Cell.

(** [glob.glob(pattern, recursive=True)] on the file system of the run. *)
Variable glob : string -> list string.

(** The global [labels]: what [json.load] returned for the label file,
    which is meant to hold an object from label names to label ids. *)
Variable labels : json.

Variables (evaluate_image_dir evaluate_image_extension evaluate_label_file : string).

(** The loop [for file in files_in_folder], appending to both lists:
[[
        label = os.path.basename(os.path.dirname(file))
        if label in labels:
            label_id = labels[label]
        else:
            raise KeyError(f"Label name: {label} not found in the {evaluate_label_file}")
        filename = os.path.basename(file)
        ...
        test_images.append(info)
        ground_truth_ids.append(label_id)
]] *)
Fixpoint add_files (files : list string)
    (test_images : list test_image) (ground_truth_ids : list json)
  : result (list test_image * list json) :=
  match files with
  | [] => Ok (test_images, ground_truth_ids)
  | file :: files' =>
      let label := Fs.basename (Fs.dirname file) in
      match contains labels label with
      | Raise e => Raise e
      | Ok false =>
          Raise (KeyError ("Label name: " +:+ label +:+ " not found in the "
                           +:+ evaluate_label_file))
      | Ok true =>
          match getitem labels label with
          | Raise e => Raise e
          | Ok label_id =>
              add_files files'
                (test_images ++ [{| path := file; imageID := Fs.basename file |}])
                (ground_truth_ids ++ [label_id])
          end
      end
  end.

(** The loop [for folder in folders]. *)
Fixpoint add_folders (folders : list string)
    (test_images : list test_image) (ground_truth_ids : list json)
  : result (list test_image * list json) :=
  match folders with
  | [] => Ok (test_images, ground_truth_ids)
  | folder :: folders' =>
      files_in_folder ← Natsort.sorted (glob (Fs.join folder evaluate_image_extension));
      lists ← add_files files_in_folder test_images ground_truth_ids;
      add_folders folders' (fst lists) (snd lists)
  end.

Definition enumerate : result (list test_image * list json) :=
  files_all ← Natsort.sorted
                (glob (evaluate_image_dir +:+ "/**/" +:+ evaluate_image_extension));
  match files_all with
  | [] => Raise (FileNotFoundError (no_image_msg evaluate_image_dir))
  | _ =>
      folders ← Natsort.sorted (glob (evaluate_image_dir +:+ "/*/"));
      match folders with
      | [] => Raise (FileNotFoundError (no_folder_msg evaluate_image_dir))
      | _ => add_folders folders [] []
      end
  end.

End Cell.

End Enumerate.

(** ** Vocabulary of the statements about the notebooks *)

Module Vocabulary.

Import ExportApi.

(** The loop body run once per answer, in order: final variables and all
    events. *)
Fixpoint run_bodies (id : json) (filename : string) (format : json)
    (answers : list reply) (v : loop_vars) : loop_vars * list event :=
  match answers with
  | [] => (v, [])
  | r :: answers' =>
      let '(v', evs) := loop_body id filename format r v in
      let '(v'', evs') := run_bodies id filename format answers' v' in
      (v'', evs ++ evs')
  end.

(** The events of one pass: one [retrieve_dataset] call, what is printed,
    one [time.sleep(1)]. *)
Definition is_iteration (id : json) (filename : string) (format : json)
    (status : Z) (evs : list event) : Prop :=
  exists text end_,
    evs = [ERetrieveDataset id filename format status; EPrint text end_; ESleep 1].

Definition is_retrieve (e : event) : bool :=
  match e with
  | ERetrieveDataset _ _ _ _ => true
  | _ => false
  end.

Definition is_sleep (e : event) : bool :=
  match e with
  | ESleep _ => true
  | _ => false
  end.

Definition is_move (e : event) : bool :=
  match e with
  | EMove _ _ => true
  | _ => false
  end.

Definition count (p : event -> bool) (evs : list event) : nat :=
  length (List.filter p evs).

(** A file name of 300 characters, more than [Fs.NAME_MAX]. *)
Definition long_name : string := string_of_list_ascii (replicate 300 "n"%char).

(** [fs'] is [fs] with directories added, and nothing else changed. *)
Definition extends (fs fs' : gmap string Fs.node) : Prop :=
  forall p,
    match fs !! p with
    | Some n => fs' !! p = Some n
    | None => fs' !! p = None \/ fs' !! p = Some Fs.Dir
    end.

(** An answer with status 200 or 201. *)
Definition ready (r : reply) : bool := negb (not_ready (response_status r)).

(** The file system after
    [if not os.path.exists(export_dir): os.makedirs(export_dir)]. *)
Definition ensure_dir (fs : gmap string Fs.node) (export_dir : string)
  : gmap string Fs.node * option exn :=
  if negb (Fs.exists_ fs export_dir) then Fs.makedirs fs export_dir else (fs, None).

(** The document a path holds, as [json.load] decodes it. *)
Definition loaded `{Libraries} (k : kernel) (p : string) (doc : json) : Prop :=
  exists text, Fs.read_text (k_fs k) p = Ok text /\ json_loads text = Ok doc.

(** A variable bound to the text of a path that is not a symbolic link. *)
Definition guarded (k : kernel) (name : string) : Prop :=
  exists p,
    k_vars k !! name = Some (JStr p) /\ Fs.is_symlink (k_fs k) (Path p) = Ok false.

(** A run of a notebook that stopped in the configuration cell before the
    schema check was passed: an exception escaped, nothing was printed or
    called, the file system is untouched, none of the variables [vars] has
    been assigned, and the only variables assigned at all are those of the
    loader. *)
Definition aborted (notebook : cell unit) (vars : list string) (k : kernel) : Prop :=
  exists e,
    fst (notebook k) = Raised e
    /\ (e = ValidationError \/ exists p, e = OSError ELOOP symlink_msg p)
    /\ k_log (snd (notebook k)) = k_log k
    /\ k_fs (snd (notebook k)) = k_fs k
    /\ k_server (snd (notebook k)) = k_server k
    /\ (forall name, In name vars ->
          k_vars (snd (notebook k)) !! name = k_vars k !! name)
    /\ (forall name, k_vars (snd (notebook k)) !! name <> k_vars k !! name ->
          In name loader_variables).

(** Libraries and kernels used to instantiate the statements: a decoder
    that knows two documents, a schema that asks for an object with a
    ["cvat_username"] member. *)
Definition demo_configuration : json :=
  JObj [("cvat_username", JStr "user"); ("cvat_project_id", JNum 1);
        ("export_format", JStr "ImageNet 1.0"); ("export_dir", JStr "./dataset/")].

#[export] Instance demo_libraries : Libraries := {
  json_loads text :=
    if String.eqb text "configuration" then Ok demo_configuration
    else if String.eqb text "empty" then Ok (JObj [])
    else if String.eqb text "schema" then Ok (JObj [])
    else Raise JSONDecodeError;
  jsonschema_conforms instance schema :=
    match instance with
    | JObj members =>
        match assoc "cvat_username" members with
        | Some _ => true
        | None => false
        end
    | _ => false
    end;
  py_str v :=
    match v with
    | JStr s => s
    | JNum 1 => "1"
    | _ => "?"
    end;
  py_int v :=
    match v with
    | JNum z => Ok z
    | _ => Raise TypeError
    end
}.

Definition demo_fs (configuration_text : string) : gmap string Fs.node :=
  {[ "configuration.json" := Fs.File configuration_text;
     "configuration_schema_export.json" := Fs.File "schema";
     "configuration_schema.json" := Fs.File "schema";
     "/tmp/project_id_1.zip" := Fs.File "zip" ]}.

Definition demo_kernel (configuration_text : string) (server : list reply) : kernel :=
  {| k_fs := demo_fs configuration_text; k_vars := ∅;
     k_server := server; k_log := [] |}.

Definition busy : reply := {| response_status := 202; data_name := "/tmp/project_id_1.zip" |}.
Definition created : reply := {| response_status := 201; data_name := "/tmp/project_id_1.zip" |}.

End Vocabulary.

(** ** Vocabulary of further statements *)

Module Statements.

Import ExportApi Vocabulary.

(** *** Natural sort *)

(** Python's [==] on key lists. *)
Fixpoint keys_eqb (a b : list Natsort.key) : bool :=
  match a, b with
  | [], [] => true
  | x :: a', y :: b' => Natsort.key_eqb x y && keys_eqb a' b'
  | _, _ => false
  end.

(** A decorated file name whose key is [kf]. *)
Definition has_key (kf : list Natsort.key) (p : string * list Natsort.key) : bool :=
  keys_eqb kf (snd p).

(** Two file names on which [natural_keys] returns equal keys: [sorted]
    puts neither before the other. *)
Definition same_key (f g : string) : bool :=
  match Natsort.natural_keys f, Natsort.natural_keys g with
  | Ok a, Ok b => keys_eqb a b
  | _, _ => false
  end.

(** *** Enumeration of the test images *)

(** An entry of [test_images] next to its entry of [ground_truth_ids], as
    the enumeration loop appends them. *)
Definition labelled (labels : json)
    (image : Evaluate.test_image) (id : json) : Prop :=
  getitem labels (Fs.basename (Fs.dirname (Evaluate.path image))) = Ok id
  /\ Evaluate.imageID image = Fs.basename (Evaluate.path image).

(** The message of the [KeyError] raised for a folder without a label. *)
Definition label_not_found (label evaluate_label_file : string) : string :=
  "Label name: " +:+ label +:+ " not found in the " +:+ evaluate_label_file.

(** A directory of test images as [glob.glob] reports it. *)
Definition demo_glob (pattern : string) : list string :=
  if String.eqb pattern "data/**/*.jpg"
  then ["data/dog/img10.jpg"; "data/cat/img2.jpg"; "data/dog/img9.jpg"]
  else if String.eqb pattern "data/*/" then ["data/dog/"; "data/cat/"]
  else if String.eqb pattern "data/cat/*.jpg" then ["data/cat/img2.jpg"]
  else if String.eqb pattern "data/dog/*.jpg"
       then ["data/dog/img10.jpg"; "data/dog/img9.jpg"]
  else [].

Definition demo_labels : json := JObj [("cat", JNum 0); ("dog", JNum 1)].

(** *** The download cell *)

(** [n + 1] dots. *)
Fixpoint dots (n : nat) : string :=
  match n with
  | O => "."
  | S n' => "." +:+ dots n'
  end.

(** What the [i]-th pass of the loop does (counting from 0) when the
    answer it gets is not ready. *)
Definition waiting_pass (id : json) (filename : string) (format : json)
    (i : nat) (r : reply) : list event :=
  [ERetrieveDataset id filename format (response_status r);
   EPrint (CR +:+ "Dataset is downloading now." +:+ dots (i mod 4)) "";
   ESleep 1].

(** What the last pass of the loop does: the answer it gets is ready. *)
Definition final_pass (id : json) (filename : string) (format : json) (r : reply)
  : list event :=
  [ERetrieveDataset id filename format (response_status r);
   EPrint (LF +:+ "Dataset is downloaded.") LF;
   ESleep 1].

(** Where [shutil.move(temp_filepath, export_dir)] puts the file when
    [export_dir] is a directory. *)
Definition destination (export_dir temp_filepath : string) : string :=
  Fs.join export_dir (Fs.basename (Fs.rstrip_slash temp_filepath)).

(** [isinstance(e, OSError)]: [OSError] and its subclasses, among them
    [shutil.Error]. *)
Definition is_oserror (e : exn) : bool :=
  match e with
  | OSError _ _ _ | FileNotFoundError _ | FileExistsError _
  | NotADirectoryError _ | IsADirectoryError _ | ShutilError _ => true
  | _ => false
  end.

(** The exceptions of [os.makedirs] and [shutil.move]: an [OSError], or the
    [ValueError] of a path with a NUL character. *)
Definition file_error (e : exn) : Prop := is_oserror e = true \/ e = ValueError.

(** A kernel whose export directory already holds the dataset. *)
Definition kernel_with_dataset : kernel :=
  {| k_fs := <["./dataset/project_id_1.zip" := Fs.File "old"]> (demo_fs "configuration");
     k_vars := ∅; k_server := [created]; k_log := [] |}.

(** *** The configuration cells *)

(** A step that leaves the world alone: whatever its outcome, nothing has
    been printed or called, and the file system and the answers of the
    server are as before. *)
Definition quiet {A : Type} (m : cell A) : Prop :=
  forall k,
    k_log (snd (m k)) = k_log k
    /\ k_fs (snd (m k)) = k_fs k
    /\ k_server (snd (m k)) = k_server k.

(** [d.get(key, default)] on the members of a decoded object. *)
Definition member_or (key : string) (default : json) (members : list (string * json))
  : json :=
  match assoc key members with
  | Some v => v
  | None => default
  end.

(** A variable that holds the text the configuration has under its name. *)
Definition holds_path (app_configuration : json) (k : kernel) (name : string) : Prop :=
  exists p,
    getitem app_configuration name = Ok (JStr p)
    /\ k_vars k !! name = Some (JStr p).

(** A variable that holds [int] of what the configuration has under its name. *)
Definition holds_int `{Libraries} (app_configuration : json) (k : kernel)
    (name : string) : Prop :=
  exists v n,
    getitem app_configuration name = Ok v /\ py_int v = Ok n
    /\ k_vars k !! name = Some (JNum n).

Definition path_settings : list string :=
  ["source_keras_model"; "dataset_image_dir"; "output_dir"; "evaluate_image_dir";
   "evaluate_label_file"; "evaluate_result_dir"].

Definition int_settings : list string :=
  ["batch_size"; "input_tensor_size"; "iteration_count"].

(** A configuration of the quantization notebook and a decoder that knows
    it, with a tensor size of 224 (text ["configuration"]) and of 0 (text
    ["zero"]). *)
Definition quantize_configuration (input_tensor_size : Z) : json :=
  JObj [("source_keras_model", JStr "./model"); ("dataset_image_dir", JStr "./images");
        ("batch_size", JNum 50); ("input_tensor_size", JNum input_tensor_size);
        ("iteration_count", JNum 10); ("output_dir", JStr "./output");
        ("evaluate_image_dir", JStr "./evaluate/images");
        ("evaluate_image_extension", JStr "JPEG");
        ("evaluate_label_file", JStr "./evaluate/labels.json");
        ("evaluate_result_dir", JStr "./evaluate/results")].

Definition quantize_libraries : Libraries := {|
  json_loads text :=
    if String.eqb text "configuration" then Ok (quantize_configuration 224)
    else if String.eqb text "zero" then Ok (quantize_configuration 0)
    else if String.eqb text "schema" then Ok (JObj [])
    else Raise JSONDecodeError;
  jsonschema_conforms instance schema := true;
  py_str v := "";
  py_int v :=
    match v with
    | JNum z => Ok z
    | _ => Raise TypeError
    end
|}.

(** *** Calibration images *)

(** [preprocessing=[resize, normalization]]: the image loader applies the
    two functions in this order to every image it samples. *)
Definition preprocessing (fl : Q -> Q)
    (interpolate : Preprocess.image -> Z -> Z -> Z -> Z -> Q)
    (RESIZE_SCALE : Q) (SIZE : Z) (x : Preprocess.image) : result Preprocess.image :=
  resized ← Preprocess.resize fl interpolate RESIZE_SCALE SIZE x;
  Ok (Preprocess.normalize_image fl resized).

End Statements.

(** * Proofs *)

(** ** Natural sort *)

Module NatsortFacts.

Import Natsort.

Example re_split_file10 : re_split "file10" = ["file"; "10"; ""].
Proof. reflexivity. Qed.

Example re_split_digits_first : re_split "12ab034" = [""; "12"; "ab"; "034"; ""].
Proof. reflexivity. Qed.

Example re_split_no_digit : re_split "abc" = ["abc"].
Proof. reflexivity. Qed.

Example natural_keys_file10 :
  natural_keys "file10" = Ok [KStr "file"; KInt 10; KStr ""].
Proof. reflexivity. Qed.

Example natural_keys_leading_zeros :
  natural_keys "007" = Ok [KStr ""; KInt 7; KStr ""].
Proof. reflexivity. Qed.

Example natural_keys_path :
  natural_keys "dir/cat/img_12.jpeg" = Ok [KStr "dir/cat/img_"; KInt 12; KStr ".jpeg"].
Proof. reflexivity. Qed.

Example natural_keys_superscript_in_text :
  natural_keys ("x" +:+ superscript_two) = Ok [KStr ("x" +:+ superscript_two)].
Proof. reflexivity. Qed.

Example natural_keys_superscript_alone :
  natural_keys ("1" +:+ superscript_two) = Raise ValueError.
Proof. reflexivity. Qed.

Example sorted_example :
  sorted ["file10"; "file2"; "file1"; "a"; "file02"; "10"; "9"]
  = Ok ["9"; "10"; "a"; "file1"; "file2"; "file02"; "file10"].
Proof. reflexivity. Qed.

(** *** The split *)

Lemma re_split_nonempty text : re_split text <> [].
Proof.
  destruct text as [|a rest]; simpl; [discriminate|].
  unfold push. destruct (re_split rest) as [|c tl]; [discriminate|].
  destruct (is_decimal a); [|discriminate].
  destruct c; [destruct tl|]; discriminate.
Qed.

Lemma all_chars_app p s t :
  all_chars p (s +:+ t) = all_chars p s && all_chars p t.
Proof.
  induction s as [|a s IH]; simpl; [reflexivity|].
  rewrite IH. now rewrite andb_assoc.
Qed.

Lemma push_shape a chunks :
  chunks <> [] -> split_shape true chunks = true ->
  split_shape true (push a chunks) = true.
Proof.
  intros Hne Hs. destruct chunks as [|c tl]; [congruence|].
  simpl in Hs. apply andb_true_iff in Hs as [Hc Htl].
  unfold push. destruct (is_decimal a) eqn:Ha.
  - destruct c as [|b c].
    + destruct tl as [|d tl'].
      * simpl. now rewrite Ha.
      * simpl in Htl. apply andb_true_iff in Htl as [Hd Htl'].
        simpl. rewrite Ha, Htl'. simpl.
        destruct d; [discriminate|]. simpl in *. now rewrite Hd.
    + simpl. rewrite Ha. simpl. simpl in Hc. now rewrite Hc, Htl.
  - simpl. unfold no_decimal in *. simpl. now rewrite Ha, Hc, Htl.
Qed.

Lemma re_split_shape text : split_shape true (re_split text) = true.
Proof.
  induction text as [|a rest IH]; [reflexivity|].
  simpl. apply push_shape; [apply re_split_nonempty | exact IH].
Qed.

Lemma concat_push a chunks :
  chunks <> [] ->
  fold_right String.append EmptyString (push a chunks)
  = String a (fold_right String.append EmptyString chunks).
Proof.
  intros Hne. destruct chunks as [|c tl]; [congruence|].
  unfold push. destruct (is_decimal a).
  - destruct c; [destruct tl|]; reflexivity.
  - reflexivity.
Qed.

(** The chunks, glued together, give the text back. *)
Lemma re_split_concat text :
  fold_right String.append EmptyString (re_split text) = text.
Proof.
  induction text as [|a rest IH]; [reflexivity|].
  simpl. rewrite concat_push by apply re_split_nonempty. now rewrite IH.
Qed.

(** *** [atoi] on the two kinds of chunk *)

Lemma int_digits_ok s : forall acc,
  all_chars is_decimal s = true -> exists n, int_digits acc s = Ok n.
Proof.
  induction s as [|a s IH]; intros acc Hs; simpl in *.
  - now exists acc.
  - apply andb_true_iff in Hs as [Ha Hs]. rewrite Ha. now apply IH.
Qed.

Lemma decimal_run_isdigit d : decimal_run d = true -> isdigit d = true.
Proof.
  destruct d as [|a d]; [discriminate|].
  unfold decimal_run, isdigit. generalize (String a d). clear.
  induction s as [|b s IH]; simpl; [reflexivity|].
  intros H. apply andb_true_iff in H as [Hb Hs].
  unfold char_isdigit. rewrite Hb. simpl. now apply IH.
Qed.

Lemma atoi_decimal_run d :
  decimal_run d = true -> exists n, int d = Ok n /\ atoi d = Ok (KInt n).
Proof.
  intros Hd. unfold atoi. rewrite (decimal_run_isdigit d Hd).
  destruct d as [|a d]; [discriminate|].
  destruct (int_digits_ok (String a d) 0 Hd) as [n Hn].
  exists n. unfold int. now rewrite Hn.
Qed.

Lemma atoi_no_decimal c :
  no_decimal c = true -> atoi c = Ok (KStr c) \/ atoi c = Raise ValueError.
Proof.
  intros Hc. unfold atoi. destruct (isdigit c) eqn:Hi; [right | now left].
  destruct c as [|a c]; [discriminate|].
  unfold no_decimal in Hc. simpl in Hc. apply andb_true_iff in Hc as [Ha _].
  apply negb_true_iff in Ha. unfold int. simpl. now rewrite Ha.
Qed.

Lemma int_digits_raises s : forall acc e,
  int_digits acc s = Raise e -> e = ValueError.
Proof.
  induction s as [|b s IH]; intros acc e; simpl; [discriminate|].
  destruct (is_decimal b); [apply IH | now intros [= <-]].
Qed.

Lemma atoi_raises text e : atoi text = Raise e -> e = ValueError.
Proof.
  unfold atoi. destruct (isdigit text); [|discriminate].
  destruct (int text) as [n|e'] eqn:Hi; [discriminate|]. intros [= <-].
  destruct text as [|a s]; unfold int in Hi; [now injection Hi as <-|].
  eapply int_digits_raises, Hi.
Qed.

(** A text without superscript digits is turned into a string or into an
    integer, never into an exception. *)
Lemma atoi_plain text : plain text = true -> exists k, atoi text = Ok k.
Proof.
  intros Hp. unfold atoi. destruct (isdigit text) eqn:Hi; [|eauto].
  assert (Hd : all_chars is_decimal text = true).
  { destruct text as [|a s]; [discriminate|]. unfold isdigit in Hi.
    revert Hp Hi. generalize (String a s). clear. intros s.
    induction s as [|b s IH]; simpl; [reflexivity|].
    unfold plain. simpl. intros Hp Hi.
    apply andb_true_iff in Hp as [Hb Hp]. apply andb_true_iff in Hi as [Hb' Hi].
    unfold char_isdigit in Hb'. apply negb_true_iff in Hb. rewrite Hb, orb_false_r in Hb'.
    rewrite Hb'. simpl. now apply IH. }
  destruct text as [|a s]; [discriminate|].
  destruct (int_digits_ok (String a s) 0 Hd) as [n Hn].
  exists (KInt n). unfold int. now rewrite Hn.
Qed.

(** *** Shape of the key list *)

Lemma comprehension_atoi_shape chunks : forall b ks,
  split_shape b chunks = true -> comprehension atoi chunks = Ok ks ->
  key_shape b ks = true.
Proof.
  induction chunks as [|c chunks IH]; intros b ks Hs Hk; simpl in *.
  - injection Hk as <-. reflexivity.
  - apply andb_true_iff in Hs as [Hc Hs].
    destruct (atoi c) as [k|] eqn:Hac; [|discriminate].
    destruct (comprehension atoi chunks) as [ks'|] eqn:Hks; [|discriminate].
    injection Hk as <-. simpl. rewrite (IH _ _ Hs eq_refl), andb_true_r.
    destruct b.
    + destruct (atoi_no_decimal c Hc) as [E|E]; rewrite E in Hac; [|discriminate].
      now injection Hac as <-.
    + destruct (atoi_decimal_run c Hc) as [n [_ E]]. rewrite E in Hac.
      now injection Hac as <-.
Qed.

Lemma natural_keys_shape text ks :
  natural_keys text = Ok ks -> key_shape true ks = true.
Proof. apply comprehension_atoi_shape, re_split_shape. Qed.

Lemma natural_keys_raises text e : natural_keys text = Raise e -> e = ValueError.
Proof.
  unfold natural_keys. induction (re_split text) as [|c l IH]; simpl; [discriminate|].
  destruct (atoi c) eqn:Hc.
  - destruct (comprehension atoi l); [discriminate|]. intros [= <-]. now apply IH.
  - intros [= <-]. eapply atoi_raises, Hc.
Qed.

Lemma split_shape_lookup chunks : forall b i c,
  split_shape b chunks = true -> chunks !! i = Some c ->
  if Bool.eqb (Nat.even i) b then no_decimal c = true else decimal_run c = true.
Proof.
  induction chunks as [|c0 chunks IH]; intros b i c Hs Hl; [discriminate|].
  simpl in Hs. apply andb_true_iff in Hs as [Hc Hs].
  destruct i as [|i].
  - injection Hl as <-. simpl. now destruct b.
  - simpl in Hl. specialize (IH _ _ _ Hs Hl).
    rewrite Nat.even_succ, <- Nat.negb_even.
    now destruct (Nat.even i), b.
Qed.

Lemma key_shape_lookup ks : forall b i k,
  key_shape b ks = true -> ks !! i = Some k ->
  is_str k = Bool.eqb (Nat.even i) b.
Proof.
  induction ks as [|k0 ks IH]; intros b i k Hs Hl; [discriminate|].
  simpl in Hs. apply andb_true_iff in Hs as [Hk Hs].
  destruct i as [|i].
  - injection Hl as <-. simpl. apply eqb_prop in Hk. rewrite Hk. now destruct b.
  - simpl in Hl. rewrite (IH _ _ _ Hs Hl).
    rewrite Nat.even_succ, <- Nat.negb_even.
    now destruct (Nat.even i), b.
Qed.

(** *** Comparison never meets a string and an integer *)

Lemma keys_lt_defined ks : forall b ks',
  key_shape b ks = true -> key_shape b ks' = true ->
  exists r, keys_lt ks ks' = Ok r.
Proof.
  induction ks as [|k ks IH]; intros b [|k' ks'] Hs Hs'; simpl; eauto.
  simpl in Hs, Hs'.
  apply andb_true_iff in Hs as [Hk Hs]. apply andb_true_iff in Hs' as [Hk' Hs'].
  destruct (key_eqb k k'); [now apply (IH (negb b))|].
  apply eqb_prop in Hk, Hk'.
  destruct k, k', b; simpl in *; try discriminate; eauto.
Qed.

Lemma insert_defined x l :
  shaped x -> Forall shaped l ->
  exists r, insert x l = Ok r /\ Forall shaped r.
Proof.
  intros Hx Hl. induction Hl as [|y l Hy Hl IH]; simpl.
  - exists [x]. split; [reflexivity|]. now constructor.
  - destruct (keys_lt_defined (snd y) true (snd x) Hy Hx) as [r Hr]. rewrite Hr.
    destruct r.
    + destruct IH as [r' [-> Hr']]. exists (y :: r'). split; [reflexivity|].
      now constructor.
    + exists (x :: y :: l). split; [reflexivity|]. now repeat constructor.
Qed.

Lemma sort_pairs_defined l :
  Forall shaped l -> exists r, sort_pairs l = Ok r /\ Forall shaped r.
Proof.
  intros Hl. induction Hl as [|x l Hx Hl IH]; simpl.
  - exists []. now split.
  - destruct IH as [r [-> Hr]]. now apply insert_defined.
Qed.

Lemma decorate_all files :
  (exists pairs, comprehension decorate files = Ok pairs /\ Forall shaped pairs)
  \/ comprehension decorate files = Raise ValueError.
Proof.
  induction files as [|f files IH]; simpl.
  - left. exists []. now split.
  - unfold decorate at 1 3. destruct (natural_keys f) as [ks|e] eqn:Hk.
    + destruct IH as [[pairs [-> Hp]]| ->]; [left | now right].
      exists ((f, ks) :: pairs). split; [reflexivity|]. constructor; [|exact Hp].
      unfold shaped. simpl. eapply natural_keys_shape, Hk.
    + right. now rewrite (natural_keys_raises _ _ Hk).
Qed.

Lemma sorted_returns_or_value_error files :
  (exists r, sorted files = Ok r) \/ sorted files = Raise ValueError.
Proof.
  unfold sorted. destruct (decorate_all files) as [[pairs [-> Hp]]| ->]; [left | now right].
  destruct (sort_pairs_defined pairs Hp) as [r [-> _]]. eauto.
Qed.

(** *** The split of a text around one run of digits *)

Lemma re_split_single text : re_split text = [EmptyString] -> text = EmptyString.
Proof. intros H. rewrite <- (re_split_concat text), H. reflexivity. Qed.

Lemma starts_decimal_split r :
  starts_with_decimal r = true -> exists tl, re_split r = EmptyString :: tl.
Proof.
  destruct r as [|a r]; [discriminate|]. simpl. intros Ha.
  pose proof (re_split_nonempty r) as Hne.
  destruct (re_split r) as [|c tl]; [congruence|].
  unfold push. rewrite Ha. destruct c; [destruct tl|]; eauto.
Qed.

Lemma starts_other_split q :
  starts_with_decimal q = false ->
  re_split q = [EmptyString]
  \/ exists b c tl, re_split q = String b c :: tl.
Proof.
  destruct q as [|b q]; [now left|]. simpl. intros Hb. right.
  pose proof (re_split_nonempty q) as Hne.
  destruct (re_split q) as [|c tl]; [congruence|].
  unfold push. rewrite Hb. eauto.
Qed.

Lemma push_app a l T :
  l <> [] -> l <> [EmptyString] -> push a (l ++ T) = push a l ++ T.
Proof.
  intros Hne Hs. destruct l as [|c tl]; [congruence|].
  simpl. destruct (is_decimal a); [|reflexivity].
  destruct c; [|reflexivity]. destruct tl; [congruence | reflexivity].
Qed.

Lemma re_split_app_run p r :
  ends_with_decimal p = false -> starts_with_decimal r = true ->
  re_split (p +:+ r) = re_split p ++ tail (re_split r).
Proof.
  intros Hp Hr. destruct (starts_decimal_split r Hr) as [T HT].
  rewrite HT. simpl tail.
  induction p as [|a p IH]; [exact HT|].
  destruct p as [|b p].
  - change (push a (re_split r) = push a [EmptyString] ++ T).
    rewrite HT. simpl in *. now rewrite Hp.
  - change (re_split (String a (String b p) +:+ r))
      with (push a (re_split (String b p +:+ r))).
    rewrite IH by exact Hp.
    change (re_split (String a (String b p))) with (push a (re_split (String b p))).
    apply push_app; [apply re_split_nonempty|].
    intros E. apply re_split_single in E. discriminate.
Qed.

Lemma re_split_run d q :
  decimal_run d = true -> starts_with_decimal q = false ->
  re_split (d +:+ q) = EmptyString :: d :: re_split q.
Proof.
  intros Hd Hq. induction d as [|a d IH]; [discriminate|].
  simpl in Hd. apply andb_true_iff in Hd as [Ha Hd].
  destruct d as [|b d].
  - change (push a (re_split q) = EmptyString :: String a EmptyString :: re_split q).
    destruct (starts_other_split q Hq) as [-> | [c [c' [tl ->]]]];
      simpl; now rewrite Ha.
  - change (re_split (String a (String b d) +:+ q))
      with (push a (re_split (String b d +:+ q))).
    rewrite IH by exact Hd. simpl. now rewrite Ha.
Qed.

Lemma re_split_around p d q :
  ends_with_decimal p = false -> decimal_run d = true ->
  starts_with_decimal q = false ->
  re_split (p +:+ d +:+ q) = re_split p ++ d :: re_split q.
Proof.
  intros Hp Hd Hq. rewrite re_split_app_run; [|exact Hp|].
  - now rewrite re_split_run.
  - destruct d; [discriminate|]. simpl in *. now apply andb_true_iff in Hd as [-> _].
Qed.

Lemma comprehension_app {A B : Type} (f : A -> result B) l1 l2 :
  comprehension f (l1 ++ l2)
  = match comprehension f l1 with
    | Raise e => Raise e
    | Ok b1 =>
        match comprehension f l2 with
        | Raise e => Raise e
        | Ok b2 => Ok (b1 ++ b2)
        end
    end.
Proof.
  induction l1 as [|a l1 IH]; simpl.
  - now destruct (comprehension f l2).
  - destruct (f a); [|reflexivity]. rewrite IH.
    destruct (comprehension f l1); [|reflexivity].
    now destruct (comprehension f l2).
Qed.

Lemma natural_keys_around p d q ks :
  ends_with_decimal p = false -> decimal_run d = true ->
  starts_with_decimal q = false ->
  natural_keys (p +:+ d +:+ q) = Ok ks ->
  exists kp kq n,
    natural_keys p = Ok kp /\ natural_keys q = Ok kq /\ int d = Ok n /\
    ks = kp ++ KInt n :: kq.
Proof.
  intros Hp Hd Hq. unfold natural_keys.
  rewrite (re_split_around p d q Hp Hd Hq), comprehension_app. simpl.
  destruct (atoi_decimal_run d Hd) as [n [Hn ->]].
  destruct (comprehension atoi (re_split p)) as [kp|]; [|discriminate].
  destruct (comprehension atoi (re_split q)) as [kq|]; [|discriminate].
  intros [= <-]. now exists kp, kq, n.
Qed.

Lemma natural_keys_build p d q kp kq n :
  ends_with_decimal p = false -> decimal_run d = true ->
  starts_with_decimal q = false ->
  natural_keys p = Ok kp -> natural_keys q = Ok kq -> int d = Ok n ->
  natural_keys (p +:+ d +:+ q) = Ok (kp ++ KInt n :: kq).
Proof.
  intros Hp Hd Hq. unfold natural_keys.
  rewrite (re_split_around p d q Hp Hd Hq), comprehension_app. simpl.
  intros -> -> Hn. destruct (atoi_decimal_run d Hd) as [n' [Hn' ->]].
  congruence.
Qed.

Lemma key_eqb_refl k : key_eqb k k = true.
Proof. destruct k; simpl; [apply String.eqb_refl | apply Z.eqb_refl]. Qed.

Lemma keys_lt_common_prefix kp a b : keys_lt (kp ++ a) (kp ++ b) = keys_lt a b.
Proof.
  induction kp as [|k kp IH]; [reflexivity|].
  simpl. now rewrite key_eqb_refl.
Qed.

Lemma keys_lt_at_run kp kq n1 n2 :
  n1 < n2 ->
  keys_lt (kp ++ KInt n1 :: kq) (kp ++ KInt n2 :: kq) = Ok true
  /\ keys_lt (kp ++ KInt n2 :: kq) (kp ++ KInt n1 :: kq) = Ok false.
Proof.
  intros Hlt. rewrite !keys_lt_common_prefix. simpl.
  assert ((n1 =? n2) = false) as -> by lia.
  assert ((n2 =? n1) = false) as -> by lia.
  assert ((n1 <? n2) = true) as -> by lia.
  assert ((n2 <? n1) = false) as -> by lia.
  now split.
Qed.

(** X4: two names that differ only in one maximal run of digits, and on
    one of which [natural_keys] returns, both have a key, and [sorted] puts
    the one whose run has the smaller value first, whichever order it is
    given them in. *)
Theorem digit_runs_order_numerically s1 s2 d1 d2 n1 n2 k1 :
  differ_in_run s1 s2 d1 d2 ->
  natural_keys s1 = Ok k1 ->
  int d1 = Ok n1 -> int d2 = Ok n2 -> n1 < n2 ->
  (exists k2, natural_keys s2 = Ok k2
              /\ keys_lt k1 k2 = Ok true /\ keys_lt k2 k1 = Ok false)
  /\ sorted [s1; s2] = Ok [s1; s2]
  /\ sorted [s2; s1] = Ok [s1; s2].
Proof.
  intros [p [q [-> [-> [Hd1 [Hd2 [Hp Hq]]]]]]] Hk1 Hn1 Hn2 Hlt.
  destruct (natural_keys_around p d1 q k1 Hp Hd1 Hq Hk1)
    as [kp [kq [n [Hkp [Hkq [Hn ->]]]]]].
  assert (n = n1) as -> by congruence.
  pose proof (natural_keys_build p d2 q kp kq n2 Hp Hd2 Hq Hkp Hkq Hn2) as Hk2.
  destruct (keys_lt_at_run kp kq n1 n2 Hlt) as [Hlt12 Hlt21].
  split; [|split].
  - now exists (kp ++ KInt n2 :: kq).
  - unfold sorted. simpl. unfold decorate. rewrite Hk1, Hk2. simpl.
    now rewrite Hlt21.
  - unfold sorted. simpl. unfold decorate. rewrite Hk1, Hk2. simpl.
    now rewrite Hlt12.
Qed.

Lemma digit_runs_order_numerically_witness :
  sorted ["file10"; "file2"] = Ok ["file2"; "file10"].
Proof.
  refine (proj2 (proj2 (digit_runs_order_numerically "file2" "file10" "2" "10" 2 10
            [KStr "file"; KInt 2; KStr ""] _ eq_refl eq_refl eq_refl eq_refl))).
  exists "file", "". repeat split.
Defined.

(** *** The order on keys and the sorted list *)

Lemma string_compare_refl s : String.compare s s = Eq.
Proof.
  induction s as [|a s IH]; [reflexivity|]. simpl.
  unfold Ascii.compare. now rewrite N.compare_refl.
Qed.

Lemma string_compare_lt_trans s : forall t r,
  String.compare s t = Lt -> String.compare t r = Lt -> String.compare s r = Lt.
Proof.
  induction s as [|a s IH]; intros [|b t] [|c r]; simpl; try easy.
  destruct (Ascii.compare a b) eqn:Hab; try discriminate;
    destruct (Ascii.compare b c) eqn:Hbc; try discriminate; intros H1 H2.
  - apply Ascii.compare_eq_iff in Hab, Hbc. subst.
    unfold Ascii.compare. rewrite N.compare_refl. now apply (IH t).
  - apply Ascii.compare_eq_iff in Hab. subst. now rewrite Hbc.
  - apply Ascii.compare_eq_iff in Hbc. subst. now rewrite Hab.
  - unfold Ascii.compare in *. rewrite N.compare_lt_iff in *.
    assert (Hac : (N_of_ascii a < N_of_ascii c)%N) by (etransitivity; eassumption).
    apply N.compare_lt_iff in Hac. now rewrite Hac.
Qed.

Lemma key_compare_refl k : key_compare k k = Eq.
Proof. destruct k; simpl; [apply string_compare_refl | apply Z.compare_refl]. Qed.

Lemma key_compare_eq x y : key_compare x y = Eq -> x = y.
Proof.
  destruct x, y; simpl; try discriminate; intros E.
  - f_equal. now apply String.compare_eq_iff.
  - f_equal. now apply Z.compare_eq.
Qed.

Lemma key_compare_antisym x y : key_compare x y = CompOpp (key_compare y x).
Proof.
  destruct x, y; simpl; try reflexivity.
  - apply String.compare_antisym.
  - apply Z.compare_antisym.
Qed.

Lemma key_compare_lt_trans x y z :
  key_compare x y = Lt -> key_compare y z = Lt -> key_compare x z = Lt.
Proof.
  destruct x, y, z; simpl; try easy.
  - apply string_compare_lt_trans.
  - rewrite !Z.compare_lt_iff. lia.
Qed.

Lemma keys_compare_refl a : keys_compare a a = Eq.
Proof. induction a as [|x a IH]; [reflexivity|]. simpl. now rewrite key_compare_refl. Qed.

Lemma keys_compare_antisym a : forall b,
  keys_compare a b = CompOpp (keys_compare b a).
Proof.
  induction a as [|x a IH]; intros [|y b]; simpl; try reflexivity.
  rewrite (key_compare_antisym x y).
  destruct (key_compare y x); simpl; [apply IH | reflexivity | reflexivity].
Qed.

Lemma keys_compare_le_trans a : forall b c,
  keys_compare a b <> Gt -> keys_compare b c <> Gt -> keys_compare a c <> Gt.
Proof.
  induction a as [|x a IH]; intros [|y b] [|z c]; simpl; try easy.
  destruct (key_compare x y) eqn:Hxy; [| |easy];
    destruct (key_compare y z) eqn:Hyz; try easy; intros H1 H2.
  - apply key_compare_eq in Hxy, Hyz. subst. rewrite key_compare_refl.
    now apply (IH b).
  - apply key_compare_eq in Hxy. subst. now rewrite Hyz.
  - apply key_compare_eq in Hyz. subst. now rewrite Hxy.
  - now rewrite (key_compare_lt_trans x y z Hxy Hyz).
Qed.

(** On keys of the same shape, Python's [<] is this comparison. *)
Lemma keys_lt_compare a : forall b e,
  key_shape e a = true -> key_shape e b = true ->
  keys_lt a b = Ok (match keys_compare a b with Lt => true | _ => false end).
Proof.
  induction a as [|x a IH]; intros [|y b] e Ha Hb; simpl; try reflexivity.
  simpl in Ha, Hb.
  apply andb_true_iff in Ha as [Hx Ha]. apply andb_true_iff in Hb as [Hy Hb].
  apply eqb_prop in Hx, Hy.
  destruct x as [s|n], y as [t|m], e; simpl in *; try discriminate.
  - destruct (String.eqb_spec s t) as [->|Hne].
    + rewrite string_compare_refl. now apply (IH b false).
    + unfold String.ltb. destruct (String.compare s t) eqn:E; try reflexivity.
      apply String.compare_eq_iff in E. congruence.
  - destruct (Z.eqb_spec n m) as [->|Hne].
    + rewrite Z.compare_refl. now apply (IH b true).
    + unfold Z.ltb. destruct (Z.compare n m) eqn:E; try reflexivity.
      apply Z.compare_eq in E. congruence.
Qed.

Lemma not_after_compare x y :
  shaped x -> shaped y ->
  not_after x y <-> keys_compare (snd x) (snd y) <> Gt.
Proof.
  intros Hx Hy. unfold not_after.
  rewrite (keys_lt_compare (snd y) (snd x) true Hy Hx).
  rewrite (keys_compare_antisym (snd x) (snd y)).
  destruct (keys_compare (snd y) (snd x)); simpl; split; congruence.
Qed.

Lemma not_after_trans x y z :
  shaped x -> shaped y -> shaped z ->
  not_after x y -> not_after y z -> not_after x z.
Proof.
  intros Hx Hy Hz. rewrite !not_after_compare by assumption.
  apply keys_compare_le_trans.
Qed.

Lemma insert_sorted x l r :
  shaped x -> Forall shaped l -> StronglySorted not_after l ->
  insert x l = Ok r ->
  Permutation (x :: l) r /\ StronglySorted not_after r.
Proof.
  intros Hx Hl Hs. revert r.
  induction Hs as [|y l Hsl IH Hy]; intros r Hr; simpl in Hr.
  - injection Hr as <-. split; [reflexivity|]. repeat constructor.
  - apply Forall_cons in Hl as [Hys Hl].
    rewrite (keys_lt_compare (snd y) (snd x) true Hys Hx) in Hr.
    destruct (keys_compare (snd y) (snd x)) eqn:E.
    + injection Hr as <-. split; [reflexivity|].
      assert (Hxy : not_after x y).
      { apply not_after_compare; trivial.
        rewrite keys_compare_antisym, E. discriminate. }
      constructor; [now constructor|]. constructor; [exact Hxy|].
      rewrite Forall_forall in Hy, Hl |- *. intros z Hz.
      apply (not_after_trans x y z); auto.
    + destruct (insert x l) as [r'|] eqn:Hi; [|discriminate].
      injection Hr as <-. destruct (IH Hl r' eq_refl) as [Hp Hs'].
      split.
      * rewrite perm_swap. now constructor.
      * constructor; [exact Hs'|].
        rewrite <- Hp. constructor; [|exact Hy].
        apply not_after_compare; trivial. rewrite E. discriminate.
    + injection Hr as <-. split; [reflexivity|].
      assert (Hxy : not_after x y).
      { apply not_after_compare; trivial.
        rewrite keys_compare_antisym, E. discriminate. }
      constructor; [now constructor|]. constructor; [exact Hxy|].
      rewrite Forall_forall in Hy, Hl |- *. intros z Hz.
      apply (not_after_trans x y z); auto.
Qed.

Lemma sort_pairs_sorted l : forall r,
  Forall shaped l -> sort_pairs l = Ok r ->
  Permutation l r /\ StronglySorted not_after r /\ Forall shaped r.
Proof.
  induction l as [|x l IH]; intros r Hl Hr; simpl in Hr.
  - injection Hr as <-. repeat split; constructor.
  - apply Forall_cons in Hl as [Hx Hl].
    destruct (sort_pairs l) as [r0|] eqn:Hs; [|discriminate].
    destruct (IH r0 Hl eq_refl) as (Hp & Hs0 & Hf0).
    destruct (insert_sorted x r0 r Hx Hf0 Hs0 Hr) as [Hp' Hs'].
    repeat split; trivial.
    + rewrite <- Hp'. now constructor.
    + rewrite <- Hp'. now constructor.
Qed.

Lemma decorate_pairs files : forall pairs,
  comprehension decorate files = Ok pairs ->
  map fst pairs = files
  /\ Forall (fun p => natural_keys (fst p) = Ok (snd p)) pairs.
Proof.
  induction files as [|f files IH]; intros pairs Hp; simpl in Hp.
  - injection Hp as <-. split; [reflexivity | constructor].
  - unfold decorate at 1 in Hp. destruct (natural_keys f) as [ks|] eqn:Hk; [|discriminate].
    destruct (comprehension decorate files) as [ps|]; [|discriminate].
    injection Hp as <-. destruct (IH ps eq_refl) as [Hm Hf].
    split; [simpl; now rewrite Hm | now constructor].
Qed.

Lemma not_after_names r :
  Forall (fun p => natural_keys (fst p) = Ok (snd p)) r ->
  StronglySorted not_after r -> StronglySorted natural_le (map fst r).
Proof.
  intros Hf Hs. induction Hs as [|x r Hs IH Hx]; [constructor|].
  apply Forall_cons in Hf as [Hkx Hf]. simpl. constructor; [now apply IH|].
  rewrite Forall_forall in Hx. rewrite Forall_forall in Hf. rewrite Forall_forall.
  intros g Hg.
  apply list_elem_of_fmap in Hg as [y [-> Hy]].
  exists (snd x), (snd y). repeat split; auto. now apply Hx.
Qed.

(** X1: whenever [sorted(files, key=natural_keys)] returns, its result is
    the input rearranged (no file is lost, added or repeated) so that no
    name comes after a name with a smaller key. *)
Theorem sorted_in_natural_order files r :
  sorted files = Ok r ->
  Permutation files r /\ StronglySorted natural_le r.
Proof.
  unfold sorted. intros Hrun.
  destruct (comprehension decorate files) as [pairs|] eqn:Hd; [|discriminate].
  destruct (sort_pairs pairs) as [r0|] eqn:Hs; [|discriminate].
  injection Hrun as <-.
  destruct (decorate_pairs files pairs Hd) as [Hm Hk].
  assert (Hshaped : Forall shaped pairs).
  { eapply Forall_impl; [exact Hk|]. intros p Hp.
    eapply natural_keys_shape, Hp. }
  destruct (sort_pairs_sorted pairs r0 Hshaped Hs) as (Hp & Hs0 & _).
  split.
  - rewrite <- Hm. now apply Permutation_map.
  - apply not_after_names; [|exact Hs0]. now rewrite <- Hp.
Qed.

Lemma sorted_in_natural_order_witness :
  Permutation ["file10"; "file2"; "file1"] ["file1"; "file2"; "file10"].
Proof.
  exact (proj1 (sorted_in_natural_order ["file10"; "file2"; "file1"]
                  ["file1"; "file2"; "file10"] eq_refl)).
Defined.

(** *** Texts without superscript digits always have a key *)

Lemma push_plain a chunks :
  negb (is_superscript a) = true ->
  Forall (fun c => plain c = true) chunks ->
  Forall (fun c => plain c = true) (push a chunks).
Proof.
  intros Ha Hc. unfold push. destruct Hc as [|c tl Hc Htl].
  - constructor; [|constructor]. unfold plain. simpl. now rewrite Ha.
  - assert (Hac : plain (String a c) = true).
    { unfold plain in *. simpl. now rewrite Ha, Hc. }
    destruct (is_decimal a); [|now constructor].
    destruct c.
    + destruct Htl as [|d tl' Hd Htl'].
      * repeat constructor. exact Hac.
      * repeat constructor; [|exact Htl'].
        unfold plain in *. simpl. now rewrite Ha, Hd.
    + repeat constructor; [|exact Hc|exact Htl].
      unfold plain. simpl. now rewrite Ha.
Qed.

Lemma re_split_plain text :
  plain text = true -> Forall (fun c => plain c = true) (re_split text).
Proof.
  induction text as [|a rest IH]; intros Hp.
  - repeat constructor.
  - unfold plain in Hp. simpl in Hp. apply andb_true_iff in Hp as [Ha Hp].
    simpl. apply push_plain; [exact Ha | now apply IH].
Qed.

Lemma natural_keys_plain text :
  plain text = true -> exists ks, natural_keys text = Ok ks.
Proof.
  intros Hp. unfold natural_keys.
  induction (re_split_plain text Hp) as [|c l Hc Hl IH]; simpl; [eauto|].
  destruct (atoi_plain c Hc) as [k ->]. destruct IH as [ks ->]. eauto.
Qed.


Lemma sorted_plain files :
  Forall (fun f => plain f = true) files -> exists r, sorted files = Ok r.
Proof.
  intros Hp. unfold sorted.
  assert (Hd : exists pairs, comprehension decorate files = Ok pairs).
  { induction Hp as [|f files Hf _ IH]; simpl; [eauto|].
    unfold decorate at 1. destruct (natural_keys_plain f Hf) as [ks ->].
    destruct IH as [pairs ->]. eauto. }
  destruct Hd as [pairs Hd].
  destruct (decorate_all files) as [[pairs' [Hd' Hs]]|Hd']; [|congruence].
  rewrite Hd'. destruct (sort_pairs_defined pairs' Hs) as [r [-> _]]. eauto.
Qed.

(** C9: sorting with [key=natural_keys] never raises a type error.  For
    every text, the chunks of the split at even positions hold no decimal
    digit and [atoi] leaves them strings (unless it raises [ValueError]),
    the chunks at odd positions become integers; hence every key list that
    is produced has strings at even and integers at odd positions, any two
    such key lists are compared without an exception, and [sorted] returns
    or raises [ValueError], never [TypeError].  On names without
    superscript digits it returns. *)
Theorem sorting_never_compares_str_with_int (text : string) (files : list string) :
  (forall i c, re_split text !! i = Some c ->
     if Nat.even i
     then no_decimal c = true /\ (atoi c = Ok (KStr c) \/ atoi c = Raise ValueError)
     else decimal_run c = true /\ exists n, atoi c = Ok (KInt n))
  /\ (forall ks, natural_keys text = Ok ks ->
        forall i k, ks !! i = Some k -> is_str k = Nat.even i)
  /\ (forall text' ks ks',
        natural_keys text = Ok ks -> natural_keys text' = Ok ks' ->
        exists b, keys_lt ks ks' = Ok b)
  /\ ((exists r, sorted files = Ok r) \/ sorted files = Raise ValueError)
  /\ is_type_error (sorted files) = false
  /\ (Forall (fun f => plain f = true) files -> exists r, sorted files = Ok r).
Proof.
  split; [|split; [|split; [|split; [|split]]]].
  - intros i c Hc.
    pose proof (split_shape_lookup _ true i c (re_split_shape text) Hc) as Hs.
    destruct (Nat.even i); simpl in Hs.
    + split; [exact Hs | now apply atoi_no_decimal].
    + split; [exact Hs|]. destruct (atoi_decimal_run c Hs) as [n [_ Hn]]. eauto.
  - intros ks Hks i k Hk.
    rewrite (key_shape_lookup ks true i k (natural_keys_shape text ks Hks) Hk).
    now destruct (Nat.even i).
  - intros text' ks ks' Hks Hks'.
    apply (keys_lt_defined ks true ks'); eapply natural_keys_shape; eassumption.
  - apply sorted_returns_or_value_error.
  - destruct (sorted_returns_or_value_error files) as [[r ->]| ->]; reflexivity.
  - apply sorted_plain.
Qed.

(** C4, at a name with a superscript digit between two runs of digits:
    [img1s2.jpg] and [img1s10.jpg], [s] standing for the superscript two
    U+00B2, differ only in the run [2] / [10], yet [natural_keys] raises
    [ValueError] on both ([str.isdigit] accepts the chunk made of the
    superscript, [int] rejects it), and so does the sort. *)
Theorem natural_keys_superscript_chunk :
  let s1 := "img1" +:+ superscript_two +:+ "2.jpg" in
  let s2 := "img1" +:+ superscript_two +:+ "10.jpg" in
  differ_in_run s1 s2 "2" "10"
  /\ re_split s1 = ["img"; "1"; superscript_two; "2"; ".jpg"]
  /\ isdigit superscript_two = true
  /\ int superscript_two = Raise ValueError
  /\ natural_keys s1 = Raise ValueError
  /\ natural_keys s2 = Raise ValueError
  /\ sorted [s2; s1] = Raise ValueError.
Proof.
  cbv zeta. split; [|repeat split].
  exists ("img1" +:+ superscript_two), ".jpg". repeat split.
Qed.

End NatsortFacts.

(** ** The export notebook *)

Module ExportFacts.

Import ExportApi Vocabulary.

Example run_until_created :
  let run := ExportApi.notebook (demo_kernel "configuration" [busy; created]) in
  fst run = Done tt
  /\ k_log (snd run)
     = [EListProjects;
        ERetrieveDataset (JNum 1) "project_id_1.zip" (JStr "ImageNet 1.0") 202;
        EPrint (CR +:+ "Dataset is downloading now..") "";
        ESleep 1;
        ERetrieveDataset (JNum 1) "project_id_1.zip" (JStr "ImageNet 1.0") 201;
        EPrint (LF +:+ "Dataset is downloaded.") LF;
        ESleep 1;
        EMakedirs "./dataset/";
        EMove "/tmp/project_id_1.zip" "./dataset/";
        EPrint "Dataset moved. Download process is completed." LF]
  /\ k_fs (snd run) !! "./dataset/project_id_1.zip" = Some (Fs.File "zip")
  /\ k_fs (snd run) !! "/tmp/project_id_1.zip" = None.
Proof. vm_compute. repeat split. Qed.

Example run_still_polling :
  fst (ExportApi.notebook (demo_kernel "configuration" [busy; busy; busy])) = Polling.
Proof. reflexivity. Qed.

Section Loop.

Variables (id : json) (filename : string) (format : json).

Lemma loop_body_is_iteration r v :
  is_iteration id filename format (response_status r)
    (snd (loop_body id filename format r v)).
Proof.
  unfold is_iteration, loop_body. simpl.
  destruct (not_ready (response_status r)); eauto.
Qed.

Lemma loop_body_vars r v :
  status (fst (loop_body id filename format r v)) = response_status r
  /\ temp_filepath (fst (loop_body id filename format r v)) = data_name r.
Proof. now split. Qed.

Lemma poll_nil v :
  poll id filename format [] v
  = if not_ready (status v) then ([], None, []) else ([], Some v, []).
Proof. reflexivity. Qed.

Lemma poll_cons r server v :
  poll id filename format (r :: server) v
  = if not_ready (status v) then
      let '(v', evs) := loop_body id filename format r v in
      let '(evs', end_, rest) := poll id filename format server v' in
      (evs ++ evs', end_, rest)
    else ([], Some v, r :: server).
Proof. reflexivity. Qed.

Lemma run_bodies_cons r answers v :
  run_bodies id filename format (r :: answers) v
  = let '(v', evs) := loop_body id filename format r v in
    let '(v'', evs') := run_bodies id filename format answers v' in
    (v'', evs ++ evs').
Proof. reflexivity. Qed.

Lemma loop_body_status r v v' evs :
  loop_body id filename format r v = (v', evs) ->
  not_ready (status v') = negb (ready r).
Proof.
  intros Hb. pose proof (loop_body_vars r v) as [Hst _].
  rewrite Hb in Hst. simpl in Hst. rewrite Hst. unfold ready.
  now rewrite negb_involutive.
Qed.

Lemma poll_pending server : forall v,
  not_ready (status v) = true ->
  Forall (fun r => ready r = false) server ->
  poll id filename format server v
  = (snd (run_bodies id filename format server v), None, []).
Proof.
  induction server as [|r server IH]; intros v Hv Hs.
  - now rewrite poll_nil, Hv.
  - rewrite poll_cons, run_bodies_cons, Hv.
    inversion Hs as [|? ? Hr Hs']; subst.
    destruct (loop_body id filename format r v) as [v' evs] eqn:Hb.
    assert (Hv' : not_ready (status v') = true).
    { rewrite (loop_body_status _ _ _ _ Hb), Hr. reflexivity. }
    rewrite (IH v' Hv' Hs').
    now destruct (run_bodies id filename format server v').
Qed.

Lemma poll_until_ready pre : forall r rest v,
  not_ready (status v) = true ->
  Forall (fun r => ready r = false) pre -> ready r = true ->
  poll id filename format (pre ++ r :: rest) v
  = (snd (run_bodies id filename format (pre ++ [r]) v),
     Some (fst (run_bodies id filename format (pre ++ [r]) v)), rest).
Proof.
  induction pre as [|r0 pre IH]; intros r rest v Hv Hp Hr.
  - change (poll id filename format (r :: rest) v
            = ((run_bodies id filename format [r] v).2,
               Some (run_bodies id filename format [r] v).1, rest)).
    rewrite poll_cons, run_bodies_cons, Hv.
    destruct (loop_body id filename format r v) as [v' evs] eqn:Hb.
    assert (Hv' : not_ready (status v') = false).
    { rewrite (loop_body_status _ _ _ _ Hb), Hr. reflexivity. }
    destruct rest; [rewrite poll_nil | rewrite poll_cons]; rewrite Hv'; reflexivity.
  - change (poll id filename format (r0 :: (pre ++ r :: rest)) v
            = ((run_bodies id filename format (r0 :: (pre ++ [r])) v).2,
               Some (run_bodies id filename format (r0 :: (pre ++ [r])) v).1, rest)).
    rewrite poll_cons, run_bodies_cons, Hv.
    inversion Hp as [|? ? Hr0 Hp']; subst.
    destruct (loop_body id filename format r0 v) as [v' evs] eqn:Hb.
    assert (Hv' : not_ready (status v') = true).
    { rewrite (loop_body_status _ _ _ _ Hb), Hr0. reflexivity. }
    rewrite (IH r rest v' Hv' Hp' Hr).
    now destruct (run_bodies id filename format (pre ++ [r]) v').
Qed.

Lemma server_split (server : list reply) :
  Forall (fun r => ready r = false) server
  \/ exists pre r rest,
       server = pre ++ r :: rest
       /\ Forall (fun r => ready r = false) pre /\ ready r = true.
Proof.
  induction server as [|r server IH]; [now left|].
  destruct (ready r) eqn:Hr.
  - right. exists [], r, server. now repeat split.
  - destruct IH as [IH | [pre [r' [rest [-> [Hp Hr']]]]]].
    + left. now constructor.
    + right. exists (r :: pre), r', rest. repeat split; [now constructor | exact Hr'].
Qed.

Lemma run_bodies_iterations answers : forall v,
  exists iterations,
    snd (run_bodies id filename format answers v) = concat iterations
    /\ Forall2 (fun r evs => is_iteration id filename format (response_status r) evs)
         answers iterations.
Proof.
  induction answers as [|r answers IH]; intros v.
  - exists []. split; [reflexivity | constructor].
  - rewrite run_bodies_cons.
    destruct (loop_body id filename format r v) as [v' evs] eqn:Hb.
    destruct (IH v') as [its [Hc Hf]].
    destruct (run_bodies id filename format answers v') as [v'' evs'].
    simpl in *. exists (evs :: its). split.
    + simpl. now rewrite Hc.
    + constructor; [|exact Hf].
      pose proof (loop_body_is_iteration r v) as Hi. now rewrite Hb in Hi.
Qed.

Lemma run_bodies_last pre r v :
  let v' := fst (run_bodies id filename format (pre ++ [r]) v) in
  status v' = response_status r /\ temp_filepath v' = data_name r.
Proof.
  revert v. induction pre as [|r0 pre IH]; intros v.
  - now split.
  - change (run_bodies id filename format ((r0 :: pre) ++ [r]) v)
      with (run_bodies id filename format (r0 :: (pre ++ [r])) v).
    rewrite run_bodies_cons.
    destruct (loop_body id filename format r0 v) as [v1 evs] eqn:Hb.
    specialize (IH v1). simpl in IH.
    now destruct (run_bodies id filename format (pre ++ [r]) v1).
Qed.

Lemma run_bodies_snoc pre r v :
  exists text end_,
    snd (run_bodies id filename format (pre ++ [r]) v)
    = snd (run_bodies id filename format pre v)
      ++ [ERetrieveDataset id filename format (response_status r);
          EPrint text end_; ESleep 1].
Proof.
  revert v. induction pre as [|r0 pre IH]; intros v.
  - simpl. destruct (not_ready (response_status r)); eauto.
  - change (run_bodies id filename format ((r0 :: pre) ++ [r]) v)
      with (run_bodies id filename format (r0 :: (pre ++ [r])) v).
    rewrite !run_bodies_cons.
    destruct (loop_body id filename format r0 v) as [v1 evs] eqn:Hb.
    destruct (IH v1) as [text [end_ Hs]].
    destruct (run_bodies id filename format (pre ++ [r]) v1) as [v2 evs2].
    destruct (run_bodies id filename format pre v1) as [v3 evs3].
    simpl in *. exists text, end_. rewrite Hs. now rewrite app_assoc.
Qed.

Lemma iterations_counts answers iterations :
  Forall2 (fun r evs => is_iteration id filename format (response_status r) evs)
    answers iterations ->
  count is_retrieve (concat iterations) = length answers
  /\ count is_sleep (concat iterations) = length answers
  /\ count is_move (concat iterations) = O.
Proof.
  unfold count. induction 1 as [|r evs answers its [text [end_ ->]] _ IH]; [easy|].
  simpl. destruct IH as [-> [-> ->]]. easy.
Qed.

(** [wt_list[wt_count]] is always within the list. *)
Lemma loop_body_wt_count r v :
  (wt_count v < wt_len)%nat ->
  (wt_count (fst (loop_body id filename format r v)) < wt_len)%nat.
Proof.
  unfold loop_body, wt_len, wt_list. simpl. intros Hv.
  destruct (Nat.eqb_spec (wt_count v) 3); simpl; lia.
Qed.

Lemma run_bodies_wt_count answers : forall v,
  (wt_count v < wt_len)%nat ->
  (wt_count (fst (run_bodies id filename format answers v)) < wt_len)%nat.
Proof.
  induction answers as [|r answers IH]; intros v Hv; [exact Hv|].
  rewrite run_bodies_cons.
  pose proof (loop_body_wt_count r v Hv) as Hb.
  destruct (loop_body id filename format r v) as [v' evs].
  specialize (IH v' Hb).
  now destruct (run_bodies id filename format answers v').
Qed.

Lemma poll_iterations server v :
  exists consumed iterations,
    server = consumed ++ snd (poll id filename format server v)
    /\ fst (fst (poll id filename format server v)) = concat iterations
    /\ Forall2 (fun r evs => is_iteration id filename format (response_status r) evs)
         consumed iterations.
Proof.
  destruct (not_ready (status v)) eqn:Hv.
  - destruct (server_split server) as [Hs | [pre [r [rest [-> [Hp Hr]]]]]].
    + rewrite (poll_pending server v Hv Hs). simpl.
      destruct (run_bodies_iterations server v) as [its [Hc Hf]].
      exists server, its. now rewrite app_nil_r.
    + rewrite (poll_until_ready pre r rest v Hv Hp Hr). simpl.
      destruct (run_bodies_iterations (pre ++ [r]) v) as [its [Hc Hf]].
      exists (pre ++ [r]), its. now rewrite <- app_assoc.
  - exists [], []. destruct server; [rewrite poll_nil | rewrite poll_cons];
      rewrite Hv; repeat split; constructor.
Qed.

End Loop.

Lemma ready_iff r :
  ready r = true <-> response_status r = 200 \/ response_status r = 201.
Proof. unfold ready, not_ready. lia. Qed.

Lemma count_app p l1 l2 : count p (l1 ++ l2) = (count p l1 + count p l2)%nat.
Proof. unfold count. now rewrite List.filter_app, length_app. Qed.

(** The events of [store_dataset]: at most one [os.makedirs], then at most
    one [shutil.move], which nothing but a print follows. *)
Lemma store_dataset_events (k : kernel) (export_dir filename temp_filepath : string) :
  exists mk mv,
    k_log (snd (store_dataset export_dir filename temp_filepath k)) = k_log k ++ mk ++ mv
    /\ (mk = [] \/ mk = [EMakedirs export_dir])
    /\ (mv = [] \/ exists text end_,
           mv = [EMove temp_filepath export_dir]
           \/ mv = [EMove temp_filepath export_dir; EPrint text end_]).
Proof.
  unfold store_dataset, Kernel.bind, get_fs, emit, lift, set_fs, Kernel.ret, Kernel.raise.
  destruct (Fs.exists_ (k_fs k) export_dir) eqn:Hdir; simpl.
  - exists []. destruct (Fs.exists_ (k_fs k) (export_dir +:+ filename)); simpl.
    + exists []. rewrite ?app_nil_r. auto.
    + destruct (Fs.move (k_fs k) temp_filepath export_dir); simpl.
      * eexists. rewrite <- app_assoc. split; [reflexivity|]. split; [auto|].
        right. do 2 eexists. right. reflexivity.
      * eexists. split; [reflexivity|]. split; [auto|].
        right. exists "", "". left. reflexivity.
  - exists [EMakedirs export_dir].
    destruct (Fs.makedirs (k_fs k) export_dir) as [fs1 [e|]]; simpl.
    + exists []. rewrite ?app_nil_r. auto.
    + destruct (Fs.exists_ fs1 (export_dir +:+ filename)); simpl.
      * exists []. rewrite ?app_nil_r. auto.
      * destruct (Fs.move fs1 temp_filepath export_dir); simpl.
        -- eexists. rewrite <- !app_assoc. split; [reflexivity|]. split; [auto|].
           right. do 2 eexists. right. reflexivity.
        -- eexists. rewrite <- !app_assoc. split; [reflexivity|]. split; [auto|].
           right. exists "", "". left. reflexivity.
Qed.

(** The events of the "Download Dataset" cell: the project listing, the
    passes of the loop over the answers it consumed, then the events of
    [store_dataset], which are there only when the last answer consumed
    had status 200 or 201. *)
Ltac trace_side :=
  auto; try discriminate; try congruence; try tauto;
  try match goal with
      | H : is_Some None |- _ => destruct H as [? H]; discriminate H
      end.

Lemma download_dataset_trace `{Libraries} (k : kernel) :
  let run := download_dataset k in
  exists head id filename format answers mk mv,
    k_log (snd run) = k_log k ++ head ++
      snd (run_bodies id filename format answers initial_vars) ++ mk ++ mv
    /\ (head = [] \/ head = [EListProjects])
    /\ (exists rest, k_server k = answers ++ rest)
    /\ (mk = [] \/ exists d, mk = [EMakedirs d])
    /\ (mv = [] \/ exists src dst text end_,
          mv = [EMove src dst] \/ mv = [EMove src dst; EPrint text end_])
    /\ (mk ++ mv <> [] -> exists pre r, answers = pre ++ [r] /\ ready r = true)
    /\ (Forall (fun r => ready r = false) (k_server k) ->
          mk = [] /\ mv = [] /\ (forall a, fst run <> Done a)
          /\ k_fs (snd run) = k_fs k
          /\ (is_Some (k_vars k !! "export_format") ->
              is_Some (k_vars k !! "cvat_project_id") ->
              fst run = Polling /\ answers = k_server k)).
Proof.
  unfold download_dataset, Kernel.bind, getvar, emit, download_loop. simpl.
  destruct (k_vars k !! "export_format") as [format|] eqn:Hf; simpl.
  2: { exists [], JNull, "", JNull, [], [], []. simpl. rewrite ?app_nil_r.
       repeat split; trace_side. now exists (k_server k). }
  destruct (k_vars k !! "cvat_project_id") as [id|] eqn:Hid; simpl.
  2: { exists [EListProjects], JNull, "", JNull, [], [], []. simpl.
       repeat split; trace_side. now exists (k_server k). }
  set (filename := "project_id_" +:+ py_str id +:+ ".zip").
  assert (Hinit : not_ready (status initial_vars) = true) by reflexivity.
  destruct (server_split (k_server k)) as [Hs | [pre [r [rest [Hsplit [Hp Hr]]]]]].
  - rewrite (poll_pending id filename format (k_server k) initial_vars Hinit Hs). simpl.
    exists [EListProjects], id, filename, format, (k_server k), [], [].
    rewrite ?app_nil_r, <- ?app_assoc.
    repeat split; trace_side. exists []. now rewrite app_nil_r.
  - rewrite Hsplit.
    rewrite (poll_until_ready id filename format pre r rest initial_vars Hinit Hp Hr).
    simpl.
    assert (Hnot : ~ Forall (fun r => ready r = false) (pre ++ r :: rest)).
    { intros HF. apply Forall_app in HF as [_ HF]. inversion HF; congruence. }
    assert (Hrest : exists rest0, pre ++ r :: rest = (pre ++ [r]) ++ rest0).
    { exists rest. now rewrite <- app_assoc. }
    destruct (k_vars k !! "export_dir") as [d|] eqn:Hd; simpl.
    2: { exists [EListProjects], id, filename, format, (pre ++ [r]), [], [].
         rewrite ?app_nil_r, <- ?app_assoc. simpl. repeat split; trace_side. }
    unfold as_str.
    destruct d as [| | |export_dir| |];
      try solve [exists [EListProjects], id, filename, format, (pre ++ [r]), [], [];
                 rewrite ?app_nil_r, <- ?app_assoc; simpl; repeat split; trace_side].
    simpl.
    match goal with
    | |- context [store_dataset ?d ?f ?t ?k2] =>
        destruct (store_dataset_events k2 d f t) as [mk [mv [Hlog [Hmk Hmv]]]]
    end.
    exists [EListProjects], id, filename, format, (pre ++ [r]), mk, mv.
    rewrite Hlog. simpl. rewrite <- ?app_assoc. simpl.
    repeat split; trace_side.
    + destruct Hmk as [->| ->]; eauto.
    + destruct Hmv as [->|[text [end_ Hmv]]]; [now left|].
      right. eauto 10.
    + eauto.
Qed.

Lemma no_move_prefix (A : list event) : forall B pre e post,
  count is_move A = O -> is_move e = true ->
  A ++ B = pre ++ e :: post -> exists l, pre = A ++ l /\ B = l ++ e :: post.
Proof.
  induction A as [|a A IH]; intros B pre e post HA He Heq.
  - now exists pre.
  - unfold count in HA. simpl in HA.
    destruct (is_move a) eqn:Ha; [discriminate|].
    destruct pre as [|p pre]; simpl in Heq.
    + injection Heq as -> _. congruence.
    + injection Heq as -> Heq.
      destruct (IH B pre e post HA He Heq) as [l [-> ->]]. now exists l.
Qed.

Lemma run_bodies_counts id filename format answers v :
  let evs := snd (run_bodies id filename format answers v) in
  count is_retrieve evs = length answers
  /\ count is_sleep evs = length answers
  /\ count is_move evs = O.
Proof.
  destruct (run_bodies_iterations id filename format answers v) as [its [Hc Hf]].
  cbv zeta. rewrite Hc. eapply iterations_counts, Hf.
Qed.

(** Whatever precedes a [shutil.move] in the cell ends with a complete pass
    of the loop whose answer had status 200 or 201, followed by nothing but
    the optional [os.makedirs]. *)
Lemma download_dataset_before_move `{Libraries} (k : kernel) pre src dst post :
  k_log (snd (download_dataset k)) = k_log k ++ pre ++ EMove src dst :: post ->
  exists pre' id filename format st text end_ mk,
    pre = pre' ++ [ERetrieveDataset id filename format st; EPrint text end_; ESleep 1] ++ mk
    /\ (st = 200 \/ st = 201)
    /\ (mk = [] \/ exists d, mk = [EMakedirs d]).
Proof.
  destruct (download_dataset_trace k)
    as (head & id & filename & format & answers & mk & mv
        & Hlog & Hhead & _ & Hmk & Hmv & Hlast & _).
  rewrite Hlog. intros Heq. apply app_inv_head in Heq.
  set (L := snd (run_bodies id filename format answers initial_vars)) in *.
  assert (HA : count is_move (head ++ L ++ mk) = O).
  { rewrite !count_app.
    destruct (run_bodies_counts id filename format answers initial_vars) as [_ [_ HL]].
    fold L in HL. rewrite HL.
    destruct Hhead as [->| ->]; destruct Hmk as [->|[d ->]]; reflexivity. }
  rewrite !app_assoc in Heq. rewrite <- (app_assoc head) in Heq.
  destruct (no_move_prefix _ mv pre (EMove src dst) post HA eq_refl Heq)
    as [l [Hpre Hmv']].
  assert (Hl : l = []).
  { destruct Hmv as [->|(s0 & d0 & text & end_ & [->| ->])].
    - destruct l; discriminate.
    - destruct l as [|x [|y l]]; [reflexivity|discriminate|discriminate].
    - destruct l as [|x [|y [|z l]]]; [reflexivity| |discriminate|discriminate].
      now injection Hmv' as _ Hmv'. }
  subst l. rewrite app_nil_r in Hpre. simpl in Hmv'.
  assert (Hne : mk ++ mv <> []).
  { rewrite Hmv'. now destruct mk. }
  destruct (Hlast Hne) as [pre0 [r [-> Hr]]].
  destruct (run_bodies_snoc id filename format pre0 r initial_vars) as [text [end_ Hs]].
  unfold L in Hpre. rewrite Hs in Hpre.
  exists (head ++ snd (run_bodies id filename format pre0 initial_vars)),
    id, filename, format, (response_status r), text, end_, mk.
  split; [|split; [now apply ready_iff | exact Hmk]].
  rewrite Hpre. now rewrite <- !app_assoc.
Qed.

(** C3: the temporary file is moved only after a [retrieve_dataset] call
    has answered 200 or 201.  Every [shutil.move] in the events of the
    cell is preceded by such a call; and while every answer so far has
    another status, the cell is still polling, one call per answer, has
    moved nothing and has left the file system as it was. *)
Theorem move_only_after_success `{Libraries} (k : kernel) :
  let run := download_dataset k in
  exists evs,
    k_log (snd run) = k_log k ++ evs
    /\ (forall pre src dst post,
          evs = pre ++ EMove src dst :: post ->
          exists id filename format st,
            In (ERetrieveDataset id filename format st) pre /\ (st = 200 \/ st = 201))
    /\ (Forall (fun r => ready r = false) (k_server k) ->
          count is_move evs = O
          /\ k_fs (snd run) = k_fs k
          /\ (forall a, fst run <> Done a)
          /\ (is_Some (k_vars k !! "export_format") ->
              is_Some (k_vars k !! "cvat_project_id") ->
              fst run = Polling /\ count is_retrieve evs = length (k_server k))).
Proof.
  cbv zeta.
  destruct (download_dataset_trace k)
    as (head & id & filename & format & answers & mk & mv
        & Hlog & Hhead & _ & _ & _ & _ & Hpending).
  eexists. split; [exact Hlog|]. split.
  - intros pre src dst post Heq.
    rewrite Heq in Hlog.
    destruct (download_dataset_before_move k pre src dst post Hlog)
      as (pre' & id' & fn' & fmt' & st & text & end_ & mk' & -> & Hst & _).
    exists id', fn', fmt', st. split; [|exact Hst].
    apply in_or_app. right. now left.
  - intros Hs. destruct (Hpending Hs) as (-> & -> & Hdone & Hfs & Hbound).
    rewrite !app_nil_r.
    destruct (run_bodies_counts id filename format answers initial_vars)
      as [Hr [_ Hm]].
    split; [|split; [exact Hfs|split; [exact Hdone|]]].
    + rewrite count_app, Hm. now destruct Hhead as [->| ->].
    + intros Hf Hid. destruct (Hbound Hf Hid) as [Hp <-].
      split; [exact Hp|]. rewrite count_app, Hr. now destruct Hhead as [->| ->].
Qed.

(** C7: the loop has a fixed cadence.  One pass, whatever status it is
    answered, is one [retrieve_dataset] call, one print and one
    [time.sleep(1)], in that order; the events of the loop are the passes
    over the answers it consumed, one after the other, so there are as many
    sleeps as calls; and the pass that is answered 200 or 201 has slept
    before [shutil.move] is called. *)
Theorem fixed_retry_cadence `{Libraries} (k : kernel)
    (id : json) (filename : string) (format : json) :
  (forall r v,
     is_iteration id filename format (response_status r)
       (snd (loop_body id filename format r v)))
  /\ (forall server v,
        exists consumed iterations,
          server = consumed ++ snd (poll id filename format server v)
          /\ fst (fst (poll id filename format server v)) = concat iterations
          /\ Forall2 (fun r evs => is_iteration id filename format (response_status r) evs)
               consumed iterations
          /\ count is_retrieve (concat iterations) = length consumed
          /\ count is_sleep (concat iterations) = length consumed)
  /\ (forall pre src dst post,
        k_log (snd (download_dataset k)) = k_log k ++ pre ++ EMove src dst :: post ->
        exists pre' id' filename' format' st text end_ mk,
          pre = pre' ++
                [ERetrieveDataset id' filename' format' st; EPrint text end_; ESleep 1]
                ++ mk
          /\ (st = 200 \/ st = 201)
          /\ count is_retrieve mk = O /\ count is_sleep mk = O).
Proof.
  split; [|split].
  - apply loop_body_is_iteration.
  - intros server v.
    destruct (poll_iterations id filename format server v)
      as (consumed & its & Hsplit & Hevs & Hits).
    exists consumed, its.
    destruct (iterations_counts id filename format consumed its Hits) as (Hr & Hsl & _).
    auto.
  - intros pre src dst post Hlog.
    destruct (download_dataset_before_move k pre src dst post Hlog)
      as (pre' & id' & fn' & fmt' & st & text & end_ & mk & Hpre & Hst & Hmk).
    exists pre', id', fn', fmt', st, text, end_, mk.
    repeat split; auto; destruct Hmk as [->|[d ->]]; reflexivity.
Qed.

(** *** After the loop: the move guard *)

(** [os.mkdir] adds the directory it is asked for, under a name that was
    free, and nothing else. *)
Lemma mkdir_done fs name fs' :
  Fs.mkdir fs name = Ok fs' -> fs !! name = None /\ fs' = <[name := Fs.Dir]> fs.
Proof.
  unfold Fs.mkdir.
  destruct (Fs.has_nul name); [discriminate|].
  destruct (Fs.too_long name); [discriminate|].
  destruct (String.eqb name ""); [discriminate|].
  destruct (Fs.parent_directory fs _ name); [|discriminate].
  destruct (_ || _); [discriminate|].
  destruct (fs !! name) as [[]|]; try discriminate.
  destruct (Fs.always_there name); [discriminate|].
  now intros [= <-].
Qed.

Lemma try_mkdir_extends fs name : extends fs (fst (Fs.try_mkdir fs name)).
Proof.
  unfold Fs.try_mkdir. destruct (Fs.mkdir fs name) as [fs'|e] eqn:Hmk; simpl.
  - apply mkdir_done in Hmk as [Hfree ->]. intros p.
    destruct (decide (p = name)) as [->|Hp].
    + rewrite Hfree, lookup_insert_eq. now right.
    + rewrite lookup_insert_ne by congruence. destruct (fs !! p); auto.
  - intros p. destruct (fs !! p); auto.
Qed.

Lemma extends_trans fs1 fs2 fs3 : extends fs1 fs2 -> extends fs2 fs3 -> extends fs1 fs3.
Proof.
  intros H12 H23 p. specialize (H12 p). specialize (H23 p).
  destruct (fs1 !! p) as [n|].
  - now rewrite H12 in H23.
  - destruct H12 as [E|E]; rewrite E in H23; [exact H23|now right].
Qed.

(** [os.makedirs] changes nothing that is there and adds directories only,
    whether it completes or fails. *)
Lemma makedirs_fuel_extends fuel : forall fs name,
  extends fs (fst (Fs.makedirs_fuel fuel fs name)).
Proof.
  induction fuel as [|fuel IH]; intros fs name; simpl.
  - destruct (_ && _); apply try_mkdir_extends.
  - destruct (_ && _); [|apply try_mkdir_extends].
    specialize (IH fs (Fs.split_head name)).
    destruct (Fs.makedirs_fuel fuel fs _) as [fs1 [e|]]; simpl in IH.
    + destruct e; simpl; trivial.
      destruct (String.eqb _ "."); simpl; [trivial|].
      eapply extends_trans; [exact IH|apply try_mkdir_extends].
    + destruct (String.eqb _ "."); simpl; [trivial|].
      eapply extends_trans; [exact IH|apply try_mkdir_extends].
Qed.

Lemma makedirs_extends fs d : extends fs (fst (Fs.makedirs fs d)).
Proof. apply makedirs_fuel_extends. Qed.

Lemma makedirs_keeps fs d p n :
  fs !! p = Some n -> fst (Fs.makedirs fs d) !! p = Some n.
Proof. intros Hp. pose proof (makedirs_extends fs d p) as H. now rewrite Hp in H. Qed.

Lemma ensure_dir_extends fs d : extends fs (fst (ensure_dir fs d)).
Proof.
  unfold ensure_dir. destruct (negb _); [apply makedirs_extends|].
  intros p. simpl. destruct (fs !! p); auto.
Qed.



End ExportFacts.

(** ** Steps of a cell *)

Module KernelFacts.

Import Vocabulary.

#[local] Arguments Path : simpl never.
#[local] Arguments configuration_path : simpl never.
#[local] Arguments ExportApi.configuration_schema_path : simpl never.
#[local] Arguments Quantize.configuration_schema_path : simpl never.

Lemma bind_done {A B : Type} (m : cell A) (f : A -> cell B) k b k' :
  Kernel.bind m f k = (Done b, k') ->
  exists a k1, m k = (Done a, k1) /\ f a k1 = (Done b, k').
Proof.
  unfold Kernel.bind. destruct (m k) as [[a|e|] k1]; try discriminate. eauto.
Qed.

Lemma bind_raised {A B : Type} (m : cell A) (f : A -> cell B) k e k' :
  m k = (Raised e, k') -> Kernel.bind m f k = (Raised e, k').
Proof. unfold Kernel.bind. now intros ->. Qed.

Lemma bind_step {A B : Type} (m : cell A) (f : A -> cell B) k a k1 :
  m k = (Done a, k1) -> Kernel.bind m f k = f a k1.
Proof. unfold Kernel.bind. now intros ->. Qed.

Lemma assign_done name v k a k1 :
  assign name v k = (Done a, k1) ->
  k_vars k1 = <[name := v]> (k_vars k)
  /\ k_fs k1 = k_fs k /\ k_server k1 = k_server k /\ k_log k1 = k_log k.
Proof. unfold assign. now intros [= _ <-]. Qed.

Lemma validate_symlink_done path k a k1 :
  validate_symlink path k = (Done a, k1) ->
  k1 = k /\ Fs.is_symlink (k_fs k) path = Ok false.
Proof.
  unfold validate_symlink.
  destruct (Fs.is_symlink (k_fs k) path) as [[|]|]; try discriminate.
  now intros [= _ <-].
Qed.

Lemma lift_done {A : Type} (r : result A) k a k1 :
  lift r k = (Done a, k1) -> k1 = k /\ r = Ok a.
Proof. unfold lift. destruct r; [|discriminate]. now intros [= <- <-]. Qed.

Lemma load_json_done `{Libraries} path k doc k1 :
  load_json path k = (Done doc, k1) -> k1 = k /\ loaded k path doc.
Proof.
  unfold load_json, Kernel.bind, get_fs, lift, loaded.
  destruct (Fs.read_text (k_fs k) path) as [text|]; [|discriminate].
  destruct (json_loads text) as [d|] eqn:Hd; [|discriminate].
  intros [= <- <-]. eauto.
Qed.

Lemma loaded_load_json `{Libraries} path k doc :
  loaded k path doc -> load_json path k = (Done doc, k).
Proof.
  intros [text [Ht Hd]]. unfold load_json, Kernel.bind, get_fs, lift.
  now rewrite Ht, Hd.
Qed.

Lemma jsonschema_validate_done `{Libraries} instance schema k a k1 :
  jsonschema_validate instance schema k = (Done a, k1) ->
  k1 = k /\ jsonschema_conforms instance schema = true.
Proof.
  unfold jsonschema_validate.
  destruct (jsonschema_conforms instance schema); [|discriminate].
  now intros [= _ <-].
Qed.

Lemma path_setting_done `{Libraries} app_configuration name k a k1 :
  Quantize.path_setting app_configuration name k = (Done a, k1) ->
  exists p,
    Fs.is_symlink (k_fs k) (Path p) = Ok false
    /\ k_vars k1 = <[name := JStr p]> (k_vars k)
    /\ k_fs k1 = k_fs k /\ k_server k1 = k_server k /\ k_log k1 = k_log k.
Proof.
  unfold Quantize.path_setting, Kernel.bind, lift, assign, validate_symlink.
  destruct (getitem app_configuration name) as [v|]; [|discriminate].
  destruct (replace_sep v) as [p|]; [|discriminate]. simpl.
  destruct (Fs.is_symlink (k_fs k) (Path p)) as [[|]|] eqn:Hp; try discriminate.
  intros [= _ <-]. exists p. auto.
Qed.

Lemma int_setting_done `{Libraries} app_configuration name k a k1 :
  Quantize.int_setting app_configuration name k = (Done a, k1) ->
  exists n,
    k_vars k1 = <[name := JNum n]> (k_vars k)
    /\ k_fs k1 = k_fs k /\ k_server k1 = k_server k /\ k_log k1 = k_log k.
Proof.
  unfold Quantize.int_setting, Kernel.bind, lift, assign.
  destruct (getitem app_configuration name) as [v|]; [|discriminate].
  destruct (py_int v) as [n|]; [|discriminate].
  intros [= _ <-]. exists n. auto.
Qed.

(** Takes a completed run of a cell apart, step by step. *)
Ltac cell_inv H :=
  lazymatch type of H with
  | Kernel.bind _ _ _ = (Done _, _) =>
      let a := fresh "a" in
      let k1 := fresh "k" in
      let H1 := fresh "Hs" in
      let H2 := fresh "Hs" in
      apply bind_done in H as (a & k1 & H1 & H2);
      cbv beta in H2; cell_inv H1; cell_inv H2
  | assign _ _ _ = (Done _, _) =>
      let E1 := fresh "Hfs" in
      let E2 := fresh "Hsrv" in
      let E3 := fresh "Hlog" in
      apply assign_done in H as (H & E1 & E2 & E3)
  | validate_symlink _ _ = (Done _, _) =>
      let E := fresh "E" in
      apply validate_symlink_done in H as [E H]; subst
  | lift _ _ = (Done _, _) =>
      let E := fresh "E" in
      apply lift_done in H as [E H]; subst
  | load_json _ _ = (Done _, _) =>
      let E := fresh "E" in
      apply load_json_done in H as [E H]; subst
  | jsonschema_validate _ _ _ = (Done _, _) =>
      let E := fresh "E" in
      apply jsonschema_validate_done in H as [E H]; subst
  | Quantize.path_setting _ _ _ = (Done _, _) =>
      let p := fresh "p" in
      let E := fresh "Hlink" in
      let E1 := fresh "Hfs" in
      let E2 := fresh "Hsrv" in
      let E3 := fresh "Hlog" in
      apply path_setting_done in H as (p & E & H & E1 & E2 & E3)
  | Quantize.int_setting _ _ _ = (Done _, _) =>
      let n := fresh "n" in
      let E1 := fresh "Hfs" in
      let E2 := fresh "Hsrv" in
      let E3 := fresh "Hlog" in
      apply int_setting_done in H as (n & H & E1 & E2 & E3)
  | _ => idtac
  end.

(** Brings every fact about the file system back to the initial kernel. *)
Ltac same_fs :=
  repeat match goal with
         | E : k_fs ?a = k_fs ?b |- _ => rewrite E in *; clear E
         end.

Ltac same_log :=
  repeat match goal with
         | E : k_log ?a = k_log ?b |- _ => rewrite E in *; clear E
         end.

Ltac see_vars :=
  repeat match goal with
         | E : k_vars ?a = _ |- context [k_vars ?a] => rewrite E
         end.

Lemma export_configuration_done `{Libraries} k k' :
  ExportApi.load_configurations k = (Done tt, k') ->
  k_fs k' = k_fs k /\ k_log k' = k_log k
  /\ Fs.is_symlink (k_fs k) configuration_path = Ok false
  /\ Fs.is_symlink (k_fs k) ExportApi.configuration_schema_path = Ok false
  /\ guarded k' "export_dir"
  /\ exists app_configuration json_schema,
       loaded k configuration_path app_configuration
       /\ loaded k ExportApi.configuration_schema_path json_schema
       /\ jsonschema_conforms app_configuration json_schema = true.
Proof.
  intros Hrun. unfold ExportApi.load_configurations in Hrun. cbv zeta in Hrun.
  cell_inv Hrun. unfold guarded, loaded in *.
  same_log. same_fs. repeat split; trivial.
  - eexists. split; [see_vars; apply lookup_insert_eq | assumption].
  - eauto.
Qed.

Lemma quantize_configuration_done `{Libraries} k k' :
  Quantize.load_configurations k = (Done tt, k') ->
  k_fs k' = k_fs k /\ k_log k' = k_log k
  /\ Fs.is_symlink (k_fs k) configuration_path = Ok false
  /\ Fs.is_symlink (k_fs k) Quantize.configuration_schema_path = Ok false
  /\ Forall (guarded k')
       ["source_keras_model"; "dataset_image_dir"; "output_dir";
        "evaluate_image_dir"; "evaluate_label_file"; "evaluate_result_dir"]
  /\ exists app_configuration json_schema,
       loaded k configuration_path app_configuration
       /\ loaded k Quantize.configuration_schema_path json_schema
       /\ jsonschema_conforms app_configuration json_schema = true.
Proof.
  intros Hrun. unfold Quantize.load_configurations in Hrun. cbv zeta in Hrun.
  cell_inv Hrun. unfold guarded, loaded in *.
  same_log. same_fs. repeat split; trivial.
  - repeat constructor;
      (eexists; split; [see_vars; simplify_map_eq; reflexivity | assumption]).
  - eauto.
Qed.

(** What [Path.is_symlink] answers, in terms of [os.lstat]. *)
Lemma is_symlink_cases fs p :
  match Fs.is_symlink fs p with
  | Ok true => exists target, Fs.lstat fs p = Ok (Fs.Symlink target)
  | Ok false =>
      (exists n, Fs.lstat fs p = Ok n /\ forall target, n <> Fs.Symlink target)
      \/ Fs.lstat fs p = Raise ValueError
      \/ Fs.lstat fs p = Raise (FileNotFoundError p)
      \/ exists errno strerror,
           Fs.lstat fs p = Raise (OSError errno strerror p)
           /\ Fs.ignore_error errno = true
  | Raise e =>
      Fs.lstat fs p = Raise e
      /\ exists errno strerror,
           e = OSError errno strerror p /\ Fs.ignore_error errno = false
  end.
Proof.
  unfold Fs.is_symlink, Fs.lstat.
  destruct (Fs.has_nul p); [auto|].
  destruct (Fs.too_long p).
  { simpl. split; [reflexivity|]. eauto. }
  destruct (fs !! p) as [[c| |target|errno strerror]|];
    [| | | |destruct (Fs.always_there p)]; simpl; eauto;
    try solve [left; eexists; split; [reflexivity|]; discriminate].
  destruct (Fs.ignore_error errno) eqn:Hig; eauto 10.
Qed.


(** C1, where the claim goes too far: a name of 300 characters is in no
    file system and so is no symbolic link, yet [validate_symlink] does not
    return normally on it: [os.lstat] fails with [ENAMETOOLONG], which
    [Path.is_symlink] lets through. *)
Lemma validate_symlink_refuses_long_name :
  let k := {| k_fs := ∅; k_vars := ∅; k_server := []; k_log := [] |} in
  k_fs k !! long_name = None
  /\ (forall target, Fs.lstat (k_fs k) long_name <> Ok (Fs.Symlink target))
  /\ fst (validate_symlink long_name k)
     = Raised (OSError Fs.ENAMETOOLONG "File name too long" long_name)
  /\ fst (validate_symlink long_name k) <> Done tt.
Proof.
  cbv zeta. split; [reflexivity|]. split; [|split].
  - intros target. vm_compute. discriminate.
  - vm_compute. reflexivity.
  - vm_compute. discriminate.
Qed.

(** *** A configuration that fails its schema *)

(** A file that can be read can be examined by [os.lstat]. *)
Lemma is_symlink_readable fs p text :
  Fs.read_text fs p = Ok text ->
  Fs.has_nul p = false -> Fs.too_long p = false ->
  exists b, Fs.is_symlink fs p = Ok b.
Proof.
  unfold Fs.read_text, Fs.is_symlink, Fs.lstat, Fs.stat. simpl.
  intros Hread -> ->.
  destruct (fs !! p) as [[c| |target|errno strerror]|];
    [| | | |destruct (Fs.always_there p)]; simpl in *; eauto; discriminate.
Qed.

Ltac same_vars :=
  split; [ intros name Hin; simpl in Hin; simpl;
           repeat (destruct Hin as [<-|Hin]; [now rewrite ?lookup_insert_ne by done|]);
           contradiction
         | intros name Hne; simpl in Hne; unfold loader_variables; simpl;
           destruct (decide (name = "configuration_path")) as [->|]; [tauto|];
           destruct (decide (name = "app_configuration")) as [->|]; [tauto|];
           destruct (decide (name = "configuration_schema_path")) as [->|]; [tauto|];
           destruct (decide (name = "json_schema")) as [->|]; [tauto|];
           rewrite ?lookup_insert_ne in Hne by congruence; congruence ].

Lemma export_invalid `{Libraries} k app_configuration json_schema :
  loaded k configuration_path app_configuration ->
  loaded k ExportApi.configuration_schema_path json_schema ->
  jsonschema_conforms app_configuration json_schema = false ->
  aborted ExportApi.notebook ExportApi.configuration_variables k.
Proof.
  intros [t1 [Ht1 Hd1]] [t2 [Ht2 Hd2]] Hc.
  unfold aborted, ExportApi.notebook, ExportApi.load_configurations,
    load_json, jsonschema_validate, validate_symlink, Kernel.bind, assign,
    get_fs, lift, Kernel.ret, Kernel.raise.
  simpl.
  destruct (is_symlink_readable _ _ _ Ht1 eq_refl eq_refl) as [[|] ->]; simpl.
  { eexists. split; [reflexivity|]. split; [eauto|]. do 3 (split; [reflexivity|]). same_vars. }
  rewrite Ht1, Hd1. simpl.
  destruct (is_symlink_readable _ _ _ Ht2 eq_refl eq_refl) as [[|] ->]; simpl.
  { eexists. split; [reflexivity|]. split; [eauto|]. do 3 (split; [reflexivity|]). same_vars. }
  rewrite Ht2, Hd2, Hc. simpl.
  eexists. split; [reflexivity|]. split; [eauto|]. do 3 (split; [reflexivity|]). same_vars.
Qed.

Lemma quantize_invalid `{Libraries} k app_configuration json_schema :
  loaded k configuration_path app_configuration ->
  loaded k Quantize.configuration_schema_path json_schema ->
  jsonschema_conforms app_configuration json_schema = false ->
  aborted Quantize.notebook Quantize.configuration_variables k.
Proof.
  intros [t1 [Ht1 Hd1]] [t2 [Ht2 Hd2]] Hc.
  unfold aborted, Quantize.notebook, Quantize.load_configurations,
    load_json, jsonschema_validate, validate_symlink, Kernel.bind, assign,
    get_fs, lift, Kernel.ret, Kernel.raise.
  simpl.
  destruct (is_symlink_readable _ _ _ Ht1 eq_refl eq_refl) as [[|] ->]; simpl.
  { eexists. split; [reflexivity|]. split; [eauto|]. do 3 (split; [reflexivity|]). same_vars. }
  rewrite Ht1, Hd1. simpl.
  destruct (is_symlink_readable _ _ _ Ht2 eq_refl eq_refl) as [[|] ->]; simpl.
  { eexists. split; [reflexivity|]. split; [eauto|]. do 3 (split; [reflexivity|]). same_vars. }
  rewrite Ht2, Hd2, Hc. simpl.
  eexists. split; [reflexivity|]. split; [eauto|]. do 3 (split; [reflexivity|]). same_vars.
Qed.

(** C5: in both notebooks [jsonschema.validate] runs before any value is
    taken out of the configuration.  When the loaded configuration does not
    conform to the loaded schema, the run stops with an exception in the
    configuration cell: none of the configuration variables is assigned,
    nothing is printed and no download, quantization, conversion or
    evaluation call is made.  A configuration cell that completes has passed
    the schema check. *)
Theorem schema_checked_before_extraction `{Libraries}
    (k : kernel) (app_configuration : json) :
  loaded k configuration_path app_configuration ->
  (forall json_schema,
     loaded k ExportApi.configuration_schema_path json_schema ->
     jsonschema_conforms app_configuration json_schema = false ->
     aborted ExportApi.notebook ExportApi.configuration_variables k)
  /\ (forall json_schema,
        loaded k Quantize.configuration_schema_path json_schema ->
        jsonschema_conforms app_configuration json_schema = false ->
        aborted Quantize.notebook Quantize.configuration_variables k)
  /\ (forall k', ExportApi.load_configurations k = (Done tt, k') ->
        exists cfg json_schema,
          loaded k configuration_path cfg
          /\ loaded k ExportApi.configuration_schema_path json_schema
          /\ jsonschema_conforms cfg json_schema = true)
  /\ (forall k', Quantize.load_configurations k = (Done tt, k') ->
        exists cfg json_schema,
          loaded k configuration_path cfg
          /\ loaded k Quantize.configuration_schema_path json_schema
          /\ jsonschema_conforms cfg json_schema = true).
Proof.
  intros Hcfg. split; [|split; [|split]].
  - intros json_schema Hs Hc. eapply export_invalid; eassumption.
  - intros json_schema Hs Hc. eapply quantize_invalid; eassumption.
  - intros k' Hrun. apply export_configuration_done in Hrun. tauto.
  - intros k' Hrun. apply quantize_configuration_done in Hrun. tauto.
Qed.

Lemma schema_checked_before_extraction_witness :
  aborted ExportApi.notebook ExportApi.configuration_variables (demo_kernel "empty" [created])
  /\ aborted Quantize.notebook Quantize.configuration_variables (demo_kernel "empty" []).
Proof.
  assert (Hcfg : forall server,
            loaded (demo_kernel "empty" server) configuration_path (JObj [])).
  { intros server. exists "empty". split; vm_compute; reflexivity. }
  split.
  - refine (proj1 (schema_checked_before_extraction
                     (demo_kernel "empty" [created]) (JObj []) (Hcfg _))
              (JObj []) _ eq_refl).
    exists "schema". split; vm_compute; reflexivity.
  - refine (proj1 (proj2 (schema_checked_before_extraction
                            (demo_kernel "empty" []) (JObj []) (Hcfg _)))
              (JObj []) _ eq_refl).
    exists "schema". split; vm_compute; reflexivity.
Defined.

End KernelFacts.

(** ** Calibration preprocessing *)

Module PreprocessFacts.

Import Preprocess.

Local Open Scope Q_scope.

Lemma exact_relative_error : relative_error exact.
Proof.
  intros x. unfold exact.
  assert (E : x - x == 0) by ring. rewrite E. simpl.
  apply Qmult_le_0_compat; [discriminate | apply Qabs_nonneg].
Qed.

Lemma exact_monotone : monotone exact.
Proof. intros x y Hxy. exact Hxy. Qed.

Lemma exact_exact_on_halves : exact_on_halves exact.
Proof. intros n _. reflexivity. Qed.

Lemma u64_small :
  0 < 1 - u64 /\
  511 # 2 <= 256 * ((1 - u64) * (1 - u64) * (1 - u64) * (1 - u64)).
Proof. split; vm_compute; [reflexivity | discriminate]. Qed.

Section Rounding.

Variable fl : Q -> Q.
Hypothesis fl_relative : relative_error fl.

Lemma fl_lower x : 0 <= x -> x * (1 - u64) <= fl x.
Proof.
  intros Hx. pose proof (fl_relative x) as H.
  apply Qabs_Qle_condition in H. rewrite (Qabs_pos x Hx) in H. lra.
Qed.

Lemma fl_upper x : 0 <= x -> fl x <= x * (1 + u64).
Proof.
  intros Hx. pose proof (fl_relative x) as H.
  apply Qabs_Qle_condition in H. rewrite (Qabs_pos x Hx) in H. lra.
Qed.

Lemma fl_negative x : x <= 0 -> fl x <= 0.
Proof.
  intros Hx. pose proof (fl_relative x) as H.
  apply Qabs_Qle_condition in H. rewrite (Qabs_neg x Hx) in H.
  assert (Hu : 0 < 1 - u64) by apply u64_small.
  assert (Hu' : 0 < u64 /\ u64 <= 1 # 1000) by (split; vm_compute; [reflexivity | discriminate]).
  nra.
Qed.

Lemma div_mul (a d : Q) : ~ d == 0 -> a / d * d == a.
Proof. intros Hd. field. exact Hd. Qed.

(** [RESIZE_SCALE >= 1] means [1 <= input_tensor_size <= 256], and then
    [RESIZE_SCALE * SIZE] is 256 up to one rounding. *)
Lemma size_bounds (input_tensor_size : Z) (rs : Q) :
  RESIZE_SCALE fl input_tensor_size = Ok rs -> 1 <= rs ->
  (1 <= input_tensor_size <= 256)%Z
  /\ 256 * (1 - u64) <= rs * inject_Z input_tensor_size.
Proof.
  unfold RESIZE_SCALE. destruct (Z.eqb_spec input_tensor_size 0) as [|Hne]; [discriminate|].
  intros [= <-] Hrs.
  set (S := inject_Z input_tensor_size) in *.
  set (q := 256 / S) in *.
  assert (HS0 : ~ S == 0).
  { unfold S. intros E. apply Hne. apply (inject_Z_injective _ 0%Z). exact E. }
  assert (Hq : q * S == 256) by (unfold q; apply div_mul, HS0).
  assert (Hu : 0 < 1 - u64) by apply u64_small.
  assert (Hu' : 0 < u64 /\ u64 <= 1 # 1000) by (split; vm_compute; [reflexivity | discriminate]).
  assert (Hpos : (0 < input_tensor_size)%Z).
  { destruct (Z_lt_le_dec 0 input_tensor_size) as [|Hle]; [assumption|exfalso].
    assert (HS : S < 0).
    { unfold S, Qlt. simpl. lia. }
    assert (Hqneg : q <= 0) by nra.
    pose proof (fl_negative q Hqneg). lra. }
  assert (HS : 0 < S) by (unfold S, Qlt; simpl; lia).
  assert (Hq0 : 0 <= q) by nra.
  pose proof (fl_lower q Hq0) as Hlo. pose proof (fl_upper q Hq0) as Hup.
  split; [split; [lia|]|].
  - destruct (Z_le_gt_dec input_tensor_size 256) as [|Hgt]; [assumption|exfalso].
    assert (HS' : 257 <= S).
    { unfold S, Qle. simpl. lia. }
    assert (H1 : 1 <= q * (1 + u64)) by lra.
    assert (H2 : S <= q * (1 + u64) * S) by nra.
    assert (H3 : q * (1 + u64) * S == 256 * (1 + u64)) by (rewrite <- Hq; ring).
    rewrite H3 in H2. lra.
  - assert (H1 : q * (1 - u64) * S <= fl q * S) by nra.
    assert (H2 : q * (1 - u64) * S == 256 * (1 - u64)) by (rewrite <- Hq; ring).
    rewrite H2 in H1. exact H1.
Qed.

(** One dimension [d] of the image: the side computed from it, multiplied
    back by [d] and rounded, is at least 255.5. *)
Lemma tag_lower (rs S d side : Q) :
  256 * (1 - u64) <= rs * S -> 0 < d ->
  fl (fl (rs * S) / d) <= side ->
  511 # 2 <= fl (side * d).
Proof.
  intros Hp Hd Hside.
  destruct u64_small as [Hu Hc].
  set (c := 1 - u64) in *.
  assert (Hc0 : 0 <= 256 * c) by nra.
  assert (Hp0 : 0 <= rs * S) by lra.
  pose proof (fl_lower (rs * S) Hp0) as Hnum. fold c in Hnum.
  set (num := fl (rs * S)) in *.
  assert (Hnum' : 256 * (c * c) <= num) by nra.
  assert (Hnum0 : 0 <= num) by nra.
  assert (Hd0 : ~ d == 0) by lra.
  pose proof (div_mul num d Hd0) as Hdm.
  assert (Hquot : 0 <= num / d).
  { assert (0 <= num / d * d) by lra.
    destruct (Qlt_le_dec (num / d) 0) as [Hneg|]; [exfalso; nra | assumption]. }
  pose proof (fl_lower (num / d) Hquot) as Ha. fold c in Ha.
  set (a := fl (num / d)) in *.
  assert (Had : num * c <= a * d) by nra.
  assert (Hsd : a * d <= side * d) by nra.
  assert (Ht : 256 * (c * c * c) <= side * d) by nra.
  assert (Ht0 : 0 <= side * d) by nra.
  pose proof (fl_lower (side * d) Ht0) as Hfl. fold c in Hfl.
  assert (256 * (c * c * c * c) <= fl (side * d)) by nra.
  lra.
Qed.

End Rounding.

Lemma np_round_from_half x : 511 # 2 <= x -> (256 <= np_round x)%Z.
Proof.
  intros Hx. unfold np_round.
  pose proof (Qfloor_resp_le _ _ Hx) as Hf.
  change (Qfloor (511 # 2)) with 255%Z in Hf.
  pose proof (Qfloor_le x) as Hle. pose proof (Qlt_floor x) as Hlt.
  set (f := Qfloor x) in *.
  destruct (Qcompare_spec (x - inject_Z f) (1 # 2)) as [E|L|G].
  - destruct (Z.even f) eqn:Hev; [|lia].
    destruct (Z.eq_dec f 255%Z) as [E'|]; [rewrite E' in Hev; discriminate|lia].
  - assert (H : 255 < inject_Z f) by lra.
    unfold Qlt in H. simpl in H. lia.
  - lia.
Qed.

Lemma py_max_l a b : a <= py_max a b.
Proof.
  unfold py_max. destruct (Qle_bool b a) eqn:E; [apply Qle_refl|].
  destruct (Qlt_le_dec a b) as [Hlt|Hle]; [now apply Qlt_le_weak|].
  apply Qle_bool_iff in Hle. congruence.
Qed.

Lemma py_max_r a b : b <= py_max a b.
Proof.
  unfold py_max. destruct (Qle_bool b a) eqn:E; [|apply Qle_refl].
  now apply Qle_bool_iff.
Qed.

(** A window of [SIZE] indices cut out of an axis that is long enough, at
    the offset [resize] computes: it fits, and it is centred. *)
Lemma centred_window (tag SIZE : Z) :
  (0 <= SIZE <= tag)%Z ->
  let o := offset tag SIZE in
  slice_start tag o = o
  /\ slice_length tag o (o + SIZE) = SIZE
  /\ (0 <= o)%Z /\ (o + SIZE <= tag)%Z
  /\ (0 <= (tag - SIZE - o) - o <= 1)%Z.
Proof.
  intros H. cbv zeta. unfold offset.
  rewrite Z.quot_div_nonneg by lia.
  pose proof (Z.div_mod (tag - SIZE) 2 ltac:(lia)) as Hdm.
  pose proof (Z.mod_pos_bound (tag - SIZE) 2 ltac:(lia)) as Hm.
  set (o := ((tag - SIZE) / 2)%Z) in *.
  assert (Ho : (0 <= o)%Z) by (apply Z.div_pos; lia).
  unfold slice_start, slice_length, slice_bound.
  destruct (Z.ltb_spec o 0); [lia|].
  destruct (Z.ltb_spec (o + SIZE) 0); [lia|].
  repeat split; lia.
Qed.

Lemma inject_Z_pos (z : Z) : (0 < z)%Z -> 0 < inject_Z z.
Proof. intros Hz. unfold Qlt. simpl. lia. Qed.



Example resize_480_by_640 :
  let x := {| height := 480; width := 640; pix := fun _ _ => 0 |} in
  height_tag exact (256 # 480) x = 256%Z
  /\ width_tag exact (256 # 480) x = 341%Z
  /\ offset 256 224 = 16%Z /\ offset 341 224 = 58%Z.
Proof. vm_compute. repeat split. Qed.

(** *** Normalization *)

Lemma monotone_compat fl : monotone fl -> forall x y, x == y -> fl x == fl y.
Proof.
  intros Hm x y E. apply Qle_antisym; apply Hm; rewrite E; apply Qle_refl.
Qed.

(** C8: [normalization] computes [(x - MEAN) / STD] with
    [MEAN = STD = 127.5]; every value between 0 and 255 is sent between -1
    and 1, with 0 sent to -1, 127.5 to 0 and 255 to 1.  In exact arithmetic
    the result is [(x - 127.5) / 127.5] itself. *)
Theorem normalization_range (fl : Q -> Q) :
  monotone fl -> exact_on_halves fl ->
  MEAN == 1275 # 10 /\ STD == 1275 # 10
  /\ (forall x, normalization fl x = fl (fl (x - MEAN) / STD))
  /\ (forall x, normalization exact x == (x - (1275 # 10)) / (1275 # 10))
  /\ (forall x, 0 <= x <= 255 -> -1 <= normalization fl x <= 1)
  /\ normalization fl 0 == -1
  /\ normalization fl (1275 # 10) == 0
  /\ normalization fl 255 == 1.
Proof.
  intros Hm He.
  pose proof (monotone_compat fl Hm) as Hc.
  assert (Hlo : fl (-255 # 2) == -255 # 2) by (apply (He (-255)%Z); vm_compute; discriminate).
  assert (Hhi : fl (255 # 2) == 255 # 2) by (apply (He 255%Z); vm_compute; discriminate).
  assert (Hm1 : fl (-1) == -1).
  { rewrite (Hc (-1) (-2 # 2)) by reflexivity.
    rewrite (He (-2)%Z) by (vm_compute; discriminate). reflexivity. }
  assert (Hp1 : fl 1 == 1).
  { rewrite (Hc 1 (2 # 2)) by reflexivity.
    rewrite (He 2%Z) by (vm_compute; discriminate). reflexivity. }
  assert (H0 : fl 0 == 0).
  { rewrite (Hc 0 (0 # 2)) by reflexivity.
    rewrite (He 0%Z) by (vm_compute; discriminate). reflexivity. }
  assert (Hdiv : forall y, y / STD == y * (2 # 255)) by (intros y; reflexivity).
  assert (Hval : forall x v w,
            x - MEAN == v -> fl v == v -> v / STD == w -> fl w == w ->
            normalization fl x == w).
  { intros x v w E1 E2 E3 E4. unfold normalization.
    rewrite (Hc (fl (x - MEAN) / STD) w); [exact E4|].
    rewrite (Hc (x - MEAN) v E1), E2. exact E3. }
  split; [reflexivity|]. split; [reflexivity|].
  split; [reflexivity|].
  split; [intros x; unfold normalization, exact, MEAN, STD; field|].
  split; [|split; [|split]].
  - intros x [Hx0 Hx1]. unfold normalization.
    assert (Hy : -255 # 2 <= fl (x - MEAN) <= 255 # 2).
    { split.
      - rewrite <- Hlo. apply Hm. unfold MEAN. lra.
      - rewrite <- Hhi. apply Hm. unfold MEAN. lra. }
    split.
    + rewrite <- Hm1. apply Hm. rewrite Hdiv. lra.
    + rewrite <- Hp1. apply Hm. rewrite Hdiv. lra.
  - apply (Hval 0 (-255 # 2) (-1)); [reflexivity | exact Hlo | reflexivity | exact Hm1].
  - apply (Hval (1275 # 10) 0 0); [reflexivity | exact H0 | reflexivity | exact H0].
  - apply (Hval 255 (255 # 2) 1); [reflexivity | exact Hhi | reflexivity | exact Hp1].
Qed.

Lemma normalization_range_witness :
  normalization exact 0 == -1 /\ normalization exact 255 == 1
  /\ -1 <= normalization exact 100 <= 1.
Proof.
  destruct (normalization_range exact exact_monotone exact_exact_on_halves)
    as (_ & _ & _ & _ & Hr & H0 & _ & H255).
  split; [exact H0|]. split; [exact H255|].
  apply Hr. split; vm_compute; discriminate.
Defined.

End PreprocessFacts.

(** ** Top-1 accuracy *)

Module EvaluateFacts.

Import Preprocess Evaluate.

Local Open Scope Q_scope.

Example np_argmax_first_maximum : np_argmax [1 # 2; 3; 3; 2] = Ok 1%Z.
Proof. reflexivity. Qed.

Example evaluate_nothing fl interpreter ground_truth_ids :
  evaluate_tflite_model fl interpreter ground_truth_ids [] = Raise ZeroDivisionError.
Proof. reflexivity. Qed.

Section Model.

Variable interpreter : string -> list Q.
Variable ground_truth_ids : list Z.

Lemma predict_all images :
  (forall image, In image images -> interpreter (path image) <> []) ->
  exists predictions,
    comprehension (predict interpreter) images = Ok predictions
    /\ Forall2 (fun image p => np_argmax (interpreter (path image)) = Ok (top p))
         images predictions.
Proof.
  induction images as [|image images IH]; intros Hout.
  - exists []. split; [reflexivity | constructor].
  - destruct IH as [ps [Hps Hf]]; [intros i Hi; apply Hout; now right|].
    assert (Hne : interpreter (path image) <> []) by (apply Hout; now left).
    destruct (np_argmax (interpreter (path image))) as [t|e] eqn:Ht.
    2: { unfold np_argmax in Ht. destruct (interpreter (path image)); congruence. }
    exists ({| pred_imageID := imageID image; top := t |} :: ps). split.
    + simpl. unfold predict at 1. rewrite Ht. simpl. now rewrite Hps.
    + constructor; [exact Ht | exact Hf].
Qed.

Lemma count_accurate_hits images : forall predictions seen accurate_count,
  Forall2 (fun image p => np_argmax (interpreter (path image)) = Ok (top p))
    images predictions ->
  (length seen + length images <= length ground_truth_ids)%nat ->
  count_accurate ground_truth_ids predictions (length seen) accurate_count
  = Ok (accurate_count
        + Z.of_nat (length (filter (fun index =>
                                      hit interpreter ground_truth_ids (seen ++ images) index = true)
                              (seq (length seen) (length images)))))%Z.
Proof.
  induction images as [|image images IH]; intros predictions seen acc Hf Hlen.
  - inversion Hf; subst. simpl. f_equal. lia.
  - inversion Hf as [|? p ? ps Hp Hf']; subst. simpl in Hlen.
    destruct (lookup_lt_is_Some_2 ground_truth_ids (length seen) ltac:(lia)) as [id Hid].
    simpl count_accurate. rewrite Hid.
    specialize (IH ps (seen ++ [image])
                  (if (top p =? id)%Z then (acc + 1)%Z else acc) Hf').
    rewrite length_app in IH. simpl in IH.
    replace (length seen + 1)%nat with (S (length seen)) in IH by lia.
    rewrite <- app_assoc in IH. simpl in IH.
    rewrite IH by lia.
    simpl seq. rewrite filter_cons.
    assert (Hhit : hit interpreter ground_truth_ids (seen ++ image :: images) (length seen)
                   = (top p =? id)%Z).
    { unfold hit. rewrite lookup_app_r by lia. rewrite Nat.sub_diag. simpl.
      now rewrite Hid, Hp. }
    rewrite Hhit. f_equal.
    destruct (top p =? id)%Z; simpl; lia.
Qed.

Lemma hits_le images : (hits interpreter ground_truth_ids images <= length images)%nat.
Proof.
  unfold hits. etransitivity; [apply length_filter|]. now rewrite length_seq.
Qed.

End Model.



End EvaluateFacts.

(** ** Paths and the enumeration of test images *)

Module EnumerateFacts.

Import Evaluate Enumerate.

Example basename_of_file : Fs.basename "a/b/c.jpg" = "c.jpg".
Proof. reflexivity. Qed.

Example basename_of_directory : Fs.basename "a/b/" = "".
Proof. reflexivity. Qed.

Example dirname_of_file : Fs.dirname "a/b/c.jpg" = "a/b".
Proof. reflexivity. Qed.

Example dirname_double_slash : Fs.dirname "a//c.jpg" = "a".
Proof. reflexivity. Qed.

Example dirname_root : Fs.dirname "/c.jpg" = "/".
Proof. reflexivity. Qed.

Example label_of_file : Fs.basename (Fs.dirname "data/cat/img_12.jpeg") = "cat".
Proof. reflexivity. Qed.

Example path_of_configuration : Path "./configuration.json" = "configuration.json".
Proof. reflexivity. Qed.

Example path_of_directory : Path "./dataset/" = "dataset".
Proof. reflexivity. Qed.

Example path_normalisation :
  Path "" = "." /\ Path "./" = "." /\ Path "a//b/" = "a/b" /\ Path "a/./b" = "a/b"
  /\ Path "a/../b" = "a/../b" /\ Path "/" = "/" /\ Path "//a" = "//a"
  /\ Path "///a" = "/a" /\ Path "//" = "//" /\ Path "/./a" = "/a".
Proof. repeat split. Qed.

Example join_plain : Fs.join "a" "b" = "a/b" /\ Fs.join "a/" "b" = "a/b"
                     /\ Fs.join "" "b" = "b" /\ Fs.join "a" "/b" = "/b".
Proof. repeat split. Qed.

Section Cell.

Variable glob : string -> list string.
Variable labels : json.
Variables (evaluate_image_extension evaluate_label_file : string).

Lemma add_files_lengths files : forall test_images ground_truth_ids test_images' ids',
  add_files labels evaluate_label_file files test_images ground_truth_ids
  = Ok (test_images', ids') ->
  map path test_images' = map path test_images ++ files
  /\ (length ids' = length ground_truth_ids + length files)%nat.
Proof.
  induction files as [|file files IH]; intros ti gt ti' gt' Hrun; simpl in Hrun.
  - injection Hrun as <- <-. rewrite app_nil_r. split; [reflexivity | simpl; lia].
  - destruct (contains labels _) as [[|]|]; try discriminate.
    destruct (getitem labels _) as [label_id|]; [|discriminate].
    apply IH in Hrun as [Hp Hl]. rewrite Hp, Hl, map_app, !length_app. simpl.
    rewrite <- app_assoc. simpl. split; [reflexivity | lia].
Qed.

Lemma add_folders_lengths folders : forall test_images ground_truth_ids test_images' ids',
  length test_images = length ground_truth_ids ->
  add_folders glob labels evaluate_image_extension evaluate_label_file
    folders test_images ground_truth_ids = Ok (test_images', ids') ->
  length test_images' = length ids'.
Proof.
  induction folders as [|folder folders IH]; intros ti gt ti' gt' Hlen Hrun;
    simpl in Hrun.
  - now injection Hrun as <- <-.
  - destruct (Natsort.sorted _) as [files|]; [|discriminate]. simpl in Hrun.
    destruct (add_files _ _ files ti gt) as [[ti1 gt1]|] eqn:Hf; [|discriminate].
    simpl in Hrun. apply add_files_lengths in Hf as [Hp Hl].
    apply (IH ti1 gt1 ti' gt'); [|exact Hrun].
    rewrite <- (length_map path ti1), Hp, length_app, length_map. lia.
Qed.

(** The two lists the evaluation reads are built in step: one ground-truth
    id per test image. *)
Lemma enumerate_lengths evaluate_image_dir test_images ground_truth_ids :
  enumerate glob labels evaluate_image_dir evaluate_image_extension evaluate_label_file
  = Ok (test_images, ground_truth_ids) ->
  length test_images = length ground_truth_ids.
Proof.
  unfold enumerate.
  destruct (Natsort.sorted
              (glob (evaluate_image_dir +:+ "/**/" +:+ evaluate_image_extension)))
    as [[|f files_all]|]; simpl; try discriminate.
  destruct (Natsort.sorted (glob (evaluate_image_dir +:+ "/*/")))
    as [[|d folders]|]; simpl; try discriminate.
  intros Hrun.
  exact (add_folders_lengths (d :: folders) [] [] _ _ eq_refl Hrun).
Qed.

End Cell.

End EnumerateFacts.

(** ** Further properties of the natural sort *)

Module SortFacts.

Import Natsort Statements NatsortFacts.

Lemma key_eqb_eq x y : key_eqb x y = true -> x = y.
Proof.
  destruct x, y; simpl; try discriminate.
  - intros E. apply String.eqb_eq in E. now subst.
  - intros E. apply Z.eqb_eq in E. now subst.
Qed.

Lemma keys_eqb_eq a : forall b, keys_eqb a b = true -> a = b.
Proof.
  induction a as [|x a IH]; intros [|y b]; simpl; try discriminate; auto.
  intros E. apply andb_true_iff in E as [E1 E2].
  apply key_eqb_eq in E1. apply IH in E2. now subst.
Qed.

Lemma keys_eqb_refl a : keys_eqb a a = true.
Proof. induction a as [|x a IH]; simpl; [reflexivity|]. now rewrite key_eqb_refl. Qed.

Lemma keys_lt_irrefl a : keys_lt a a = Ok false.
Proof. induction a as [|x a IH]; simpl; [reflexivity|]. now rewrite key_eqb_refl. Qed.

(** Insertion steps over strictly smaller keys only, so it never changes
    the order among the pairs that carry one given key. *)
Lemma insert_filter kf x l : forall r,
  insert x l = Ok r ->
  filter (fun p => has_key kf p = true) r
  = filter (fun p => has_key kf p = true) (x :: l).
Proof.
  induction l as [|y l IH]; simpl; intros r Hr.
  - now injection Hr as <-.
  - destruct (keys_lt (snd y) (snd x)) as [[|]|] eqn:Hlt; try discriminate.
    + destruct (insert x l) as [r'|] eqn:Hi; [|discriminate].
      injection Hr as <-.
      rewrite filter_cons, (IH r' eq_refl), !filter_cons.
      destruct (decide (has_key kf x = true)) as [Hx|Hx]; [|reflexivity].
      destruct (decide (has_key kf y = true)) as [Hy|Hy]; [exfalso|reflexivity].
      unfold has_key in Hx, Hy. apply keys_eqb_eq in Hx, Hy.
      rewrite <- Hx, <- Hy, keys_lt_irrefl in Hlt. discriminate.
    + now injection Hr as <-.
Qed.

Lemma sort_pairs_filter kf l : forall r,
  sort_pairs l = Ok r ->
  filter (fun p => has_key kf p = true) r = filter (fun p => has_key kf p = true) l.
Proof.
  induction l as [|x l IH]; simpl; intros r Hr.
  - now injection Hr as <-.
  - destruct (sort_pairs l) as [r'|] eqn:Hs; [|discriminate].
    rewrite (insert_filter kf x r' r Hr), !filter_cons, (IH r' eq_refl). reflexivity.
Qed.

Lemma filter_names kf f l :
  natural_keys f = Ok kf ->
  Forall (fun p => natural_keys (fst p) = Ok (snd p)) l ->
  filter (fun g => same_key f g = true) (map fst l)
  = map fst (filter (fun p => has_key kf p = true) l).
Proof.
  intros Hf. induction 1 as [|p l Hp Hl IH]; [reflexivity|].
  simpl. rewrite !filter_cons, IH.
  assert (E : same_key f (fst p) = has_key kf p).
  { unfold same_key, has_key. now rewrite Hf, Hp. }
  destruct (decide (same_key f (fst p) = true)) as [H1|H1];
    destruct (decide (has_key kf p = true)) as [H2|H2];
    try reflexivity; congruence.
Qed.

Lemma filter_none {A : Type} (P : A -> Prop) `{!forall x, Decision (P x)} (l : list A) :
  (forall x, ~ P x) -> filter P l = [].
Proof.
  intros Hnone. induction l as [|x l IH]; [reflexivity|].
  rewrite filter_cons. destruct (decide (P x)) as [Hx|_]; [now apply Hnone in Hx|exact IH].
Qed.

(** X2: [sorted(files, key=natural_keys)] is stable.  The files that have
    the same key as a given file [f] stand in the result in the order in
    which they stand in the input (the order [glob.glob] returned them). *)
Theorem sorted_is_stable (files r : list string) (f : string) :
  sorted files = Ok r ->
  filter (fun g => same_key f g = true) r
  = filter (fun g => same_key f g = true) files.
Proof.
  unfold sorted. intros Hrun.
  destruct (comprehension decorate files) as [pairs|] eqn:Hd; [|discriminate].
  destruct (sort_pairs pairs) as [r0|] eqn:Hs; [|discriminate].
  injection Hrun as <-.
  destruct (decorate_pairs files pairs Hd) as [Hm Hk].
  destruct (natural_keys f) as [kf|e] eqn:Hf.
  - assert (Hshaped : Forall shaped pairs).
    { eapply Forall_impl; [exact Hk|]. intros p Hp. eapply natural_keys_shape, Hp. }
    destruct (sort_pairs_sorted pairs r0 Hshaped Hs) as (Hp & _ & _).
    assert (Hk0 : Forall (fun p => natural_keys (fst p) = Ok (snd p)) r0).
    { now rewrite <- Hp. }
    rewrite <- Hm, (filter_names kf f r0 Hf Hk0), (filter_names kf f pairs Hf Hk).
    now rewrite (sort_pairs_filter kf pairs r0 Hs).
  - rewrite !filter_none; trivial; intros g; unfold same_key; rewrite Hf; discriminate.
Qed.

Lemma sorted_is_stable_witness :
  filter (fun g => same_key "img7.jpg" g = true) ["img1.jpg"; "img007.jpg"; "img7.jpg"]
  = filter (fun g => same_key "img7.jpg" g = true) ["img007.jpg"; "img7.jpg"; "img1.jpg"].
Proof.
  exact (sorted_is_stable ["img007.jpg"; "img7.jpg"; "img1.jpg"]
           ["img1.jpg"; "img007.jpg"; "img7.jpg"] "img7.jpg" eq_refl).
Defined.

Lemma atoi_leading_zero d :
  decimal_run d = true -> atoi (String "0" d) = atoi d.
Proof.
  intros Hd. unfold atoi.
  rewrite (decimal_run_isdigit d Hd).
  assert (Hz : isdigit (String "0" d) = true).
  { apply decimal_run_isdigit. destruct d; [discriminate|]. exact Hd. }
  rewrite Hz. destruct d as [|a d]; [discriminate|]. reflexivity.
Qed.

(** X3: [natural_keys] ignores leading zeros.  Putting a ["0"] in front of
    a maximal run of digits of a name changes neither the key nor whether
    [natural_keys] raises; when there is a key, the two names have the same
    key and [sorted] leaves the two in the order it was given them. *)
Theorem leading_zeros_are_ignored (p d q : string) :
  ends_with_decimal p = false -> decimal_run d = true ->
  starts_with_decimal q = false ->
  let s := p +:+ d +:+ q in
  let s0 := p +:+ String "0" d +:+ q in
  natural_keys s0 = natural_keys s
  /\ forall ks, natural_keys s = Ok ks ->
       same_key s0 s = true
       /\ sorted [s0; s] = Ok [s0; s] /\ sorted [s; s0] = Ok [s; s0].
Proof.
  intros Hp Hd Hq s s0.
  assert (Hd0 : decimal_run (String "0" d) = true).
  { destruct d; [discriminate|]. exact Hd. }
  assert (E : natural_keys s0 = natural_keys s).
  { unfold natural_keys, s, s0.
    rewrite (re_split_around p (String "0" d) q Hp Hd0 Hq).
    rewrite (re_split_around p d q Hp Hd Hq).
    rewrite !comprehension_app. simpl. now rewrite (atoi_leading_zero d Hd). }
  split; [exact E|]. intros ks Hks.
  split; [unfold same_key; rewrite E, Hks; apply keys_eqb_refl|].
  unfold sorted. simpl. unfold decorate. rewrite E, Hks. simpl.
  rewrite keys_lt_irrefl. now split.
Qed.

Lemma leading_zeros_are_ignored_witness :
  natural_keys "img007.jpg" = natural_keys "img7.jpg".
Proof.
  exact (proj1 (leading_zeros_are_ignored "img" "7" ".jpg" eq_refl eq_refl eq_refl)).
Defined.

End SortFacts.

(** ** Test images, ground truth and their evaluation *)

Module DatasetFacts.

Import Evaluate Enumerate Statements NatsortFacts.

Lemma sorted_permutation files r : Natsort.sorted files = Ok r -> Permutation files r.
Proof.
  unfold Natsort.sorted. intros Hrun.
  destruct (comprehension Natsort.decorate files) as [pairs|] eqn:Hd; [|discriminate].
  destruct (Natsort.sort_pairs pairs) as [r0|] eqn:Hs; [|discriminate].
  injection Hrun as <-.
  destruct (decorate_pairs files pairs Hd) as [Hm Hk].
  assert (Hshaped : Forall Natsort.shaped pairs).
  { eapply Forall_impl; [exact Hk|]. intros p Hp. eapply natural_keys_shape, Hp. }
  destruct (sort_pairs_sorted pairs r0 Hshaped Hs) as (Hp & _ & _).
  rewrite <- Hm. now apply Permutation_map.
Qed.

Lemma sorted_raises files e : Natsort.sorted files = Raise e -> e = ValueError.
Proof.
  destruct (sorted_returns_or_value_error files) as [[r Hr]|Hr]; congruence.
Qed.

Section Cell.

Variable glob : string -> list string.
Variable labels : json.
Variables (evaluate_image_dir evaluate_image_extension evaluate_label_file : string).

(** Only an object can be asked for a name: a list or a string answers
    [in], but then fails at [labels[label]]. *)
Lemma lookup_raises label e :
  (contains labels label = Raise e
   \/ (contains labels label = Ok true /\ getitem labels label = Raise e)) ->
  e = TypeError /\ forall members, labels <> JObj members.
Proof.
  unfold contains, getitem.
  destruct labels as [| | | | |members]; intros [Hin|[Hin Hget]];
    try discriminate; try (injection Hin as <-); try (injection Hget as <-);
    try (split; [reflexivity | discriminate]).
  destruct (assoc label members); discriminate.
Qed.

Lemma add_files_labelled files : forall test_images ground_truth_ids test_images' ids',
  add_files labels evaluate_label_file files test_images ground_truth_ids
  = Ok (test_images', ids') ->
  Forall2 (labelled labels) test_images ground_truth_ids ->
  Forall2 (labelled labels) test_images' ids'
  /\ map path test_images' = map path test_images ++ files.
Proof.
  induction files as [|file files IH]; intros ti gt ti' gt' Hrun Hl; simpl in Hrun.
  - injection Hrun as <- <-. now rewrite app_nil_r.
  - destruct (contains labels _) as [[|]|]; try discriminate.
    destruct (getitem labels _) as [label_id|] eqn:Hid; [|discriminate].
    apply IH in Hrun as [Hl' Hp].
    + split; [exact Hl'|]. rewrite Hp, map_app, <- app_assoc. reflexivity.
    + apply Forall2_app; [exact Hl|]. constructor; [|constructor].
      split; [exact Hid | reflexivity].
Qed.

Lemma add_files_raises files : forall test_images ground_truth_ids e,
  add_files labels evaluate_label_file files test_images ground_truth_ids = Raise e ->
  (exists label,
     e = KeyError (label_not_found label evaluate_label_file)
     /\ contains labels label = Ok false)
  \/ (e = TypeError /\ forall members, labels <> JObj members).
Proof.
  induction files as [|file files IH]; intros ti gt e Hrun; simpl in Hrun; [discriminate|].
  destruct (contains labels _) as [[|]|e1] eqn:Hin.
  - destruct (getitem labels _) as [label_id|e2] eqn:Hid.
    + eapply IH, Hrun.
    + injection Hrun as <-. right. eapply lookup_raises. right. eauto.
  - injection Hrun as <-. left. eexists. split; [reflexivity | exact Hin].
  - injection Hrun as <-. right. eapply lookup_raises. left. exact Hin.
Qed.

Lemma add_folders_labelled folders : forall test_images ground_truth_ids test_images' ids',
  add_folders glob labels evaluate_image_extension evaluate_label_file
    folders test_images ground_truth_ids = Ok (test_images', ids') ->
  Forall2 (labelled labels) test_images ground_truth_ids ->
  Forall2 (labelled labels) test_images' ids'
  /\ exists lists,
       Forall2 (fun folder files =>
                  Natsort.sorted (glob (Fs.join folder evaluate_image_extension)) = Ok files)
         folders lists
       /\ map path test_images' = map path test_images ++ concat lists.
Proof.
  induction folders as [|folder folders IH]; intros ti gt ti' gt' Hrun Hl; simpl in Hrun.
  - injection Hrun as <- <-. split; [exact Hl|]. exists [].
    split; [constructor | now rewrite app_nil_r].
  - destruct (Natsort.sorted (glob (Fs.join folder evaluate_image_extension)))
      as [files|] eqn:Hs; [|discriminate].
    simpl in Hrun.
    destruct (add_files labels evaluate_label_file files ti gt) as [[ti1 gt1]|] eqn:Hf;
      [|discriminate].
    simpl in Hrun.
    destruct (add_files_labelled files ti gt ti1 gt1 Hf Hl) as [Hl1 Hp1].
    destruct (IH ti1 gt1 ti' gt' Hrun Hl1) as [Hl' [lists [Hlists Hp]]].
    split; [exact Hl'|]. exists (files :: lists). split; [now constructor|].
    rewrite Hp, Hp1, <- app_assoc. reflexivity.
Qed.

Lemma add_folders_raises folders : forall test_images ground_truth_ids e,
  add_folders glob labels evaluate_image_extension evaluate_label_file
    folders test_images ground_truth_ids = Raise e ->
  e = ValueError
  \/ (exists label,
        e = KeyError (label_not_found label evaluate_label_file)
        /\ contains labels label = Ok false)
  \/ (e = TypeError /\ forall members, labels <> JObj members).
Proof.
  induction folders as [|folder folders IH]; intros ti gt e Hrun; simpl in Hrun;
    [discriminate|].
  destruct (Natsort.sorted (glob (Fs.join folder evaluate_image_extension)))
    as [files|e'] eqn:Hs.
  - simpl in Hrun.
    destruct (add_files labels evaluate_label_file files ti gt) as [[ti1 gt1]|e'] eqn:Hf.
    + simpl in Hrun. eapply IH, Hrun.
    + simpl in Hrun. injection Hrun as <-. right. eapply add_files_raises, Hf.
  - simpl in Hrun. injection Hrun as <-. left. eapply sorted_raises, Hs.
Qed.

End Cell.

(** X5: when the enumeration cell completes, [test_images] lists the
    folders of [evaluate_image_dir] in natural order and, folder by folder,
    the image files of the folder in natural order; every entry has the
    file's base name as [imageID], and the entry of [ground_truth_ids] at
    the same position is the value [labels[label]] that the label file
    gives to the name of the folder the file is in. *)
Theorem enumerate_by_folder (glob : string -> list string) (labels : json)
    (evaluate_image_dir evaluate_image_extension evaluate_label_file : string)
    (test_images : list test_image) (ground_truth_ids : list json) :
  enumerate glob labels evaluate_image_dir evaluate_image_extension evaluate_label_file
  = Ok (test_images, ground_truth_ids) ->
  Forall2 (labelled labels) test_images ground_truth_ids
  /\ exists folders lists,
       Natsort.sorted (glob (evaluate_image_dir +:+ "/*/")) = Ok folders
       /\ Forall2 (fun folder files =>
                     Natsort.sorted (glob (Fs.join folder evaluate_image_extension))
                     = Ok files)
            folders lists
       /\ map path test_images = concat lists.
Proof.
  unfold enumerate.
  destruct (Natsort.sorted
              (glob (evaluate_image_dir +:+ "/**/" +:+ evaluate_image_extension)))
    as [[|f files_all]|]; simpl; try discriminate.
  destruct (Natsort.sorted (glob (evaluate_image_dir +:+ "/*/")))
    as [[|d folders]|] eqn:Hfolders; simpl; try discriminate.
  intros Hrun.
  destruct (add_folders_labelled glob labels evaluate_image_extension evaluate_label_file
              (d :: folders) [] [] _ _ Hrun ltac:(constructor))
    as [Hl [lists [Hlists Hp]]].
  split; [exact Hl|]. exists (d :: folders), lists. auto.
Qed.

Lemma enumerate_by_folder_witness :
  Forall2 (labelled demo_labels)
    [{| path := "data/cat/img2.jpg"; imageID := "img2.jpg" |};
     {| path := "data/dog/img9.jpg"; imageID := "img9.jpg" |};
     {| path := "data/dog/img10.jpg"; imageID := "img10.jpg" |}]
    [JNum 0; JNum 1; JNum 1].
Proof.
  refine (proj1 (enumerate_by_folder demo_glob demo_labels
                   "data" "*.jpg" "labels.json" _ _ _)).
  vm_compute. reflexivity.
Defined.





(** X8: [evaluate_tflite_model] reads the global [ground_truth_ids] by
    position.  Called with more images than there are ground-truth ids
    (each image with a non-empty output), it raises [IndexError]. *)
Theorem too_few_ground_truth_ids (fl : Q -> Q) (interpreter : string -> list Q)
    (ground_truth_ids : list Z) (images : list test_image) :
  (length ground_truth_ids < length images)%nat ->
  (forall image, In image images -> interpreter (path image) <> []) ->
  evaluate_tflite_model fl interpreter ground_truth_ids images = Raise IndexError.
Proof.
  intros Hlen Hout. unfold evaluate_tflite_model.
  destruct (EvaluateFacts.predict_all interpreter images Hout) as [ps [Hps Hf]].
  rewrite Hps. simpl.
  apply Forall2_length in Hf. rewrite Hf in Hlen. clear Hps Hf Hout images.
  assert (Hgen : forall ps index accurate_count,
            (length ground_truth_ids < index + length ps)%nat ->
            (index <= length ground_truth_ids)%nat ->
            count_accurate ground_truth_ids ps index accurate_count = Raise IndexError).
  { clear ps Hlen. induction ps as [|p ps IH]; intros index acc Hlt Hle; simpl in *.
    - lia.
    - destruct (ground_truth_ids !! index) as [id|] eqn:Hid; [|reflexivity].
      apply lookup_lt_Some in Hid. apply IH; lia. }
  rewrite (Hgen ps O 0%Z); [reflexivity | simpl; lia | lia].
Qed.

Lemma too_few_ground_truth_ids_witness :
  evaluate_tflite_model Preprocess.exact (fun _ => [1%Q]) [0]
    [{| path := "a.jpg"; imageID := "a.jpg" |}; {| path := "b.jpg"; imageID := "b.jpg" |}]
  = Raise IndexError.
Proof.
  apply too_few_ground_truth_ids; [simpl; lia|]. intros image _. discriminate.
Defined.

End DatasetFacts.

(** ** The download loop, pass by pass *)

Module DownloadFacts.

Import ExportApi Vocabulary Statements ExportFacts.

Lemma loop_body_waiting id filename format r v c :
  wt_count v = c -> (c < 4)%nat -> ready r = false ->
  snd (loop_body id filename format r v) = waiting_pass id filename format c r
  /\ wt_count (fst (loop_body id filename format r v)) = (S c mod 4)%nat.
Proof.
  intros Hc Hlt Hr. unfold ready in Hr. apply negb_false_iff in Hr.
  unfold loop_body, waiting_pass. simpl. rewrite Hr, Hc.
  destruct c as [|[|[|[|c]]]]; try lia; split; reflexivity.
Qed.

Lemma run_bodies_waiting id filename format answers : forall v c,
  wt_count v = c -> (c < 4)%nat ->
  Forall (fun r => ready r = false) answers ->
  snd (run_bodies id filename format answers v)
  = concat (imap (fun i => waiting_pass id filename format (c + i)) answers).
Proof.
  induction answers as [|r answers IH]; intros v c Hc Hlt Hall; [reflexivity|].
  apply Forall_cons in Hall as [Hr Hall].
  rewrite run_bodies_cons.
  destruct (loop_body_waiting id filename format r v c Hc Hlt Hr) as [Hevs Hcount].
  destruct (loop_body id filename format r v) as [v' evs]. simpl in Hevs, Hcount.
  assert (Hlt' : (S c mod 4 < 4)%nat) by (apply Nat.mod_upper_bound; lia).
  specialize (IH v' (S c mod 4)%nat Hcount Hlt' Hall).
  destruct (run_bodies id filename format answers v') as [v'' evs']. cbn [snd] in IH.
  cbn [snd]. rewrite Hevs, IH, imap_cons. cbn [concat]. rewrite Nat.add_0_r.
  do 2 f_equal. apply imap_ext. intros i x _. unfold waiting_pass. cbn [compose].
  replace ((S c mod 4 + i) mod 4)%nat with ((c + S i) mod 4)%nat; [reflexivity|].
  rewrite Nat.Div0.add_mod_idemp_l. f_equal. lia.
Qed.

(** X9: while the server answers that the dataset is not ready, the loop
    goes on: pass [i] (from 0) calls [retrieve_dataset], prints
    ["\rDataset is downloading now."] followed by [(i mod 4) + 1] dots, and
    sleeps one second.  [wt_count] stays inside [wt_list] in every pass,
    whatever the number of passes. *)
Theorem progress_dots_cycle (id : json) (filename : string) (format : json)
    (server : list reply) :
  Forall (fun r => ready r = false) server ->
  poll id filename format server initial_vars
  = (concat (imap (waiting_pass id filename format) server), None, []).
Proof.
  intros Hall.
  rewrite (poll_pending id filename format server initial_vars eq_refl Hall).
  now rewrite (run_bodies_waiting id filename format server initial_vars O eq_refl
                 ltac:(lia) Hall).
Qed.

Lemma progress_dots_cycle_witness :
  fst (fst (poll (JNum 1) "project_id_1.zip" (JStr "ImageNet 1.0")
              [busy; busy; busy; busy; busy] initial_vars))
  = concat (imap (waiting_pass (JNum 1) "project_id_1.zip" (JStr "ImageNet 1.0"))
              [busy; busy; busy; busy; busy]).
Proof.
  rewrite (progress_dots_cycle (JNum 1) "project_id_1.zip" (JStr "ImageNet 1.0")
             [busy; busy; busy; busy; busy]); [reflexivity|].
  repeat constructor.
Defined.

#[local] Arguments store_dataset : simpl never.

Lemma run_bodies_app id filename format pre : forall post v,
  run_bodies id filename format (pre ++ post) v
  = let '(v1, evs1) := run_bodies id filename format pre v in
    let '(v2, evs2) := run_bodies id filename format post v1 in
    (v2, evs1 ++ evs2).
Proof.
  induction pre as [|r pre IH]; intros post v.
  - simpl. now destruct (run_bodies id filename format post v).
  - rewrite <- app_comm_cons, !run_bodies_cons.
    destruct (loop_body id filename format r v) as [v' evs].
    rewrite IH.
    destruct (run_bodies id filename format pre v') as [v1 evs1].
    destruct (run_bodies id filename format post v1) as [v2 evs2].
    now rewrite app_assoc.
Qed.

Lemma run_bodies_ready id filename format pre r :
  Forall (fun r => ready r = false) pre -> ready r = true ->
  snd (run_bodies id filename format (pre ++ [r]) initial_vars)
  = concat (imap (waiting_pass id filename format) pre)
    ++ final_pass id filename format r.
Proof.
  intros Hpre Hr. rewrite run_bodies_app.
  pose proof (run_bodies_waiting id filename format pre initial_vars O eq_refl
                ltac:(lia) Hpre) as Hw.
  destruct (run_bodies id filename format pre initial_vars) as [v1 evs1].
  simpl in Hw. subst evs1.
  rewrite run_bodies_cons.
  unfold loop_body. unfold ready in Hr. apply negb_true_iff in Hr. rewrite Hr.
  reflexivity.
Qed.

(** The download cell reads four variables of the cells before it.  With
    them bound, and a server that answers "not ready" some number of times
    and then "ready", the cell lists the projects, makes the waiting passes
    and the final pass, and then runs the statements after the loop with
    the [temp_filepath] the ready answer names. *)
Lemma download_cell_ready `{Libraries} (k : kernel)
    (configuration format id : json) (export_dir : string)
    (pre : list reply) (r : reply) (rest : list reply) :
  k_vars k !! "configuration" = Some configuration ->
  k_vars k !! "export_format" = Some format ->
  k_vars k !! "cvat_project_id" = Some id ->
  k_vars k !! "export_dir" = Some (JStr export_dir) ->
  k_server k = pre ++ r :: rest ->
  Forall (fun r => ready r = false) pre -> ready r = true ->
  let filename := "project_id_" +:+ py_str id +:+ ".zip" in
  exists k1,
    download_cell k = store_dataset export_dir filename (data_name r) k1
    /\ k_log k1
       = k_log k ++ EListProjects
           :: concat (imap (waiting_pass id filename format) pre)
           ++ final_pass id filename format r
    /\ k_server k1 = rest /\ k_fs k1 = k_fs k /\ k_vars k1 = k_vars k.
Proof.
  intros Hconf Hformat Hid Hdir Hserver Hpre Hr. cbv zeta.
  set (filename := "project_id_" +:+ py_str id +:+ ".zip").
  unfold download_cell, download_dataset, Kernel.bind, getvar, emit, download_loop,
    as_str, Kernel.ret.
  simpl. rewrite Hconf. simpl. rewrite Hformat. simpl. rewrite Hid. simpl.
  fold filename. rewrite Hserver.
  rewrite (poll_until_ready id filename format pre r rest initial_vars eq_refl Hpre Hr).
  rewrite (run_bodies_ready id filename format pre r Hpre Hr).
  destruct (run_bodies_last id filename format pre r initial_vars) as [_ Htemp].
  cbv zeta in Htemp. simpl. rewrite Hdir. simpl. rewrite Htemp.
  eexists. split; [reflexivity|]. simpl. rewrite <- app_assoc. now repeat split.
Qed.

End DownloadFacts.

(** ** The statements after the loop *)

Module StoreFacts.

Import ExportApi Vocabulary Statements ExportFacts.

Lemma stat_file fs p c : fs !! p = Some (Fs.File c) -> Fs.stat fs p = Some (Fs.File c).
Proof. intros E. unfold Fs.stat. simpl. now rewrite E. Qed.

Lemma stat_dir fs p : fs !! p = Some Fs.Dir -> Fs.stat fs p = Some Fs.Dir.
Proof. intros E. unfold Fs.stat. simpl. now rewrite E. Qed.

Lemma stat_missing fs p :
  fs !! p = None -> Fs.always_there p = false -> Fs.stat fs p = None.
Proof. intros E1 E2. unfold Fs.stat. simpl. now rewrite E1, E2. Qed.

Lemma isdir_exists fs p : Fs.isdir fs p = true -> Fs.exists_ fs p = true.
Proof. unfold Fs.isdir, Fs.exists_. destruct (Fs.stat fs p) as [[]|]; congruence. Qed.

Lemma append_nonempty s t : s +:+ t = s -> t = "".
Proof.
  induction s as [|a s IH]; simpl; [trivial|]. intros E. injection E as E. auto.
Qed.

(** Outcome and final file system of the statements after the loop. *)
Lemma store_dataset_outcome (k : kernel) (export_dir filename temp_filepath : string) :
  let run := store_dataset export_dir filename temp_filepath k in
  match ensure_dir (k_fs k) export_dir with
  | (fs1, Some e) => fst run = Raised e /\ k_fs (snd run) = fs1
  | (fs1, None) =>
      if Fs.exists_ fs1 (export_dir +:+ filename)
      then fst run = Raised (FileExistsError (exists_msg export_dir))
           /\ k_fs (snd run) = fs1
      else match Fs.move fs1 temp_filepath export_dir with
           | Ok fs2 => fst run = Done tt /\ k_fs (snd run) = fs2
           | Raise e => fst run = Raised e /\ k_fs (snd run) = fs1
           end
  end.
Proof.
  unfold store_dataset, ensure_dir, Kernel.bind, get_fs, emit, lift, set_fs,
    Kernel.ret, Kernel.raise.
  destruct (Fs.exists_ (k_fs k) export_dir) eqn:Hdir; simpl.
  - destruct (Fs.exists_ (k_fs k) (export_dir +:+ filename)); simpl; [now split|].
    destruct (Fs.move (k_fs k) temp_filepath export_dir); simpl; now split.
  - destruct (Fs.makedirs (k_fs k) export_dir) as [fs1 [e|]]; simpl; [now split|].
    destruct (Fs.exists_ fs1 (export_dir +:+ filename)); simpl; [now split|].
    destruct (Fs.move fs1 temp_filepath export_dir); simpl; now split.
Qed.

Lemma mkdir_raises fs name e : Fs.mkdir fs name = Raise e -> file_error e.
Proof.
  unfold Fs.mkdir, Fs.parent_directory, file_error.
  repeat match goal with
         | |- context [if ?c then _ else _] => destruct c
         | |- context [match ?m !! ?p with _ => _ end] => destruct (m !! p) as [[]|]
         | |- context [match Fs.stat ?m ?p with _ => _ end] =>
             destruct (Fs.stat m p) as [[]|]
         end;
    intros [= <-]; auto.
Qed.

Lemma try_mkdir_raises fs name e :
  snd (Fs.try_mkdir fs name) = Some e -> file_error e.
Proof.
  unfold Fs.try_mkdir. destruct (Fs.mkdir fs name) eqn:Hmk; simpl; [discriminate|].
  intros [= <-]. eapply mkdir_raises, Hmk.
Qed.

Lemma makedirs_fuel_raises fuel : forall fs name e,
  snd (Fs.makedirs_fuel fuel fs name) = Some e -> file_error e.
Proof.
  induction fuel as [|fuel IH]; intros fs name e; simpl.
  - destruct (_ && _); apply try_mkdir_raises.
  - destruct (_ && _); [|apply try_mkdir_raises].
    specialize (IH fs (Fs.split_head name)).
    destruct (Fs.makedirs_fuel fuel fs _) as [fs1 [e1|]]; simpl in IH.
    + specialize (IH e1 eq_refl).
      destruct e1; simpl; try (intros [= <-]; exact IH).
      destruct (String.eqb _ "."); [discriminate|apply try_mkdir_raises].
    + destruct (String.eqb _ "."); [discriminate|apply try_mkdir_raises].
Qed.

Lemma move_raises fs src dst e : Fs.move fs src dst = Raise e -> file_error e.
Proof.
  unfold Fs.move, file_error.
  repeat match goal with
         | |- context [if ?c then _ else _] => destruct c
         | |- context [match ?m !! ?p with _ => _ end] => destruct (m !! p) as [[]|]
         end;
    intros [= <-]; auto.
Qed.

Lemma store_dataset_raises (k : kernel) (export_dir filename temp_filepath : string) e :
  fst (store_dataset export_dir filename temp_filepath k) = Raised e -> file_error e.
Proof.
  pose proof (store_dataset_outcome k export_dir filename temp_filepath) as H.
  cbv zeta in H.
  destruct (ensure_dir (k_fs k) export_dir) as [fs1 [e1|]] eqn:Hens.
  - destruct H as [-> _]. intros [= <-].
    unfold ensure_dir in Hens. destruct (negb _); [|discriminate].
    eapply (makedirs_fuel_raises _ (k_fs k) export_dir).
    unfold Fs.makedirs in Hens. now rewrite Hens.
  - destruct (Fs.exists_ _ _).
    + destruct H as [-> _]. intros [= <-]. now left.
    + destruct (Fs.move fs1 temp_filepath export_dir) eqn:Hmv.
      * destruct H as [-> _]. discriminate.
      * destruct H as [-> _]. intros [= <-]. eapply move_raises, Hmv.
Qed.



(** [os.makedirs] below a regular file: nothing is made and
    [NotADirectoryError] names the first directory that could not be. *)
Example makedirs_below_file :
  Fs.makedirs {[ "notes.txt" := Fs.File "text" ]} "notes.txt/a/b"
  = ({[ "notes.txt" := Fs.File "text" ]}, Some (NotADirectoryError "notes.txt/a")).
Proof. vm_compute. reflexivity. Qed.

(** [os.makedirs] can fail after it has made a directory. *)
Example makedirs_fails_half_way :
  Fs.makedirs ∅ ("out/" +:+ long_name)
  = ({[ "out" := Fs.Dir ]},
     Some (OSError Fs.ENAMETOOLONG "File name too long" ("out/" +:+ long_name))).
Proof. vm_compute. reflexivity. Qed.

(** X12: a file that is already in the directory [export_dir] under the
    base name of the download is never replaced.  The run stops with
    [FileExistsError] when [export_dir + filename] exists, and otherwise
    with the [shutil.Error] of [shutil.move]; the file system is left as it
    was. *)
Theorem existing_dataset_is_kept
    (k : kernel) (export_dir filename temp_filepath : string) :
  Fs.isdir (k_fs k) export_dir = true ->
  Fs.exists_ (k_fs k) (destination export_dir temp_filepath) = true ->
  temp_filepath <> export_dir ->
  let run := store_dataset export_dir filename temp_filepath k in
  k_fs (snd run) = k_fs k
  /\ fst run
     = if Fs.exists_ (k_fs k) (export_dir +:+ filename)
       then Raised (FileExistsError (exists_msg export_dir))
       else Raised (ShutilError (destination export_dir temp_filepath)).
Proof.
  intros Hdir Hdst Hne. cbv zeta.
  pose proof (store_dataset_outcome k export_dir filename temp_filepath) as Hrun.
  cbv zeta in Hrun. unfold ensure_dir in Hrun.
  rewrite (isdir_exists _ _ Hdir) in Hrun. simpl in Hrun.
  destruct (Fs.exists_ (k_fs k) (export_dir +:+ filename)); [now destruct Hrun|].
  unfold Fs.move in Hrun. fold (destination export_dir temp_filepath) in Hrun.
  rewrite Hdir, Hdst in Hrun. simpl in Hrun.
  destruct (String.eqb_spec temp_filepath export_dir) as [|_]; [contradiction|].
  now destruct Hrun.
Qed.

Lemma existing_dataset_is_kept_witness :
  let k := {| k_fs := {[ "./dataset" := Fs.Dir;
                         "./dataset/project_id_1.zip" := Fs.File "old";
                         "/tmp/project_id_1.zip" := Fs.File "new" ]};
              k_vars := ∅; k_server := []; k_log := [] |} in
  fst (store_dataset "./dataset" "project_id_1.zip" "/tmp/project_id_1.zip" k)
  = Raised (ShutilError "./dataset/project_id_1.zip").
Proof.
  refine (proj2 (existing_dataset_is_kept
            {| k_fs := {[ "./dataset" := Fs.Dir;
                          "./dataset/project_id_1.zip" := Fs.File "old";
                          "/tmp/project_id_1.zip" := Fs.File "new" ]};
               k_vars := ∅; k_server := []; k_log := [] |}
            "./dataset" "project_id_1.zip" "/tmp/project_id_1.zip" _ _ _));
    try (vm_compute; reflexivity); discriminate.
Defined.

(** X13: when [export_dir] names an existing regular file (and
    [export_dir + filename] does not exist), no directory is made and
    [shutil.move] renames the download onto that file: the run completes
    and [export_dir] now holds the downloaded content. *)
Theorem file_named_export_dir_is_replaced
    (k : kernel) (export_dir filename temp_filepath old content : string) :
  k_fs k !! export_dir = Some (Fs.File old) ->
  k_fs k !! temp_filepath = Some (Fs.File content) ->
  temp_filepath <> export_dir ->
  Fs.exists_ (k_fs k) (export_dir +:+ filename) = false ->
  let run := store_dataset export_dir filename temp_filepath k in
  fst run = Done tt
  /\ k_fs (snd run) !! export_dir = Some (Fs.File content)
  /\ k_fs (snd run) !! temp_filepath = None.
Proof.
  intros Hold Htemp Hne Hguard. cbv zeta.
  pose proof (store_dataset_outcome k export_dir filename temp_filepath) as Hrun.
  cbv zeta in Hrun. unfold ensure_dir, Fs.exists_ at 1 in Hrun.
  rewrite (stat_file _ _ _ Hold) in Hrun. simpl in Hrun. rewrite Hguard in Hrun.
  unfold Fs.move, Fs.isdir in Hrun. rewrite (stat_file _ _ _ Hold) in Hrun.
  simpl in Hrun. rewrite Htemp in Hrun. destruct Hrun as [-> ->].
  split; [reflexivity|]. split; [apply lookup_insert_eq|].
  rewrite lookup_insert_ne by congruence. apply lookup_delete_eq.
Qed.

Lemma file_named_export_dir_is_replaced_witness :
  let k := {| k_fs := {[ "dataset" := Fs.File "notes";
                         "/tmp/project_id_1.zip" := Fs.File "zip" ]};
              k_vars := ∅; k_server := []; k_log := [] |} in
  k_fs (snd (store_dataset "dataset" "project_id_1.zip" "/tmp/project_id_1.zip" k))
    !! "dataset" = Some (Fs.File "zip").
Proof.
  refine (proj1 (proj2 (file_named_export_dir_is_replaced
            {| k_fs := {[ "dataset" := Fs.File "notes";
                          "/tmp/project_id_1.zip" := Fs.File "zip" ]};
               k_vars := ∅; k_server := []; k_log := [] |}
            "dataset" "project_id_1.zip" "/tmp/project_id_1.zip" "notes" "zip" _ _ _ _)));
    try (vm_compute; reflexivity); discriminate.
Defined.

End StoreFacts.

(** ** The configuration cell of the export notebook *)

Module ConfigurationFacts.

Import ExportApi Vocabulary Statements ExportFacts KernelFacts StoreFacts.

#[local] Arguments Path : simpl never.
#[local] Arguments configuration_path : simpl never.
#[local] Arguments ExportApi.configuration_schema_path : simpl never.
#[local] Arguments Quantize.configuration_schema_path : simpl never.

Lemma quiet_bind {A B : Type} (m : cell A) (f : A -> cell B) :
  quiet m -> (forall a, quiet (f a)) -> quiet (Kernel.bind m f).
Proof.
  intros Hm Hf k. unfold Kernel.bind. specialize (Hm k).
  destruct (m k) as [[a|e|] k1]; simpl in *; trivial.
  destruct (Hf a k1) as (H1 & H2 & H3). destruct Hm as (M1 & M2 & M3).
  repeat split; congruence.
Qed.

Lemma quiet_assign name v : quiet (assign name v).
Proof. intros k. now repeat split. Qed.

Lemma quiet_lift {A : Type} (r : result A) : quiet (lift r).
Proof. intros k. unfold lift. now destruct r. Qed.

Lemma quiet_validate_symlink path : quiet (validate_symlink path).
Proof.
  intros k. unfold validate_symlink. now destruct (Fs.is_symlink _ _) as [[|]|].
Qed.

Lemma quiet_get_fs : quiet get_fs.
Proof. intros k. now repeat split. Qed.

Lemma quiet_load_json `{Libraries} path : quiet (load_json path).
Proof.
  apply quiet_bind; [apply quiet_get_fs|].
  intros fs. apply quiet_bind; [apply quiet_lift|]. intros text. apply quiet_lift.
Qed.

Lemma quiet_jsonschema_validate `{Libraries} instance schema :
  quiet (jsonschema_validate instance schema).
Proof.
  intros k. unfold jsonschema_validate. now destruct (jsonschema_conforms _ _).
Qed.

Lemma quiet_path_setting `{Libraries} app_configuration name :
  quiet (Quantize.path_setting app_configuration name).
Proof.
  repeat (apply quiet_bind; [|intros ?]);
    auto using quiet_lift, quiet_assign, quiet_validate_symlink.
Qed.

Lemma quiet_int_setting `{Libraries} app_configuration name :
  quiet (Quantize.int_setting app_configuration name).
Proof.
  repeat (apply quiet_bind; [|intros ?]);
    auto using quiet_lift, quiet_assign.
Qed.

Ltac quiet_steps :=
  repeat (apply quiet_bind; [|intros ?]);
  auto using quiet_lift, quiet_assign, quiet_validate_symlink, quiet_load_json,
    quiet_jsonschema_validate, quiet_path_setting, quiet_int_setting, quiet_get_fs.

Lemma quiet_export_configuration `{Libraries} : quiet ExportApi.load_configurations.
Proof. unfold ExportApi.load_configurations. quiet_steps. Qed.

Lemma quiet_quantize_configuration `{Libraries} : quiet Quantize.load_configurations.
Proof. unfold Quantize.load_configurations. quiet_steps. Qed.

Lemma first_cell_done `{Libraries} (first rest : cell unit) k :
  quiet first ->
  k_log (snd (Kernel.bind first (fun _ => rest) k)) <> k_log k ->
  exists k', first k = (Done tt, k').
Proof.
  intros Hq Hlog. unfold Kernel.bind in Hlog. destruct (Hq k) as (H1 & _).
  destruct (first k) as [[[]|e|] k1]; simpl in *; [eauto | congruence | congruence].
Qed.

(** X15: the configuration cell of either notebook has no effect outside
    the kernel's variables, whatever its outcome: it prints nothing, calls
    no API, and leaves the file system alone.  So a run of a notebook in
    which anything was printed or called has a configuration cell that
    completed. *)
Theorem configuration_cell_is_quiet `{Libraries} :
  quiet ExportApi.load_configurations
  /\ quiet Quantize.load_configurations
  /\ (forall k, k_log (snd (ExportApi.notebook k)) <> k_log k ->
        exists k', ExportApi.load_configurations k = (Done tt, k'))
  /\ (forall k, k_log (snd (Quantize.notebook k)) <> k_log k ->
        exists k', Quantize.load_configurations k = (Done tt, k')).
Proof.
  split; [apply quiet_export_configuration|].
  split; [apply quiet_quantize_configuration|]. split.
  - intros k. apply first_cell_done, quiet_export_configuration.
  - intros k. apply first_cell_done, quiet_quantize_configuration.
Qed.


Lemma get_member_or members key default :
  get (JObj members) key default = Ok (member_or key default members).
Proof. unfold get, member_or. now destruct (assoc key members). Qed.

#[local] Arguments get : simpl never.




#[local] Arguments store_dataset : simpl never.

Lemma export_configuration_vars `{Libraries} k k' :
  ExportApi.load_configurations k = (Done tt, k') ->
  is_Some (k_vars k' !! "cvat_username")
  /\ is_Some (k_vars k' !! "cvat_password")
  /\ is_Some (k_vars k' !! "cvat_project_id")
  /\ is_Some (k_vars k' !! "export_format")
  /\ exists export_dir, k_vars k' !! "export_dir" = Some (JStr export_dir).
Proof.
  intros Hrun. unfold ExportApi.load_configurations in Hrun. cbv zeta in Hrun.
  cell_inv Hrun.
  repeat split; try eexists; see_vars; simplify_map_eq; reflexivity.
Qed.

Lemma download_cell_raises `{Libraries} k e :
  is_Some (k_vars k !! "configuration") ->
  is_Some (k_vars k !! "export_format") ->
  is_Some (k_vars k !! "cvat_project_id") ->
  (exists export_dir, k_vars k !! "export_dir" = Some (JStr export_dir)) ->
  fst (download_cell k) = Raised e -> file_error e.
Proof.
  intros [configuration Hconf] [format Hformat] [id Hid] [export_dir Hdir].
  unfold download_cell, download_dataset, Kernel.bind, getvar, emit, download_loop,
    as_str, Kernel.ret.
  simpl. rewrite Hconf. simpl. rewrite Hformat. simpl. rewrite Hid. simpl.
  destruct (poll id _ format (k_server k) initial_vars) as [[evs [v|]] rest]; simpl;
    [|discriminate].
  rewrite Hdir. simpl. apply store_dataset_raises.
Qed.

Lemma set_authentication_done `{Libraries} k u p :
  k_vars k !! "cvat_username" = Some u -> k_vars k !! "cvat_password" = Some p ->
  exists k2,
    set_authentication k = (Done tt, k2)
    /\ k_server k2 = k_server k
    /\ is_Some (k_vars k2 !! "configuration")
    /\ (forall name, name <> "configuration" -> k_vars k2 !! name = k_vars k !! name)
    /\ k_fs k2 = k_fs k /\ k_log k2 = k_log k.
Proof.
  intros Hu Hp. unfold set_authentication, Kernel.bind, getvar, assign.
  rewrite Hu, Hp. eexists. split; [reflexivity|]. split; [reflexivity|].
  split; [|split; [|split; reflexivity]].
  - simpl. rewrite lookup_insert_eq. eauto.
  - intros name Hne. simpl. now rewrite lookup_insert_ne.
Qed.

(** X10: a run of the export notebook whose configuration cell completes,
    against a server that answers "not ready" some number of times and then
    "ready".  The notebook binds [configuration], lists the projects, makes
    the waiting passes (pass [i] prints [(i mod 4) + 1] dots) and the final
    pass, and then runs the statements after the loop with [export_dir] and
    [cvat_project_id] as the configuration cell left them and with the
    [temp_filepath] the ready answer names.  Nothing else is printed or
    called before that, the file system is still the one the run started
    from, and the answers after the ready one are not asked for. *)
Theorem ready_answer_names_the_file `{Libraries} (k k' : kernel)
    (format id : json) (export_dir : string)
    (pre : list reply) (r : reply) (rest : list reply) :
  ExportApi.load_configurations k = (Done tt, k') ->
  k_vars k' !! "export_format" = Some format ->
  k_vars k' !! "cvat_project_id" = Some id ->
  k_vars k' !! "export_dir" = Some (JStr export_dir) ->
  k_server k = pre ++ r :: rest ->
  Forall (fun r => ready r = false) pre -> ready r = true ->
  let filename := "project_id_" +:+ py_str id +:+ ".zip" in
  exists k1,
    ExportApi.notebook k = store_dataset export_dir filename (data_name r) k1
    /\ k_log k1
       = k_log k ++ EListProjects
           :: concat (imap (waiting_pass id filename format) pre)
           ++ final_pass id filename format r
    /\ k_server k1 = rest /\ k_fs k1 = k_fs k
    /\ is_Some (k_vars k1 !! "configuration")
    /\ (forall name, name <> "configuration" -> k_vars k1 !! name = k_vars k' !! name).
Proof.
  intros Hrun Hformat Hid Hdir Hserver Hpre Hr. cbv zeta.
  destruct (quiet_export_configuration k) as (Hlog & Hfs & Hsrv).
  rewrite Hrun in Hlog, Hfs, Hsrv. simpl in Hlog, Hfs, Hsrv.
  destruct (export_configuration_vars k k' Hrun) as ([u Hu] & [p Hp] & _).
  destruct (set_authentication_done k' u p Hu Hp)
    as (k2 & Hauth & Hsrv2 & [c Hconf] & Hvars & Hfs2 & Hlog2).
  unfold ExportApi.notebook.
  rewrite (bind_step _ _ k tt k' Hrun), (bind_step _ _ k' tt k2 Hauth).
  destruct (DownloadFacts.download_cell_ready k2 c format id export_dir pre r rest)
    as (k1 & Hcell & Hlog1 & Hsrv1 & Hfs1 & Hvars1); trivial;
    try (rewrite Hvars by discriminate; assumption).
  { congruence. }
  exists k1. split; [exact Hcell|]. rewrite Hvars1.
  repeat split; eauto; congruence.
Qed.

Lemma ready_answer_names_the_file_witness :
  exists k1,
    ExportApi.notebook (demo_kernel "configuration" [busy; created; busy])
    = store_dataset "./dataset/" "project_id_1.zip" "/tmp/project_id_1.zip" k1
    /\ k_server k1 = [busy]
    /\ k_fs k1 = demo_fs "configuration".
Proof.
  destruct (fun k' Hrun =>
              ready_answer_names_the_file
                (demo_kernel "configuration" [busy; created; busy]) k'
                (JStr "ImageNet 1.0") (JNum 1) "./dataset/" [busy] created [busy]
                Hrun)
    with (k' := snd (ExportApi.load_configurations
                       (demo_kernel "configuration" [busy; created; busy])))
    as (k1 & Hrun & _ & Hserver & Hfs & _).
  - vm_compute. reflexivity.
  - vm_compute. reflexivity.
  - vm_compute. reflexivity.
  - vm_compute. reflexivity.
  - reflexivity.
  - repeat constructor.
  - reflexivity.
  - exists k1. split; [exact Hrun|]. split; [exact Hserver | exact Hfs].
Defined.



End ConfigurationFacts.

(** ** The configuration cell of the quantization notebook *)

Module SettingsFacts.

Import Vocabulary Statements KernelFacts.

#[local] Arguments Path : simpl never.
#[local] Arguments configuration_path : simpl never.
#[local] Arguments Quantize.configuration_schema_path : simpl never.

Lemma path_setting_value `{Libraries} app_configuration name k a k1 :
  Quantize.path_setting app_configuration name k = (Done a, k1) ->
  exists p,
    getitem app_configuration name = Ok (JStr p)
    /\ k_vars k1 = <[name := JStr p]> (k_vars k) /\ k_fs k1 = k_fs k.
Proof.
  unfold Quantize.path_setting. intros Hrun. cell_inv Hrun.
  match goal with
  | Hv : replace_sep ?v = Ok ?p |- _ =>
      destruct v; simpl in Hv; try discriminate; injection Hv as ->
  end.
  eexists. split; [eassumption|]. split; congruence.
Qed.

Lemma int_setting_value `{Libraries} app_configuration name k a k1 :
  Quantize.int_setting app_configuration name k = (Done a, k1) ->
  exists v n,
    getitem app_configuration name = Ok v /\ py_int v = Ok n
    /\ k_vars k1 = <[name := JNum n]> (k_vars k) /\ k_fs k1 = k_fs k.
Proof.
  unfold Quantize.int_setting. intros Hrun. cell_inv Hrun. eauto 10.
Qed.

Ltac settings_inv H :=
  lazymatch type of H with
  | Kernel.bind _ _ _ = (Done _, _) =>
      let a := fresh "a" in
      let k1 := fresh "k" in
      let H1 := fresh "Hs" in
      let H2 := fresh "Hs" in
      apply bind_done in H as (a & k1 & H1 & H2);
      cbv beta in H2; settings_inv H1; settings_inv H2
  | assign _ _ _ = (Done _, _) =>
      let E1 := fresh "Hfs" in
      apply assign_done in H as (H & E1 & _ & _)
  | validate_symlink _ _ = (Done _, _) =>
      let E := fresh "E" in
      apply validate_symlink_done in H as [E H]; subst
  | lift _ _ = (Done _, _) =>
      let E := fresh "E" in
      apply lift_done in H as [E H]; subst
  | load_json _ _ = (Done _, _) =>
      let E := fresh "E" in
      apply load_json_done in H as [E H]; subst
  | jsonschema_validate _ _ _ = (Done _, _) =>
      let E := fresh "E" in
      apply jsonschema_validate_done in H as [E H]; subst
  | Quantize.path_setting _ _ _ = (Done _, _) =>
      let p := fresh "p" in
      let E := fresh "Hitem" in
      let E1 := fresh "Hfs" in
      apply path_setting_value in H as (p & E & H & E1)
  | Quantize.int_setting _ _ _ = (Done _, _) =>
      let v := fresh "v" in
      let n := fresh "n" in
      let E1 := fresh "Hitem" in
      let E2 := fresh "Hint" in
      let E3 := fresh "Hfs" in
      apply int_setting_value in H as (v & n & E1 & E2 & H & E3)
  | _ => idtac
  end.

(** X17: when the configuration cell of the quantization notebook
    completes, every variable holds what the configuration has under its
    name: the six paths as written, the three sizes through [int], and
    [evaluate_image_extension] with ["*."] put in front (the glob pattern
    of the image files). *)
Theorem quantize_settings `{Libraries} (k k' : kernel) :
  Quantize.load_configurations k = (Done tt, k') ->
  exists app_configuration,
    loaded k configuration_path app_configuration
    /\ Forall (holds_path app_configuration k') path_settings
    /\ Forall (holds_int app_configuration k') int_settings
    /\ exists extension,
         getitem app_configuration "evaluate_image_extension" = Ok (JStr extension)
         /\ k_vars k' !! "evaluate_image_extension" = Some (JStr ("*." +:+ extension)).
Proof.
  intros Hrun. unfold Quantize.load_configurations in Hrun. cbv zeta in Hrun.
  settings_inv Hrun.
  match goal with
  | Hv : concat_str _ ?v = Ok ?p |- _ =>
      destruct v; simpl in Hv; try discriminate; injection Hv as <-
  end.
  unfold loaded in *. same_fs.
  eexists. split; [eassumption|].
  unfold holds_path, holds_int, path_settings, int_settings.
  split; [|split].
  - repeat constructor;
      (eexists; split; [eassumption | see_vars; simplify_map_eq; reflexivity]).
  - repeat constructor;
      (do 2 eexists; split; [eassumption|];
       split; [eassumption | see_vars; simplify_map_eq; reflexivity]).
  - eexists. split; [eassumption | see_vars; simplify_map_eq; reflexivity].
Qed.


Lemma quantize_settings_witness :
  exists app_configuration extension,
    getitem app_configuration "evaluate_image_extension" = Ok (JStr extension)
    /\ k_vars (snd (@Quantize.load_configurations quantize_libraries
                      (demo_kernel "configuration" [])))
         !! "evaluate_image_extension" = Some (JStr ("*." +:+ extension)).
Proof.
  destruct (@quantize_settings quantize_libraries (demo_kernel "configuration" [])
              (snd (@Quantize.load_configurations quantize_libraries
                      (demo_kernel "configuration" []))))
    as (app_configuration & _ & _ & _ & extension & Hitem & Hvar).
  - vm_compute. reflexivity.
  - exists app_configuration, extension. split; [exact Hitem | exact Hvar].
Defined.

Lemma str_var_done name p k :
  k_vars k !! name = Some (JStr p) -> Quantize.str_var name k = (Done p, k).
Proof.
  intros E. unfold Quantize.str_var, Kernel.bind, getvar. now rewrite E.
Qed.

Lemma int_var_done name n k :
  k_vars k !! name = Some (JNum n) -> Quantize.int_var name k = (Done n, k).
Proof.
  intros E. unfold Quantize.int_var, Kernel.bind, getvar. now rewrite E.
Qed.

(** X18: a configuration with [input_tensor_size] 0 that passes the
    configuration cell stops the quantization notebook in the preprocessing
    cell: [RESIZE_SCALE = 256 / input_tensor_size] raises
    [ZeroDivisionError] after the Keras model has been loaded and before
    the image loader is created or anything is quantized. *)
Theorem zero_tensor_size_stops_preprocessing `{Libraries} (k k' : kernel) :
  Quantize.load_configurations k = (Done tt, k') ->
  k_vars k' !! "input_tensor_size" = Some (JNum 0) ->
  fst (Quantize.notebook k) = Raised ZeroDivisionError
  /\ exists source_keras_model,
       k_log (snd (Quantize.notebook k)) = k_log k ++ [ELoadModel source_keras_model].
Proof.
  intros Hrun Hzero.
  destruct (quantize_configuration_done k k' Hrun) as (_ & Hlog & _ & _ & Hpaths & _).
  apply Forall_cons in Hpaths as [(model & Hmodel & _) _].
  set (k1 := {| k_fs := k_fs k'; k_vars := k_vars k'; k_server := k_server k';
                k_log := k_log k' ++ [ELoadModel model] |}).
  assert (Hload : Quantize.load_keras_model k' = (Done tt, k1)).
  { unfold Quantize.load_keras_model.
    now rewrite (bind_step _ _ k' model k' (str_var_done _ _ _ Hmodel)). }
  assert (Hpre : Quantize.define_preprocessing k1 = (Raised ZeroDivisionError, k1)).
  { unfold Quantize.define_preprocessing.
    now rewrite (bind_step _ _ k1 0 k1 (int_var_done "input_tensor_size" 0 k1 Hzero)). }
  assert (Hnotebook : Quantize.notebook k = (Raised ZeroDivisionError, k1)).
  { unfold Quantize.notebook.
    rewrite (bind_step _ _ k tt k' Hrun), (bind_step _ _ k' tt k1 Hload).
    now apply bind_raised. }
  rewrite Hnotebook. simpl. rewrite Hlog. eauto.
Qed.

Lemma zero_tensor_size_stops_preprocessing_witness :
  fst (@Quantize.notebook quantize_libraries (demo_kernel "zero" []))
  = Raised ZeroDivisionError.
Proof.
  refine (proj1 (@zero_tensor_size_stops_preprocessing quantize_libraries
                   (demo_kernel "zero" [])
                   (snd (@Quantize.load_configurations quantize_libraries
                           (demo_kernel "zero" []))) _ _));
    vm_compute; reflexivity.
Defined.

End SettingsFacts.

(** ** The size of the resized image *)

Module ResizeFacts.

Import Preprocess PreprocessFacts.
Local Open Scope Q_scope.

Lemma u64_small_above :
  0 < u64 /\ 256 * ((1 + u64) * (1 + u64) * (1 + u64) * (1 + u64)) < 513 # 2.
Proof. split; vm_compute; reflexivity. Qed.

Lemma np_round_to_half x : x < 513 # 2 -> (np_round x <= 256)%Z.
Proof.
  intros Hx. unfold np_round.
  assert (Hf : (Qfloor x <= 256)%Z).
  { apply Qlt_le_weak in Hx. apply Qfloor_resp_le in Hx. exact Hx. }
  pose proof (Qfloor_le x) as Hle. pose proof (Qlt_floor x) as Hlt.
  set (f := Qfloor x) in *.
  destruct (Z.eq_dec f 256%Z) as [E|Hne].
  - rewrite E in *. 
    destruct (Qcompare_spec (x - inject_Z 256) (1 # 2)) as [E'|L|G];
      [reflexivity | lia | exfalso].
    change (inject_Z 256) with 256 in G. lra.
  - destruct (Qcompare_spec (x - inject_Z f) (1 # 2)) as [E'|L|G];
      [destruct (Z.even f)|..]; lia.
Qed.

Lemma slice_length_le (len start stop : Z) :
  (0 <= len)%Z -> (slice_length len start stop <= len)%Z.
Proof.
  intros Hlen. unfold slice_length, slice_bound.
  destruct (Z.ltb_spec stop 0), (Z.ltb_spec start 0); lia.
Qed.

Lemma py_max_cases a b : py_max a b = a \/ py_max a b = b.
Proof. unfold py_max. destruct (Qle_bool b a); auto. Qed.

Section Rounding.

Variable fl : Q -> Q.
Hypothesis fl_relative : relative_error fl.

(** [RESIZE_SCALE * SIZE] is 256 up to one rounding, for every positive
    tensor size. *)
Lemma scale_bounds (input_tensor_size : Z) (rs : Q) :
  RESIZE_SCALE fl input_tensor_size = Ok rs -> (0 < input_tensor_size)%Z ->
  256 * (1 - u64) <= rs * inject_Z input_tensor_size <= 256 * (1 + u64).
Proof.
  unfold RESIZE_SCALE. destruct (Z.eqb_spec input_tensor_size 0) as [|Hne]; [discriminate|].
  intros [= <-] Hpos.
  set (S := inject_Z input_tensor_size) in *.
  set (q := 256 / S) in *.
  assert (HS : 0 < S) by (apply inject_Z_pos, Hpos).
  assert (HS0 : ~ S == 0) by lra.
  assert (Hq : q * S == 256) by (unfold q; apply div_mul, HS0).
  assert (Hq0 : 0 <= q).
  { destruct (Qlt_le_dec q 0) as [Hneg|]; [exfalso; nra | assumption]. }
  pose proof (fl_lower fl fl_relative q Hq0) as Hlo.
  pose proof (fl_upper fl fl_relative q Hq0) as Hup.
  split.
  - assert (H1 : q * (1 - u64) * S <= fl q * S) by nra.
    assert (H2 : q * (1 - u64) * S == 256 * (1 - u64)) by (rewrite <- Hq; ring).
    rewrite H2 in H1. exact H1.
  - assert (H1 : fl q * S <= q * (1 + u64) * S) by nra.
    assert (H2 : q * (1 + u64) * S == 256 * (1 + u64)) by (rewrite <- Hq; ring).
    rewrite H2 in H1. exact H1.
Qed.

(** The ratio computed from a dimension [d'], multiplied by a dimension
    [d] that is not larger. *)
Lemma quotient_upper (num d d' : Q) :
  0 <= num -> 0 < d -> d <= d' -> fl (num / d') * d <= num * (1 + u64).
Proof.
  intros Hnum Hd Hdd.
  destruct u64_small_above as [Hu _].
  assert (Hd0 : ~ d' == 0) by lra.
  pose proof (div_mul num d' Hd0) as Hdm.
  assert (Hquot : 0 <= num / d').
  { assert (0 <= num / d' * d') by lra.
    destruct (Qlt_le_dec (num / d') 0) as [Hneg|]; [exfalso; nra | assumption]. }
  pose proof (fl_upper fl fl_relative (num / d') Hquot) as Ha.
  set (a := fl (num / d')) in *. set (t := num / d') in *.
  assert (H1 : a * d <= t * (1 + u64) * d) by nra.
  assert (H2 : t * d <= t * d') by nra.
  nra.
Qed.

Lemma tag_upper (rs S d side : Q) :
  0 <= rs * S -> rs * S <= 256 * (1 + u64) ->
  0 <= side * d -> side * d <= fl (rs * S) * (1 + u64) ->
  fl (side * d) < 513 # 2.
Proof.
  intros Hp0 Hp Ht0 Ht.
  destruct u64_small_above as [Hu Hc].
  set (c := 1 + u64) in *.
  pose proof (fl_upper fl fl_relative (rs * S) Hp0) as Hnum. fold c in Hnum.
  set (num := fl (rs * S)) in *.
  assert (Hnum' : num <= 256 * (c * c)) by nra.
  assert (Ht' : side * d <= 256 * (c * c * c)) by nra.
  pose proof (fl_upper fl fl_relative (side * d) Ht0) as Hfl. fold c in Hfl.
  assert (fl (side * d) <= 256 * (c * c * c * c)) by nra.
  lra.
Qed.

(** Both target sizes are at least 256 and the one of the shorter side is
    exactly 256. *)
Lemma tags (input_tensor_size : Z) (rs : Q) (x : image) :
  RESIZE_SCALE fl input_tensor_size = Ok rs -> (0 < input_tensor_size)%Z ->
  (0 < height x)%Z -> (0 < width x)%Z ->
  let scaled := fl (rs * inject_Z input_tensor_size) in
  let side := py_max (fl (scaled / inject_Z (height x)))
                     (fl (scaled / inject_Z (width x))) in
  (256 <= height_tag fl side x)%Z /\ (256 <= width_tag fl side x)%Z
  /\ ((height x <= width x)%Z -> height_tag fl side x = 256%Z)
  /\ ((width x <= height x)%Z -> width_tag fl side x = 256%Z).
Proof.
  intros Hrs Hsize Hh Hw. cbv zeta.
  destruct (scale_bounds input_tensor_size rs Hrs Hsize) as [Hlo Hup].
  destruct u64_small as [Hu _].
  set (S := inject_Z input_tensor_size) in *.
  assert (Hp0 : 0 <= rs * S) by nra.
  set (scaled := fl (rs * S)).
  assert (Hnum0 : 0 <= scaled).
  { pose proof (fl_lower fl fl_relative (rs * S) Hp0). unfold scaled. nra. }
  set (a := fl (scaled / inject_Z (height x))).
  set (b := fl (scaled / inject_Z (width x))).
  set (side := py_max a b).
  pose proof (inject_Z_pos _ Hh) as HhQ. pose proof (inject_Z_pos _ Hw) as HwQ.
  assert (Hht : 511 # 2 <= fl (side * inject_Z (height x))).
  { apply (tag_lower fl fl_relative rs S); trivial. apply py_max_l. }
  assert (Hwt : 511 # 2 <= fl (side * inject_Z (width x))).
  { apply (tag_lower fl fl_relative rs S); trivial. apply py_max_r. }
  assert (Hside0 : 0 <= side).
  { assert (0 <= a); [|pose proof (py_max_l a b); unfold side; lra].
    assert (Hq : 0 <= scaled / inject_Z (height x)).
    { pose proof (div_mul scaled (inject_Z (height x)) ltac:(lra)).
      destruct (Qlt_le_dec (scaled / inject_Z (height x)) 0); [exfalso; nra | assumption]. }
    pose proof (fl_lower fl fl_relative _ Hq). unfold a. nra. }
  split; [now apply np_round_from_half|]. split; [now apply np_round_from_half|].
  split; intros Hle.
  - apply Z.le_antisymm; [|now apply np_round_from_half].
    apply np_round_to_half. apply (tag_upper rs S); trivial; [nra|].
    assert (HleQ : inject_Z (height x) <= inject_Z (width x)).
    { unfold Qle. simpl. lia. }
    destruct (py_max_cases a b) as [E|E]; unfold side; rewrite E.
    + apply quotient_upper; trivial. apply Qle_refl.
    + apply quotient_upper; trivial.
  - apply Z.le_antisymm; [|now apply np_round_from_half].
    apply np_round_to_half. apply (tag_upper rs S); trivial; [nra|].
    assert (HleQ : inject_Z (width x) <= inject_Z (height x)).
    { unfold Qle. simpl. lia. }
    destruct (py_max_cases a b) as [E|E]; unfold side; rewrite E.
    + apply quotient_upper; trivial.
    + apply quotient_upper; trivial. apply Qle_refl.
Qed.

End Rounding.





End ResizeFacts.

(** ** Calibration images *)

Module CalibrationFacts.

Import Preprocess PreprocessFacts Statements ResizeFacts.
Local Open Scope Q_scope.

Lemma normalization_bounds (fl : Q -> Q) (x : Q) :
  monotone fl -> exact_on_halves fl -> 0 <= x <= 255 ->
  -1 <= normalization fl x <= 1.
Proof.
  intros Hm He [Hx0 Hx1].
  pose proof (monotone_compat fl Hm) as Hc.
  assert (Hlo : fl (-255 # 2) == -255 # 2) by (apply (He (-255)%Z); vm_compute; discriminate).
  assert (Hhi : fl (255 # 2) == 255 # 2) by (apply (He 255%Z); vm_compute; discriminate).
  assert (Hm1 : fl (-1) == -1).
  { rewrite (Hc (-1) (-2 # 2)) by reflexivity.
    rewrite (He (-2)%Z) by (vm_compute; discriminate). reflexivity. }
  assert (Hp1 : fl 1 == 1).
  { rewrite (Hc 1 (2 # 2)) by reflexivity.
    rewrite (He 2%Z) by (vm_compute; discriminate). reflexivity. }
  assert (Hdiv : forall y, y / STD == y * (2 # 255)) by (intros y; reflexivity).
  unfold normalization.
  assert (Hy : -255 # 2 <= fl (x - MEAN) <= 255 # 2).
  { split.
    - rewrite <- Hlo. apply Hm. unfold MEAN. lra.
    - rewrite <- Hhi. apply Hm. unfold MEAN. lra. }
  split.
  - rewrite <- Hm1. apply Hm. rewrite Hdiv. lra.
  - rewrite <- Hp1. apply Hm. rewrite Hdiv. lra.
Qed.



End CalibrationFacts.
